(** * go-qstash: publisher, retrying transport and receiver

    A shallow embedding of the Go package [qstash]: the retrying HTTP
    client ([httpClient.Do], [getExponentialBackOffDuration]), the
    publisher ([Publisher.Publish]) and the receiver ([Receiver.verify],
    [Receiver.Receive], [Message.Ack]), the identifier generator
    ([uuid.NewV4]) and the constructors with their options
    ([NewPublisher], [NewReceiver]), followed by the properties of the
    package's specification that were checked against this code (C1 to
    C10) and by further properties read off the code (X1 to X22).

    Conventions.
    - Go [int], [int64] and [time.Duration] are [Z] with the two's
      complement wrap-around written out ([int64_wrap]).
    - Go [string] and [[]byte] are Rocq [string]s (sequences of bytes).
    - A Go [error] is its message; [nil] is [None].
    - [http.Header] (a [map[string][]string]) is a [gmap string (list string)].
      Header maps are reference values in Go, so they live in a store
      ([World.heap]) and structs hold their address.
    - Functions of the Go standard library and of [golang-jwt/jwt] that the
      package calls are either written out (SHA-256, base64, MIME header
      canonicalisation, the claim checks of [jwt.MapClaims]) or taken as
      parameters of a Section (URL parsing, JSON decoding, duration
      formatting, JWT segment decoding, HMAC). *)

From Stdlib Require Import ZArith Lia String Ascii List DecimalString.
From stdpp Require Import base option list strings gmap.

Open Scope Z_scope.

(** ** Outcomes of Go code *)

(** A Go call either returns, panics (nil dereference, write to a nil map),
    or does not return: the one loop whose bound can wrap runs out of the
    fuel given to the model, or a callback blocks. *)
Inductive Res (A : Type) : Type :=
  | Ret (a : A)
  | Panic
  | OutOfFuel.
Arguments Ret {A} a.
Arguments Panic {A}.
Arguments OutOfFuel {A}.

Definition error := string.

(** ** Machine integers *)

Definition int64_wrap (z : Z) : Z := (z + 2 ^ 63) mod 2 ^ 64 - 2 ^ 63.
Definition maxInt64 : Z := 2 ^ 63 - 1.
Definition minInt64 : Z := - 2 ^ 63.

(** [time.Millisecond] and [time.Second], in nanoseconds. *)
Definition Millisecond : Z := 1000000.
Definition Second : Z := 1000000000.

(** [strconv.Itoa] and the [%d] verb. *)
Definition Itoa (n : Z) : string := NilZero.string_of_int (Z.to_int n).

(** ** Requests, responses and the world *)

Definition loc := nat.

(** [*http.Request] as far as the package touches it.  [Header] is the
    address of the header map. *)
Record Request := mkRequest {
  Method : string;
  URL : string;
  Header : loc;
  ReqBody : string
}.

(** A body is a reader: [content] is what reading delivers before it
    stops, [readErr] the error it stops with ([None] for EOF). *)
Record ReadCloser := mkReadCloser {
  content : string;
  readErr : option error
}.

Record Response := mkResponse {
  StatusCode : Z;
  RespBody : ReadCloser
}.

(** What one call of a [Do] method gives back: the Go pair of a
    response pointer and an error, either of which may be nil. *)
Definition DoResult : Type := option Response * option error.

(** Calls made on an [http.ResponseWriter]. *)
Inductive WriterCall :=
  | WriteHeader (code : Z)
  | Write (data : string).

(** The part of the world the package acts on.
    - [heap]: the header maps, by address;
    - [clientCalls]: the requests handed to [Publisher.client.Do], each with
      the header map it carried at that moment;
    - [sends]: the requests handed to the wrapped [http.Client] by the
      retrying transport;
    - [slept]: the arguments of [time.Sleep], in order;
    - [uuids]: how many identifiers were drawn from [Publisher.uuid];
    - [written]: the calls made on the response writer of the request being
      handled. *)
Record World := mkWorld {
  heap : list (gmap string (list string));
  clientCalls : list (Request * gmap string (list string));
  sends : list Request;
  slept : list Z;
  uuids : nat;
  written : list WriterCall
}.

Definition emptyWorld : World := mkWorld [] [] [] [] 0%nat [].

Definition set_heap (h : list (gmap string (list string))) (σ : World) : World :=
  mkWorld h (clientCalls σ) (sends σ) (slept σ) (uuids σ) (written σ).
Definition log_clientCall (c : Request * gmap string (list string)) (σ : World) : World :=
  mkWorld (heap σ) (clientCalls σ ++ [c]) (sends σ) (slept σ) (uuids σ) (written σ).
Definition log_send (r : Request) (σ : World) : World :=
  mkWorld (heap σ) (clientCalls σ) (sends σ ++ [r]) (slept σ) (uuids σ) (written σ).
Definition time_Sleep (d : Z) (σ : World) : World :=
  mkWorld (heap σ) (clientCalls σ) (sends σ) (slept σ ++ [d]) (uuids σ) (written σ).
Definition tick_uuid (σ : World) : World :=
  mkWorld (heap σ) (clientCalls σ) (sends σ) (slept σ) (S (uuids σ)) (written σ).
Definition log_written (cs : list WriterCall) (σ : World) : World :=
  mkWorld (heap σ) (clientCalls σ) (sends σ) (slept σ) (uuids σ) (written σ ++ cs).

(** ** The retrying transport *)

(** The wrapped [*http.Client]: what its [n]-th call answers to a request.
    It is a black box to the package. *)
Definition RoundTripper : Type := nat -> Request -> DoResult.

Record httpClient := mkHttpClient {
  client : RoundTripper;
  MaxBackOff : Z;
  MinBackOff : Z;
  Retries : Z
}.

(** [isStatusOK]: the status code is between 200 and 299. *)
Definition isStatusOK (statusCode : Z) : bool :=
  (statusCode >=? 200) && (statusCode <? 300).

(** The loop of [getExponentialBackOffDuration]; [n] is the number of
    iterations left, [exp] the running value. *)
Fixpoint backOffLoop (n : nat) (exp max : Z) : Z :=
  match n with
  | O => exp
  | S n' =>
      let exp' := int64_wrap (exp * 2) in
      if exp' >? max then max else backOffLoop n' exp' max
  end.

(** [for i := 0; i < attempt; i++] runs [attempt] times when [attempt] is
    positive and not at all otherwise. *)
Definition getExponentialBackOffDuration (c : httpClient) (attempt : Z) : Z :=
  backOffLoop (Z.to_nat attempt) (MinBackOff c) (MaxBackOff c).

(** The loop of [Do].  [i] is the loop counter, [last] the values of
    [resp, err] so far. *)
Fixpoint DoLoop (fuel : nat) (c : httpClient) (req : Request)
    (i : Z) (last : DoResult) (σ : World) : Res (DoResult * World) :=
  match fuel with
  | O => OutOfFuel
  | S fuel' =>
      if i <=? int64_wrap (Retries c + 1) then
        let r := client c (length (sends σ)) req in
        let σ1 := log_send req σ in
        match r with
        | (_, Some _) =>
            DoLoop fuel' c req (int64_wrap (i + 1)) r
              (time_Sleep (getExponentialBackOffDuration c i) σ1)
        | (Some resp, None) =>
            if negb (isStatusOK (StatusCode resp)) then
              DoLoop fuel' c req (int64_wrap (i + 1)) r
                (time_Sleep (getExponentialBackOffDuration c i) σ1)
            else Ret (r, σ1)
        | (None, None) => Panic
        end
      else Ret (last, σ)
  end.

Definition httpClient_Do (fuel : nat) (c : httpClient) (req : Request) (σ : World)
    : Res (DoResult * World) :=
  DoLoop fuel c req 1 (None, None) σ.

(** ** Strings and header maps of the Go standard library *)

Definition byte_of (c : ascii) : Z := Z.of_N (N_of_ascii c).
Definition ascii_of_byte (z : Z) : ascii := ascii_of_N (Z.to_N (z mod 256)).

Definition is_upper (c : ascii) : bool := (65 <=? byte_of c) && (byte_of c <=? 90).
Definition is_lower (c : ascii) : bool := (97 <=? byte_of c) && (byte_of c <=? 122).
Definition is_digit (c : ascii) : bool := (48 <=? byte_of c) && (byte_of c <=? 57).

Definition lower_byte (c : ascii) : ascii :=
  if is_upper c then ascii_of_byte (byte_of c + 32) else c.
Definition upper_byte (c : ascii) : ascii :=
  if is_lower c then ascii_of_byte (byte_of c - 32) else c.

(** [strings.ToLower] on the bytes of a string.  Go lowers runes, not
    bytes; the two agree on ASCII strings.  On other strings they can
    differ, but not in a way [hasForwardPrefix] below can see: no rune
    outside ASCII lowers to one of the letters of the forwarding prefix. *)
Fixpoint ToLower (s : string) : string :=
  match s with
  | EmptyString => EmptyString
  | String c s' => String (lower_byte c) (ToLower s')
  end.

(** [strings.HasPrefix s prefix]. *)
Definition HasPrefix (s prefix : string) : bool := String.prefix prefix s.

(** [validHeaderFieldByte] of net/textproto: the token characters of
    RFC 7230. *)
Definition validHeaderFieldByte (c : ascii) : bool :=
  is_upper c || is_lower c || is_digit c ||
  existsb (Ascii.eqb c) (list_ascii_of_string "!#$%&'*+-.^_`|~").

Fixpoint all_bytes (p : ascii -> bool) (s : string) : bool :=
  match s with
  | EmptyString => true
  | String c s' => p c && all_bytes p s'
  end.

(** The rewriting loop of [canonicalMIMEHeaderKey]: upper case at the start
    and after each dash, lower case elsewhere. *)
Fixpoint canonicalize (upper : bool) (s : string) : string :=
  match s with
  | EmptyString => EmptyString
  | String c s' =>
      let c' := if upper then upper_byte c else lower_byte c in
      String c' (canonicalize (Ascii.eqb c' "-") s')
  end.

(** [textproto.CanonicalMIMEHeaderKey]: a key with a byte that is not a
    token character is returned unchanged. *)
Definition CanonicalMIMEHeaderKey (s : string) : string :=
  if all_bytes validHeaderFieldByte s then canonicalize true s else s.

(** [http.Header.Set] and [http.Header.Get] on a map value. *)
Definition Header_Set (key value : string) (h : gmap string (list string))
    : gmap string (list string) :=
  <[CanonicalMIMEHeaderKey key := [value]]> h.

Definition Header_Get (key : string) (h : gmap string (list string)) : string :=
  match h !! CanonicalMIMEHeaderKey key with
  | Some (v :: _) => v
  | _ => EmptyString
  end.

(** [r.Header.Set(key, value)] on the map at address [l]. *)
Definition heap_Set (l : loc) (key value : string) (σ : World) : World :=
  set_heap (alter (Header_Set key value) l (heap σ)) σ.

(** [strconv.Atoi]: an optional sign and then decimal digits, at least one.
    A syntax error gives 0 and an error; a value out of range gives the
    nearest bound and an error. *)
Fixpoint digits_value (s : string) (acc : Z) : option Z :=
  match s with
  | EmptyString => Some acc
  | String c s' =>
      if is_digit c then digits_value s' (acc * 10 + (byte_of c - 48)) else None
  end.

Definition Atoi (s : string) : Z * option error :=
  let syntax := (0, Some "invalid syntax") in
  let parse (neg : bool) (ds : string) :=
    match ds with
    | EmptyString => syntax
    | _ =>
        match digits_value ds 0 with
        | None => syntax
        | Some v =>
            let v := if neg then - v else v in
            if v >? maxInt64 then (maxInt64, Some "value out of range")
            else if v <? minInt64 then (minInt64, Some "value out of range")
            else (v, None)
        end
    end in
  match s with
  | String "+" ds => parse false ds
  | String "-" ds => parse true ds
  | _ => parse false s
  end.

(** [http.Error(w, msg, code)]: the status line and the message followed by
    a newline.  (The two fixed response headers it also sets are not
    tracked.) *)
Definition http_Error (msg : string) (code : Z) : list WriterCall :=
  [WriteHeader code; Write (msg +:+ String (ascii_of_byte 10) EmptyString)].

(** The status a client sees: the first [WriteHeader] wins, and a [Write]
    before any [WriteHeader] implies 200. *)
Definition status_of (calls : list WriterCall) : option Z :=
  match calls with
  | [] => None
  | WriteHeader code :: _ => Some code
  | Write _ :: _ => Some 200
  end.

Definition StatusOK : Z := 200.
Definition StatusUnauthorized : Z := 401.
Definition StatusUnprocessableEntity : Z := 422.
Definition StatusInternalServerError : Z := 500.

(** ** SHA-256 and base64 (crypto/sha256, encoding/base64) *)

Module SHA256.

Definition w32 (x : Z) : Z := x mod 2 ^ 32.
Definition add32 (x y : Z) : Z := w32 (x + y).
Definition rotr (n x : Z) : Z := Z.lor (Z.shiftr x n) (w32 (Z.shiftl x (32 - n))).
Definition not32 (x : Z) : Z := 2 ^ 32 - 1 - x.

Definition Ch (x y z : Z) : Z := Z.lxor (Z.land x y) (Z.land (not32 x) z).
Definition Maj (x y z : Z) : Z :=
  Z.lxor (Z.lxor (Z.land x y) (Z.land x z)) (Z.land y z).
Definition bigSigma0 (x : Z) : Z := Z.lxor (Z.lxor (rotr 2 x) (rotr 13 x)) (rotr 22 x).
Definition bigSigma1 (x : Z) : Z := Z.lxor (Z.lxor (rotr 6 x) (rotr 11 x)) (rotr 25 x).
Definition smallSigma0 (x : Z) : Z := Z.lxor (Z.lxor (rotr 7 x) (rotr 18 x)) (Z.shiftr x 3).
Definition smallSigma1 (x : Z) : Z := Z.lxor (Z.lxor (rotr 17 x) (rotr 19 x)) (Z.shiftr x 10).

(** The round constants are the fractional bits of the cube roots of the
    first 64 primes, the initial state those of the square roots of the
    first 8; both are computed rather than tabulated. *)
Definition is_prime (n : nat) : bool :=
  (1 <? n)%nat && forallb (fun d => negb (n mod d =? 0)%nat) (seq 2 (n - 2)).
Definition primes64 : list Z :=
  Eval vm_compute in map Z.of_nat (filter (fun n => is_prime n) (seq 2 310)).

Fixpoint cbrt_bits (k : nat) (n acc : Z) : Z :=
  match k with
  | O => acc
  | S k' =>
      let cand := acc + 2 ^ Z.of_nat k' in
      cbrt_bits k' n (if cand * cand * cand <=? n then cand else acc)
  end.
Definition cbrt (n : Z) : Z := cbrt_bits 40 n 0.

Definition K : list Z :=
  Eval vm_compute in map (fun p => w32 (cbrt (p * 2 ^ 96))) primes64.
Definition H0 : list Z :=
  Eval vm_compute in map (fun p => w32 (Z.sqrt (p * 2 ^ 64))) (take 8 primes64).

(** Big-endian words. *)
Definition be_bytes (n : nat) (x : Z) : list Z :=
  map (fun i => Z.shiftr x (8 * Z.of_nat (n - 1 - i)) mod 256) (seq 0 n).
Definition be_word (bs : list Z) : Z := fold_left (fun acc b => acc * 256 + b) bs 0.

Definition pad (msg : list Z) : list Z :=
  let len := Z.of_nat (length msg) in
  let zeros := Z.to_nat ((55 - len) mod 64) in
  msg ++ [128] ++ repeat 0 zeros ++ be_bytes 8 (8 * len).

Fixpoint chunks (n : nat) (k : nat) (l : list Z) : list (list Z) :=
  match n with
  | O => []
  | S n' => take k l :: chunks n' k (drop k l)
  end.

(** The message schedule, most recent word first. *)
Fixpoint schedule (n : nat) (rev_w : list Z) : list Z :=
  match n with
  | O => rev_w
  | S n' =>
      let at_ (i : nat) := nth i rev_w 0 in
      let w := add32 (add32 (smallSigma1 (at_ 1%nat)) (at_ 6%nat))
                     (add32 (smallSigma0 (at_ 14%nat)) (at_ 15%nat)) in
      schedule n' (w :: rev_w)
  end.

Definition round (st : list Z) (kw : Z * Z) : list Z :=
  match st with
  | [a; b; c; d; e; f; g; h] =>
      let t1 := add32 (add32 (add32 h (bigSigma1 e)) (add32 (Ch e f g) (fst kw))) (snd kw) in
      let t2 := add32 (bigSigma0 a) (Maj a b c) in
      [add32 t1 t2; a; b; c; add32 d t1; e; f; g]
  | _ => st
  end.

Definition compress (st : list Z) (block : list Z) : list Z :=
  let w16 := map be_word (chunks 16 4 block) in
  let w := rev (schedule 48 (rev w16)) in
  let st' := fold_left round (combine K w) st in
  map (fun p => add32 (fst p) (snd p)) (combine st st').

(** [sha256.Sum256]: the 32 bytes of the digest. *)
Definition Sum256 (data : string) : string :=
  let msg := pad (map byte_of (list_ascii_of_string data)) in
  let blocks := chunks (length msg / 64) 64 msg in
  let st := fold_left compress blocks H0 in
  string_of_list_ascii (map ascii_of_byte (concat (map (be_bytes 4) st))).

End SHA256.

Module Base64.

(** The alphabet of [base64.URLEncoding]. *)
Definition encodeURL : list ascii :=
  list_ascii_of_string "ABCDEFGHIJKLMNOPQRSTUVWXYZabcdefghijklmnopqrstuvwxyz0123456789-_".

Definition sextet (x : Z) : ascii := nth (Z.to_nat (x mod 64)) encodeURL "="%char.

(** [EncodeToString] with the standard [=] padding. *)
Fixpoint encode (bs : list Z) : list ascii :=
  match bs with
  | [] => []
  | [a] =>
      [sextet (Z.shiftr a 2); sextet (Z.shiftl a 4); "="; "="]%char
  | [a; b] =>
      [sextet (Z.shiftr a 2); sextet (Z.lor (Z.shiftl a 4) (Z.shiftr b 4));
       sextet (Z.shiftl b 2); "="%char]
  | a :: b :: c :: rest =>
      sextet (Z.shiftr a 2) :: sextet (Z.lor (Z.shiftl a 4) (Z.shiftr b 4)) ::
      sextet (Z.lor (Z.shiftl b 2) (Z.shiftr c 6)) :: sextet c :: encode rest
  end.

Definition URLEncoding_EncodeToString (src : string) : string :=
  string_of_list_ascii (encode (map byte_of (list_ascii_of_string src))).

End Base64.

(** ** Messages (qstash.go) *)

(** The one [http.ResponseWriter] of the request being handled; its calls
    are logged in [World.written]. *)
Inductive ResponseWriter := theResponseWriter.

(** [Headers] is the address of the header map, [None] for a nil map; [w]
    is [None] for a nil writer. *)
Record Message := mkMessage {
  ID : string;
  Headers : option loc;
  Body : string;
  Retried : Z;
  w : option ResponseWriter;
  isAcknowledged : bool
}.

Definition set_ID (id : string) (m : Message) : Message :=
  mkMessage id (Headers m) (Body m) (Retried m) (w m) (isAcknowledged m).

(** [Ack]: set the flag, then write the success status to the sink.
    Calling a method on the nil writer panics. *)
Definition Ack (m : Message) (σ : World) : Res (Message * World) :=
  let m' := mkMessage (ID m) (Headers m) (Body m) (Retried m) (w m) true in
  match w m with
  | Some theResponseWriter => Ret (m', log_written [WriteHeader StatusOK] σ)
  | None => Panic
  end.

(** ** Options of a publish call *)

Module PublishOptions.
(** [Schedule] is read by [Publish] and set by [WithSchedule]; the
    declaration of the struct in the sources lists the other three
    fields. *)
Record t := mk {
  Delay : Z;
  Schedule : string;
  Retries : Z;
  ContentBasedDeduplication : bool
}.
Definition zero : t := mk 0 EmptyString 0 false.
End PublishOptions.

Definition PublishOption : Type := PublishOptions.t -> PublishOptions.t.

Definition WithDelay (delay : Z) : PublishOption := fun o =>
  PublishOptions.mk delay (PublishOptions.Schedule o) (PublishOptions.Retries o)
    (PublishOptions.ContentBasedDeduplication o).

Definition WithContentBasedDeduplication : PublishOption := fun o =>
  PublishOptions.mk (PublishOptions.Delay o) (PublishOptions.Schedule o)
    (PublishOptions.Retries o) true.

Definition WithRetries (retries : Z) : PublishOption := fun o =>
  PublishOptions.mk (PublishOptions.Delay o) (PublishOptions.Schedule o) retries
    (PublishOptions.ContentBasedDeduplication o).

(** Modelled from the spec: [WithSchedule], which [PublishWithSchedule]
    calls and the sources do not declare; it sets the schedule string. *)
Definition WithSchedule (schedule : string) : PublishOption := fun o =>
  PublishOptions.mk (PublishOptions.Delay o) schedule (PublishOptions.Retries o)
    (PublishOptions.ContentBasedDeduplication o).

(** [PublishOptions.apply]: run the options in order; it never fails. *)
Definition PublishOptions_apply (o : PublishOptions.t) (opts : list PublishOption)
    : PublishOptions.t * option error :=
  (fold_left (fun acc opt => opt acc) opts o, None).

(** ** The publisher (publisher.go) *)

(** The [Do] capability of [Publisher.client]. *)
Definition Client : Type := Request -> World -> Res (DoResult * World).

Module Publisher.
(** [uuid n] is what the [n]-th call of [uuid.NewV4] returns. *)
Record t := mk {
  token : string;
  url : string;
  topic : string;
  client : Client;
  uuid : nat -> string * option error;
  verbose : bool
}.
End Publisher.

(** The test of the validation loop of [Publish] on one header key. *)
Definition hasForwardPrefix (k : string) : bool :=
  HasPrefix (ToLower k) "upstash-forward-".

Definition header_keys (h : gmap string (list string)) : list string :=
  (map_to_list h).*1.

Section Publish.

(** [http.NewRequest method url body] fails exactly when it rejects the
    method or cannot parse the URL; [NewRequest_error] gives that error. *)
Variable NewRequest_error : string -> string -> option error.
(** [time.Duration.String]. *)
Variable Duration_String : Z -> string.
(** [json.NewDecoder(body).Decode(&v)] for [v] a struct with the one
    string field [messageId]: the error, or the value of the field
    afterwards. *)
Variable json_Decode_messageId : ReadCloser -> error + string.

(** [http.NewRequest]: the request gets a fresh, empty header map. *)
Definition http_NewRequest (method url body : string) (σ : World)
    : (error + Request * World) :=
  match NewRequest_error method url with
  | Some e => inl e
  | None =>
      inr (mkRequest method url (length (heap σ)) body, set_heap (heap σ ++ [∅]) σ)
  end.

Definition set_Header (l : loc) (r : Request) : Request :=
  mkRequest (Method r) (URL r) l (ReqBody r).

(** The last part of [Publish]: send and read the answer. *)
Definition Publish_send (q : Publisher.t) (m : Message) (r : Request) (σ : World)
    : Res (option error * Message * World) :=
  let σ := log_clientCall (r, default ∅ (heap σ !! Header r)) σ in
  match Publisher.client q r σ with
  | Panic => Panic
  | OutOfFuel => OutOfFuel
  | Ret ((_, Some err), σ) => Ret (Some ("could not complete request " +:+ err), m, σ)
  | Ret ((None, None), σ) => Panic
  | Ret ((Some rsp, None), σ) =>
      if (StatusCode rsp <? 200) || (StatusCode rsp >? 299) then
        let bs := content (RespBody rsp) in
        Ret (Some ("bad request status " +:+ Itoa (StatusCode rsp) +:+ ": " +:+ bs), m, σ)
      else
        match json_Decode_messageId (RespBody rsp) with
        | inl err => Ret (Some ("could not decode response " +:+ err), m, σ)
        | inr messageID => Ret (None, set_ID messageID m, σ)
        end
  end.

(** The middle part: the standard headers and the scheduling headers. *)
Definition Publish_headers (q : Publisher.t) (os : PublishOptions.t) (r : Request)
    (σ : World) : World :=
  let σ := heap_Set (Header r) "Authorization" ("Bearer " +:+ Publisher.token q) σ in
  let σ := heap_Set (Header r) "Content-Type" "application/json" σ in
  let σ := if PublishOptions.Delay os >? 0
           then heap_Set (Header r) "Upstash-Delay" (Duration_String (PublishOptions.Delay os)) σ
           else σ in
  let σ := if (0 <? String.length (PublishOptions.Schedule os))%nat
           then heap_Set (Header r) "Upstash-Schedule" (PublishOptions.Schedule os) σ
           else σ in
  if PublishOptions.Retries os >? 0
  then heap_Set (Header r) "Upstash-Retries" (Itoa (PublishOptions.Retries os)) σ
  else σ.

(** The deduplication step; an error is an early return of [Publish]. *)
Definition Publish_dedup (q : Publisher.t) (m : Message) (os : PublishOptions.t)
    (r : Request) (σ : World) : option error * World :=
  let hasID := (0 <? String.length (ID m))%nat in
  if hasID && PublishOptions.ContentBasedDeduplication os then
    (Some "you cannot set 'content based deduplication' and pass a custom deduplication id", σ)
  else if PublishOptions.ContentBasedDeduplication os then
    (None, heap_Set (Header r) "Upstash-Content-Based-Deduplication" "true" σ)
  else if hasID then
    (None, heap_Set (Header r) "Upstash-Deduplication-ID" (ID m) σ)
  else
    match Publisher.uuid q (uuids σ) with
    | (_, Some err) => (Some ("could not generate uuid " +:+ err), tick_uuid σ)
    | (deduplicationID, None) =>
        (None, heap_Set (Header r) "Upstash-Deduplication-ID" deduplicationID (tick_uuid σ))
    end.

(** The validation of the caller's headers; on success the request takes
    over the caller's map. *)
Definition Publish_validate (m : Message) (r : Request) (σ : World)
    : Res (error + Request) :=
  match Headers m with
  | None => Ret (inr r)
  | Some l =>
      match heap σ !! l with
      | None => Panic
      | Some h =>
          if forallb hasForwardPrefix (header_keys h)
          then Ret (inr (set_Header l r))
          else Ret (inl "headers must start with 'Upstash-Forward-'")
      end
  end.

(** [Publish] up to the call of [q.client.Do]: either an early return
    with an error, or the request that is about to be sent. *)
Definition Publish_build (q : Publisher.t) (m : Message) (opts : list PublishOption)
    (σ : World) : Res (error * World + Request * World) :=
  match PublishOptions_apply PublishOptions.zero opts with
  | (_, Some err) => Ret (inl ("bad options: " +:+ err, σ))
  | (os, None) =>
      match http_NewRequest "POST" (Publisher.url q +:+ "/" +:+ Publisher.topic q) (Body m) σ with
      | inl err => Ret (inl ("could not create request " +:+ err, σ))
      | inr (r, σ) =>
          match Publish_validate m r σ with
          | Panic => Panic
          | OutOfFuel => OutOfFuel
          | Ret (inl err) => Ret (inl (err, σ))
          | Ret (inr r) =>
              match Publish_dedup q m os r σ with
              | (Some err, σ) => Ret (inl (err, σ))
              | (None, σ) => Ret (inr (r, Publish_headers q os r σ))
              end
          end
      end
  end.

(** [Publish]: the error returned, the message as the caller sees it
    afterwards, and the world. *)
Definition Publish (q : Publisher.t) (m : Message) (opts : list PublishOption) (σ : World)
    : Res (option error * Message * World) :=
  match Publish_build q m opts σ with
  | Panic => Panic
  | OutOfFuel => OutOfFuel
  | Ret (inl (err, σ)) => Ret (Some err, m, σ)
  | Ret (inr (r, σ)) => Publish_send q m r σ
  end.

Definition PublishWithSchedule (q : Publisher.t) (message : Message) (schedule : string)
    (opts : list PublishOption) (σ : World) :=
  Publish q message (opts ++ [WithSchedule schedule]) σ.

Definition PublishWithDelay (q : Publisher.t) (message : Message) (delay : Z)
    (opts : list PublishOption) (σ : World) :=
  Publish q message (opts ++ [WithDelay delay]) σ.

End Publish.

(** ** JSON web tokens (github.com/golang-jwt/jwt, v3.2.2) *)

Module jwt.

(** A decoded JSON value of a claim.  Numbers stand for their conversion
    to [int64], which is all the claim checks use. *)
Inductive value :=
  | VString (s : string)
  | VNumber (n : Z)
  | VOther.

(** The signing method registered for the [alg] of the token's header. *)
Inductive SigningMethod :=
  | SigningMethodHMAC (alg : string)
  | SigningMethodOther (alg : string).

(** [jwt.Token] after the segments were decoded; [Claims] is a
    [MapClaims]. *)
Record Token := mkToken {
  Method : SigningMethod;
  Claims : gmap string value;
  SigningString : string;
  Signature : string;
  Valid : bool
}.

Definition set_Valid (t : Token) : Token :=
  mkToken (Method t) (Claims t) (SigningString t) (Signature t) true.

Definition verifyExp (exp now : Z) (required : bool) : bool :=
  if exp =? 0 then negb required else now <=? exp.
Definition verifyIat (iat now : Z) (required : bool) : bool :=
  if iat =? 0 then negb required else now >=? iat.
Definition verifyNbf (nbf now : Z) (required : bool) : bool :=
  if nbf =? 0 then negb required else now >=? nbf.
Definition verifyIss (iss cmp : string) (required : bool) : bool :=
  if String.eqb iss EmptyString then negb required else String.eqb iss cmp.

(** The four checks of [MapClaims].  With [req] set, an absent claim
    fails the check. *)
Definition VerifyExpiresAt (m : gmap string value) (cmp : Z) (req : bool) : bool :=
  match m !! "exp" with
  | None => negb req
  | Some (VNumber exp) => verifyExp exp cmp req
  | Some _ => false
  end.
Definition VerifyIssuedAt (m : gmap string value) (cmp : Z) (req : bool) : bool :=
  match m !! "iat" with
  | None => negb req
  | Some (VNumber iat) => verifyIat iat cmp req
  | Some _ => false
  end.
Definition VerifyNotBefore (m : gmap string value) (cmp : Z) (req : bool) : bool :=
  match m !! "nbf" with
  | None => negb req
  | Some (VNumber nbf) => verifyNbf nbf cmp req
  | Some _ => false
  end.
Definition VerifyIssuer (m : gmap string value) (cmp : string) (req : bool) : bool :=
  let iss := match m !! "iss" with Some (VString s) => s | _ => EmptyString end in
  verifyIss iss cmp req.

(** [MapClaims.Valid]: the three time claims, none of them required; the
    error reported is that of the last check that failed. *)
Definition MapClaims_Valid (m : gmap string value) (now : Z) : option error :=
  let e := if VerifyExpiresAt m now false then None else Some "Token is expired" in
  let e := if VerifyIssuedAt m now false then e else Some "Token used before issued" in
  if VerifyNotBefore m now false then e else Some "Token is not valid yet".

Section Parse.

(** The decoding of the three segments of a compact token: an error for
    a malformed token or an unknown [alg], the token otherwise. *)
Variable decode : string -> error + Token.
(** [Method.Verify(signingString, signature, key)]. *)
Variable Verify : SigningMethod -> string -> string -> string -> option error.

(** [jwt.Parse]: decode, look the key up, validate the claims, check
    the signature.  Go returns a pair; it is [inl err] when the error
    is not nil (the caller ignores the token then) and the token, with
    [Valid] set, when it is. *)
Definition Parse (tokenString : string) (keyFunc : Token -> error + string) (now : Z)
    : error + Token :=
  match decode tokenString with
  | inl err => inl err
  | inr token =>
      match keyFunc token with
      | inl err => inl err
      | inr key =>
          let vErr := MapClaims_Valid (Claims token) now in
          let vErr :=
            match Verify (Method token) (SigningString token) (Signature token) key with
            | Some err => Some err
            | None => vErr
            end in
          match vErr with
          | None => inr (set_Valid token)
          | Some err => inl err
          end
      end
  end.

End Parse.

End jwt.

(** ** The receiver (receiver.go) *)

Record Receiver := mkReceiver {
  signingKey : string;
  nextSigningKey : string
}.

(** An inbound [*http.Request]: the address of its header map and its
    body. *)
Record ServerRequest := mkServerRequest {
  InHeader : loc;
  InBody : ReadCloser
}.

(** The callback, as the handler sees it.  The callback is arbitrary Go
    code that is handed the address of the message.  [f m σ] is what has
    become of the call [f(ctx, &m)] made in the world [σ]: the callback
    returned, the struct then holding some message value and the world
    being what the callback made of it (a call of [Ack], on the message
    or on a copy of it, writes to the response; the struct can be
    overwritten; header maps can be written); or it panicked; or it does
    not return, for which [OutOfFuel] stands. *)
Definition Callback : Type := Message -> World -> Res (Message * World).

Section Receive.

Variable jwt_decode : string -> error + jwt.Token.
Variable jwt_Verify : jwt.SigningMethod -> string -> string -> string -> option error.

(** The key function [verify] hands to [jwt.Parse]. *)
Definition keyFunc (signingKey : string) (token : jwt.Token) : error + string :=
  match jwt.Method token with
  | jwt.SigningMethodHMAC _ => inr signingKey
  | jwt.SigningMethodOther alg => inl ("unexpected signing method: " +:+ alg)
  end.

(** The comparison [claims["body"] != s] of an interface value with a
    string: equal only when the claim is a string with the same bytes. *)
Definition body_claim_is (claims : gmap string jwt.value) (s : string) : bool :=
  match claims !! "body" with
  | Some (jwt.VString b) => String.eqb b s
  | _ => false
  end.

(** [verify]; [now] is the time of the verification. *)
Definition verify (body tokenString signingKey : string) (now : Z) : option error :=
  match jwt.Parse jwt_decode jwt_Verify tokenString (keyFunc signingKey) now with
  | inl err => Some ("could not parse jwt: " +:+ err)
  | inr token =>
      let claims := jwt.Claims token in
      if negb (jwt.Valid token) then Some "could not jwt process token claims"
      else if negb (jwt.VerifyIssuer claims "Upstash" true) then Some "invalid issuer"
      else if negb (jwt.VerifyExpiresAt claims now true) then Some "token has expired"
      else if negb (jwt.VerifyNotBefore claims now true) then Some "token is not valid yet"
      else
        let bodyHash := SHA256.Sum256 body in
        if negb (body_claim_is claims (Base64.URLEncoding_EncodeToString bodyHash))
        then Some "body hash does not match"
        else None
  end.

(** The handler [Receive] returns, run on one request.  [onReceive] is
    [None] for a nil callback; [now1] and [now2] are the times of the two
    verifications.  The result is the message the callback was handed, as
    it is when the handler returns ([None] if there was no callback
    stage), and the world. *)
Definition Receive (q : Receiver) (onReceive : option Callback)
    (r : ServerRequest) (now1 now2 : Z) (σ : World) : Res (option Message * World) :=
  match readErr (InBody r) with
  | Some err =>
      Ret (None, log_written (http_Error err StatusInternalServerError) σ)
  | None =>
      let body := content (InBody r) in
      match heap σ !! InHeader r with
      | None => Panic
      | Some header =>
          let tokenString := Header_Get "Upstash-Signature" header in
          match verify body tokenString (signingKey q) now1 with
          | Some err =>
              match verify body tokenString (nextSigningKey q) now2 with
              | Some err' =>
                  Ret (None, log_written (http_Error err' StatusUnauthorized) σ)
              | None =>
                  Ret (None, log_written (http_Error err StatusUnauthorized) σ)
              end
          | None =>
              let m := mkMessage (Header_Get "Upstash-Message-Id" header)
                         (Some (InHeader r)) body
                         (fst (Atoi (Header_Get "Upstash-Retried" header)))
                         (Some theResponseWriter) false in
              let after :=
                match onReceive with
                | Some f => f m σ
                | None => Ret (m, σ)
                end in
              match after with
              | Panic => Panic
              | OutOfFuel => OutOfFuel
              | Ret (m, σ) =>
                  if negb (isAcknowledged m) then
                    Ret (Some m,
                         log_written
                           (http_Error "message was not acknowledged by the receiver"
                              StatusUnprocessableEntity) σ)
                  else Ret (Some m, σ)
              end
          end
      end
  end.

End Receive.

(** ** Identifiers ([uuid.NewV4]) *)

Module big.

(** The digits of [big.Int.Text]: lower-case letters for the digit values
    10 to 35, upper-case letters for 36 to 61. *)
Definition digits : string :=
  "0123456789abcdefghijklmnopqrstuvwxyzABCDEFGHIJKLMNOPQRSTUVWXYZ".

Definition digit (d : Z) : ascii :=
  nth (Z.to_nat d) (list_ascii_of_string digits) "0"%char.

(** [Int.SetBytes]: the bytes read as a big-endian unsigned number. *)
Definition SetBytes (buf : list Z) : Z :=
  fold_left (fun acc b => acc * 256 + b) buf 0.

(** The digits of a non-negative number, most significant first, in front
    of [acc]; [fuel] bounds the number of digits. *)
Fixpoint Text_loop (fuel : nat) (base x : Z) (acc : string) : string :=
  match fuel with
  | O => acc
  | S fuel' =>
      if x <? base then String (digit x) acc
      else Text_loop fuel' base (x / base) (String (digit (x mod base)) acc)
  end.

(** [Int.Text(base)] for a base from 2 to 62.  A number has no more
    digits than bits. *)
Definition Text (x base : Z) : string :=
  if x <? 0
  then String "-"%char (Text_loop (S (Z.to_nat (Z.log2 (- x)))) base (- x) EmptyString)
  else Text_loop (S (Z.to_nat (Z.log2 x))) base x EmptyString.

End big.

Module uuid.

(** [NewV4].  [rnd] is what [io.ReadFull(rand.Reader, uuid[:])] did with
    the buffer of 16 bytes: the error it returned, or the 16 bytes it
    filled the buffer with. *)
Definition NewV4 (rnd : error + list Z) : string * option error :=
  match rnd with
  | inl err => (EmptyString, Some err)
  | inr uuid =>
      let uuid := alter (fun b => Z.lor (Z.land b 15) 64) 6%nat uuid in
      let uuid := alter (fun b => Z.lor (Z.land b 63) 128) 8%nat uuid in
      (big.Text (big.SetBytes uuid) 62, None)
  end.

End uuid.

(** ** Options of receivers and publishers *)

Module ReceiverOptions.
Record t := mk {
  SigningKey : string;
  NextSigningKey : string
}.
Definition zero : t := mk EmptyString EmptyString.
End ReceiverOptions.

Definition ReceiverOption : Type := ReceiverOptions.t -> ReceiverOptions.t.

Definition WithSigningKey (signingKey : string) : ReceiverOption := fun o =>
  ReceiverOptions.mk signingKey (ReceiverOptions.NextSigningKey o).

Definition WithNextSigningKey (signingKey : string) : ReceiverOption := fun o =>
  ReceiverOptions.mk (ReceiverOptions.SigningKey o) signingKey.

Module PublisherOptions.
Record ClientOptions := mkClient {
  Timeout : Z;
  MaxBackOff : Z;
  MinBackOff : Z;
  Retries : Z
}.
Record t := mk {
  QStashURL : string;
  QStashToken : string;
  Client : ClientOptions;
  Verbose : bool;
  topic : string
}.
Definition zero : t := mk EmptyString EmptyString (mkClient 0 0 0 0) false EmptyString.
End PublisherOptions.

Definition PublisherOption : Type := PublisherOptions.t -> PublisherOptions.t.

Definition set_Client (c : PublisherOptions.ClientOptions) (o : PublisherOptions.t)
    : PublisherOptions.t :=
  PublisherOptions.mk (PublisherOptions.QStashURL o) (PublisherOptions.QStashToken o) c
    (PublisherOptions.Verbose o) (PublisherOptions.topic o).

Definition WithClientMaxBackOff (maxBackOff : Z) : PublisherOption := fun o =>
  let c := PublisherOptions.Client o in
  set_Client (PublisherOptions.mkClient (PublisherOptions.Timeout c) maxBackOff
                (PublisherOptions.MinBackOff c) (PublisherOptions.Retries c)) o.

Definition WithClientMinBackOff (minBackOff : Z) : PublisherOption := fun o =>
  let c := PublisherOptions.Client o in
  set_Client (PublisherOptions.mkClient (PublisherOptions.Timeout c)
                (PublisherOptions.MaxBackOff c) minBackOff (PublisherOptions.Retries c)) o.

Definition WithClientRetries (retries : Z) : PublisherOption := fun o =>
  let c := PublisherOptions.Client o in
  set_Client (PublisherOptions.mkClient (PublisherOptions.Timeout c)
                (PublisherOptions.MaxBackOff c) (PublisherOptions.MinBackOff c) retries) o.

Definition WithClientTimeout (timeout : Z) : PublisherOption := fun o =>
  let c := PublisherOptions.Client o in
  set_Client (PublisherOptions.mkClient timeout (PublisherOptions.MaxBackOff c)
                (PublisherOptions.MinBackOff c) (PublisherOptions.Retries c)) o.

Definition WithQStashURL (url : string) : PublisherOption := fun o =>
  PublisherOptions.mk url (PublisherOptions.QStashToken o) (PublisherOptions.Client o)
    (PublisherOptions.Verbose o) (PublisherOptions.topic o).

Definition WithQStashToken (token : string) : PublisherOption := fun o =>
  PublisherOptions.mk (PublisherOptions.QStashURL o) token (PublisherOptions.Client o)
    (PublisherOptions.Verbose o) (PublisherOptions.topic o).

Definition WithVerbose : PublisherOption := fun o =>
  PublisherOptions.mk (PublisherOptions.QStashURL o) (PublisherOptions.QStashToken o)
    (PublisherOptions.Client o) true (PublisherOptions.topic o).

Definition withTopic (topic : string) : PublisherOption := fun o =>
  PublisherOptions.mk (PublisherOptions.QStashURL o) (PublisherOptions.QStashToken o)
    (PublisherOptions.Client o) (PublisherOptions.Verbose o) topic.

Section Constructors.

(** [os.Getenv], as it answers when the package is initialised: the
    default options are package variables. *)
Variable Getenv : string -> string.
(** The [http.Client] with a given timeout, as a black box. *)
Variable http_Client : Z -> RoundTripper.
(** What the [n]-th read of 16 bytes from [rand.Reader] gives. *)
Variable rand_Reader : nat -> error + list Z.

Definition defaultReceiverOptions : list ReceiverOption :=
  [WithSigningKey (Getenv "QSTASH_SIGNING_KEY");
   WithNextSigningKey (Getenv "QSTASH_NEXT_SIGNING_KEY")].

(** [ReceiverOptions.apply]: the defaults, then the options, in order;
    then the validation.  The result is the struct afterwards and the
    error. *)
Definition ReceiverOptions_apply (o : ReceiverOptions.t) (opts : list ReceiverOption)
    : ReceiverOptions.t * option error :=
  let o := fold_left (fun acc opt => opt acc) (defaultReceiverOptions ++ opts) o in
  if String.eqb (ReceiverOptions.SigningKey o) EmptyString then
    (o, Some "'QSTASH_SIGNING_KEY' is required")
  else if String.eqb (ReceiverOptions.NextSigningKey o) EmptyString then
    (o, Some "'QSTASH_NEXT_SIGNING_KEY' is required")
  else (o, None).

Definition NewReceiver (opts : list ReceiverOption) : error + Receiver :=
  match ReceiverOptions_apply ReceiverOptions.zero opts with
  | (_, Some err) => inl ("receiver is missing config: " +:+ err)
  | (os, None) =>
      inr (mkReceiver (ReceiverOptions.SigningKey os) (ReceiverOptions.NextSigningKey os))
  end.

Definition defaultPublisherOptions : list PublisherOption :=
  [WithQStashURL "https://qstash.upstash.io/v2/publish";
   WithQStashToken (Getenv "QSTASH_TOKEN");
   WithClientTimeout Second;
   WithClientMaxBackOff Second;
   WithClientMinBackOff (200 * Millisecond);
   WithClientRetries 5].

(** [PublisherOptions.apply]. *)
Definition PublisherOptions_apply (o : PublisherOptions.t) (opts : list PublisherOption)
    : PublisherOptions.t * option error :=
  let o := fold_left (fun acc opt => opt acc) (defaultPublisherOptions ++ opts) o in
  let c := PublisherOptions.Client o in
  if String.eqb (PublisherOptions.QStashToken o) EmptyString then
    (o, Some "'QSTASH_TOKEN' is required")
  else if String.eqb (PublisherOptions.QStashURL o) EmptyString then
    (o, Some "qstash url is required")
  else if String.eqb (PublisherOptions.topic o) EmptyString then
    (o, Some "topic is required")
  else if PublisherOptions.Timeout c <? Millisecond then
    (o, Some "http client timeout must at least 1 millisecond")
  else if PublisherOptions.Retries c <? 0 then
    (o, Some "http client retries must be at least 0")
  else if PublisherOptions.MinBackOff c <? Millisecond then
    (o, Some "http client min back off must at least 1 millisecond")
  else if PublisherOptions.MaxBackOff c <? Millisecond then
    (o, Some "http client max back off must at least 1 millisecond")
  else if PublisherOptions.MinBackOff c >? PublisherOptions.MaxBackOff c then
    (o, Some "http client min back off must be less than or equal to max back off")
  else (o, None).

(** The retrying transport [NewPublisher] builds from the options. *)
Definition httpClient_of (os : PublisherOptions.t) : httpClient :=
  let c := PublisherOptions.Client os in
  mkHttpClient (http_Client (PublisherOptions.Timeout c)) (PublisherOptions.MaxBackOff c)
    (PublisherOptions.MinBackOff c) (PublisherOptions.Retries c).

(** [NewPublisher]; [fuel] is the fuel of the retry loop of the
    publisher's transport. *)
Definition NewPublisher (fuel : nat) (topic : string) (opts : list PublisherOption)
    : error + Publisher.t :=
  match PublisherOptions_apply PublisherOptions.zero (opts ++ [withTopic topic]) with
  | (_, Some err) => inl err
  | (os, None) =>
      inr (Publisher.mk (PublisherOptions.QStashToken os) (PublisherOptions.QStashURL os)
             (PublisherOptions.topic os)
             (httpClient_Do fuel (httpClient_of os))
             (fun n => uuid.NewV4 (rand_Reader n))
             (PublisherOptions.Verbose os))
  end.

End Constructors.

(** * Vocabulary of the properties *)

(** ** The retrying transport *)

(** One attempt failed: the send returned an error, or a response whose
    status is not in the 200s. *)
Definition send_fails (r : DoResult) : Prop :=
  match r with
  | (_, Some _) => True
  | (Some resp, None) => isStatusOK (StatusCode resp) = false
  | (None, None) => False
  end.

(** The world after [k] failed attempts numbered [i], [i+1], ... *)
Definition after_failures (c : httpClient) (req : Request) (i : Z) (k : nat) (σ : World)
    : World :=
  mkWorld (heap σ) (clientCalls σ) (sends σ ++ repeat req k)
    (slept σ ++ map (fun j => getExponentialBackOffDuration c (i + Z.of_nat j)) (seq 0 k))
    (uuids σ) (written σ).

(** A backoff policy whose doubling cannot overflow. *)
Definition sane_policy (c : httpClient) : Prop :=
  0 < MinBackOff c <= MaxBackOff c /\ MaxBackOff c < 2 ^ 62.

(** The policy [NewPublisher] installs by default, around a given client. *)
Definition defaultClient (rt : RoundTripper) : httpClient :=
  mkHttpClient rt Second (200 * Millisecond) 5.

(** ** The publisher *)

(** The messages of the two validation errors of [Publish]. *)
Definition ErrHeaderPrefix : error := "headers must start with 'Upstash-Forward-'".
Definition ErrDedupConflict : error :=
  "you cannot set 'content based deduplication' and pass a custom deduplication id".

(** An error of one of the two validation steps of [Publish]. *)
Definition is_validation_error (e : error) : Prop :=
  e = ErrHeaderPrefix \/ e = ErrDedupConflict.

(** The options a call of [Publish] works with. *)
Definition options_of (opts : list PublishOption) : PublishOptions.t :=
  fst (PublishOptions_apply PublishOptions.zero opts).

Definition hasID (m : Message) : bool := (0 <? String.length (ID m))%nat.

(** A caller-supplied identifier together with content based
    deduplication. *)
Definition dedup_conflict (m : Message) (os : PublishOptions.t) : bool :=
  hasID m && PublishOptions.ContentBasedDeduplication os.

(** The header map of the message, when it has one, is in the store. *)
Definition wf_message (σ : World) (m : Message) : Prop :=
  forall l, Headers m = Some l -> is_Some (heap σ !! l).

(** The caller's header map ([∅] for a nil map) and the address of the
    map the request ends up with. *)
Definition caller_headers (σ : World) (m : Message) : gmap string (list string) :=
  match Headers m with
  | Some l => default ∅ (heap σ !! l)
  | None => ∅
  end.
Definition request_loc (σ : World) (m : Message) : loc :=
  match Headers m with
  | Some l => l
  | None => length (heap σ)
  end.

Definition headers_valid (σ : World) (m : Message) : bool :=
  forallb hasForwardPrefix (header_keys (caller_headers σ m)).

(** The error of the generator, when [Publish] has to ask it: the message
    has no identifier and content based deduplication is off. *)
Definition generator_error (q : Publisher.t) (m : Message) (os : PublishOptions.t)
    (σ : World) : option error :=
  if hasID m || PublishOptions.ContentBasedDeduplication os then None
  else snd (Publisher.uuid q (uuids σ)).

(** The identifier [Publish] puts in the deduplication header. *)
Definition dedup_id (q : Publisher.t) (m : Message) (σ : World) : string :=
  if hasID m then ID m else fst (Publisher.uuid q (uuids σ)).

(** A header map carries the header [name] when it has an entry whose key
    equals [name] up to the case of letters, which is how HTTP compares
    header names. *)
Definition same_header (k name : string) : Prop := ToLower k = ToLower name.
Definition carries (h : gmap string (list string)) (name : string) (v : string) : Prop :=
  forall k, same_header k name ->
    h !! k = (if String.eqb k (CanonicalMIMEHeaderKey name) then Some [v] else None).
Definition lacks (h : gmap string (list string)) (name : string) : Prop :=
  forall k, same_header k name -> h !! k = None.

(** What [Publish_dedup] writes, on the map itself. *)
Definition dedup_written (q : Publisher.t) (m : Message) (os : PublishOptions.t)
    (σ : World) (h : gmap string (list string)) : gmap string (list string) :=
  if PublishOptions.ContentBasedDeduplication os
  then Header_Set "Upstash-Content-Based-Deduplication" "true" h
  else Header_Set "Upstash-Deduplication-ID" (dedup_id q m σ) h.

(** The request [Publish] builds, and the world after [http.NewRequest]. *)
Definition built_request (q : Publisher.t) (m : Message) (σ : World) : Request :=
  mkRequest "POST" (Publisher.url q +:+ "/" +:+ Publisher.topic q)
    (request_loc σ m) (Body m).
Definition after_NewRequest (σ : World) : World := set_heap (heap σ ++ [∅]) σ.

(** The keys [Publish] writes, in canonical form: those of the standard
    and scheduling headers, and those of the two deduplication headers. *)
Definition standard_keys : list string :=
  ["Authorization"; "Content-Type"; "Upstash-Delay"; "Upstash-Schedule";
   "Upstash-Retries"].
Definition dedup_keys : list string :=
  ["Upstash-Content-Based-Deduplication"; "Upstash-Deduplication-Id"].
Definition written_keys : list string := standard_keys ++ dedup_keys.

(** Every key of the map carries the forwarding prefix. *)
Definition all_forwarded (h : gmap string (list string)) : Prop :=
  forall k, is_Some (h !! k) -> hasForwardPrefix k = true.

(** Exactly one deduplication header: the flag when content based
    deduplication is on, the identifier [id] otherwise. *)
Definition one_dedup_header (cbd : bool) (id : string) (h : gmap string (list string))
    : Prop :=
  if cbd
  then carries h "Upstash-Content-Based-Deduplication" "true"
       /\ lacks h "Upstash-Deduplication-ID"
  else carries h "Upstash-Deduplication-ID" id
       /\ lacks h "Upstash-Content-Based-Deduplication".

(** A client that leaves the header maps alone. *)
Definition client_keeps_heap (c : Client) : Prop :=
  forall r σ res σ', c r σ = Ret (res, σ') -> heap σ' = heap σ.

Section PublishVocabulary.
Variable NewRequest_error : string -> string -> option error.
Variable Duration_String : Z -> string.

(** What [Publish_headers] writes, on the map itself. *)
Definition headers_written (q : Publisher.t) (os : PublishOptions.t)
    (h : gmap string (list string)) : gmap string (list string) :=
  let h := Header_Set "Authorization" ("Bearer " +:+ Publisher.token q) h in
  let h := Header_Set "Content-Type" "application/json" h in
  let h := if PublishOptions.Delay os >? 0
           then Header_Set "Upstash-Delay" (Duration_String (PublishOptions.Delay os)) h
           else h in
  let h := if (0 <? String.length (PublishOptions.Schedule os))%nat
           then Header_Set "Upstash-Schedule" (PublishOptions.Schedule os) h
           else h in
  if PublishOptions.Retries os >? 0
  then Header_Set "Upstash-Retries" (Itoa (PublishOptions.Retries os)) h
  else h.

(** The errors with which [Publish] returns before it sends anything. *)
Definition early_error (q : Publisher.t) (m : Message) (opts : list PublishOption)
    (σ : World) (e : error) : Prop :=
  match NewRequest_error "POST" (Publisher.url q +:+ "/" +:+ Publisher.topic q) with
  | Some e0 => e = "could not create request " +:+ e0
  | None =>
      if headers_valid σ m then
        if dedup_conflict m (options_of opts) then e = ErrDedupConflict
        else exists e', snd (Publisher.uuid q (uuids σ)) = Some e'
                        /\ e = "could not generate uuid " +:+ e'
      else e = ErrHeaderPrefix
  end.

(** The standard and scheduling headers of a request of [Publish]. *)
Definition standard_headers (q : Publisher.t) (os : PublishOptions.t)
    (h : gmap string (list string)) : Prop :=
  h !! "Authorization" = Some ["Bearer " +:+ Publisher.token q]
  /\ h !! "Content-Type" = Some ["application/json"]
  /\ h !! "Upstash-Delay"
     = (if PublishOptions.Delay os >? 0
        then Some [Duration_String (PublishOptions.Delay os)] else None)
  /\ h !! "Upstash-Schedule"
     = (if (0 <? String.length (PublishOptions.Schedule os))%nat
        then Some [PublishOptions.Schedule os] else None)
  /\ h !! "Upstash-Retries"
     = (if PublishOptions.Retries os >? 0
        then Some [Itoa (PublishOptions.Retries os)] else None).

End PublishVocabulary.

(** ** The receiver *)

(** The body-hash claim a token must carry for a body. *)
Definition digest (body : string) : string :=
  Base64.URLEncoding_EncodeToString (SHA256.Sum256 body).

(** The message [Receive] hands to the callback. *)
Definition received_message (r : ServerRequest) (header : gmap string (list string))
    : Message :=
  mkMessage (Header_Get "Upstash-Message-Id" header) (Some (InHeader r))
    (content (InBody r)) (fst (Atoi (Header_Get "Upstash-Retried" header)))
    (Some theResponseWriter) false.

(** What calling the callback on a message comes to; a nil callback is
    not called. *)
Definition callback_outcome (onReceive : option Callback) (m : Message) (σ : World)
    : Res (Message * World) :=
  match onReceive with
  | Some f => f m σ
  | None => Ret (m, σ)
  end.

(** The callback that does what [f] does and then calls [Ack] on the
    message. *)
Definition then_Ack (f : Callback) : Callback := fun m σ =>
  match f m σ with
  | Ret (m1, σ1) => Ack m1 σ1
  | Panic => Panic
  | OutOfFuel => OutOfFuel
  end.

(** What the handler writes for a message that was not acknowledged. *)
Definition unacknowledged : list WriterCall :=
  http_Error "message was not acknowledged by the receiver" StatusUnprocessableEntity.

(** The not-before claim is there, is a number other than 0, and is not
    after [now]. *)
Definition nbf_in_the_past (claims : gmap string jwt.value) (now : Z) : Prop :=
  exists nbf, claims !! "nbf" = Some (jwt.VNumber nbf) /\ nbf <> 0 /\ nbf <= now.

Section ReceiveVocabulary.
Variable jwt_decode : string -> error + jwt.Token.
Variable jwt_Verify : jwt.SigningMethod -> string -> string -> string -> option error.

(** The checks of [verify] that come before the body hash. *)
Definition other_checks_pass (tokenString signingKey : string) (now : Z) : bool :=
  match jwt.Parse jwt_decode jwt_Verify tokenString (keyFunc signingKey) now with
  | inr token =>
      jwt.Valid token
      && jwt.VerifyIssuer (jwt.Claims token) "Upstash" true
      && jwt.VerifyExpiresAt (jwt.Claims token) now true
      && jwt.VerifyNotBefore (jwt.Claims token) now true
  | inl _ => false
  end.

(** The claims of a token, when it can be decoded. *)
Definition claims_of (tokenString : string) : gmap string jwt.value :=
  match jwt_decode tokenString with
  | inr token => jwt.Claims token
  | inl _ => ∅
  end.

End ReceiveVocabulary.

(** ** Identifiers *)

Definition is_byte (b : Z) : Prop := 0 <= b < 256.

(** The buffer of [NewV4] after the version and the variant were written
    into bytes 6 and 8. *)
Definition stamped (uuid : list Z) : list Z :=
  alter (fun b => Z.lor (Z.land b 63) 128) 8%nat
    (alter (fun b => Z.lor (Z.land b 15) 64) 6%nat uuid).

(** The value of a digit of [big.digits]; 62 for any other byte. *)
Definition digit_value (c : ascii) : Z :=
  (fix find (l : list ascii) (i : Z) : Z :=
     match l with
     | [] => i
     | d :: l' => if Ascii.eqb c d then i else find l' (i + 1)
     end) (list_ascii_of_string big.digits) 0.

(** Reading a string of digits as a number in a base, most significant
    digit first, starting from [v]. *)
Fixpoint from_digits (base : Z) (s : string) (v : Z) : Z :=
  match s with
  | EmptyString => v
  | String c s' => from_digits base s' (v * base + digit_value c)
  end.

(** A letter of the English alphabet or a decimal digit. *)
Definition is_alnum (c : ascii) : bool := is_digit c || is_lower c || is_upper c.

(** ** Constructors *)

(** The constraints [PublisherOptions.apply] checks. *)
Definition valid_publisher_options (o : PublisherOptions.t) : Prop :=
  let c := PublisherOptions.Client o in
  PublisherOptions.QStashToken o <> EmptyString
  /\ PublisherOptions.QStashURL o <> EmptyString
  /\ PublisherOptions.topic o <> EmptyString
  /\ Millisecond <= PublisherOptions.Timeout c
  /\ 0 <= PublisherOptions.Retries c
  /\ Millisecond <= PublisherOptions.MinBackOff c <= PublisherOptions.MaxBackOff c.

(** The messages of the two errors of [NewReceiver]. *)
Definition ErrNoSigningKey : error :=
  "receiver is missing config: 'QSTASH_SIGNING_KEY' is required".
Definition ErrNoNextSigningKey : error :=
  "receiver is missing config: 'QSTASH_NEXT_SIGNING_KEY' is required".

(** What [NewReceiver] returns when [k] and [k'] are the keys the options
    end up with. *)
Definition receiver_with (k k' : string) : error + Receiver :=
  if String.eqb k EmptyString then inl ErrNoSigningKey
  else if String.eqb k' EmptyString then inl ErrNoNextSigningKey
  else inr (mkReceiver k k').

Section ConstructorVocabulary.
Variable Getenv : string -> string.
Variable http_Client : Z -> RoundTripper.
Variable rand_Reader : nat -> error + list Z.

(** The options [NewPublisher topic opts] works with. *)
Definition publisher_options (topic : string) (opts : list PublisherOption)
    : PublisherOptions.t :=
  fst (PublisherOptions_apply Getenv PublisherOptions.zero (opts ++ [withTopic topic])).

(** The publisher [NewPublisher] makes of valid options. *)
Definition publisher_of (fuel : nat) (os : PublisherOptions.t) : Publisher.t :=
  Publisher.mk (PublisherOptions.QStashToken os) (PublisherOptions.QStashURL os)
    (PublisherOptions.topic os)
    (httpClient_Do fuel (httpClient_of http_Client os))
    (fun n => uuid.NewV4 (rand_Reader n))
    (PublisherOptions.Verbose os).

End ConstructorVocabulary.

(** ** The receiver, as a whole *)

(** The claims [verify] accepts for a body at a time: the issuer is
    Upstash; the expiry is a number other than 0 and not before [now]; the
    not-before claim is in the past; the issued-at claim, if there is one,
    is 0 or not after [now]; the body claim is the digest of the body. *)
Definition acceptable_claims (claims : gmap string jwt.value) (body : string) (now : Z)
    : Prop :=
  claims !! "iss" = Some (jwt.VString "Upstash")
  /\ (exists exp, claims !! "exp" = Some (jwt.VNumber exp) /\ exp <> 0 /\ now <= exp)
  /\ nbf_in_the_past claims now
  /\ (claims !! "iat" = None
      \/ exists iat, claims !! "iat" = Some (jwt.VNumber iat) /\ (iat = 0 \/ iat <= now))
  /\ claims !! "body" = Some (jwt.VString (digest body)).

(** * Test doubles and worked instances *)
(** The doubles of [publisher_test.go], and stand-ins for the library
    functions the Sections take as parameters, defined on the inputs the
    instances below use. *)
Definition dq : string := String (ascii_of_byte 34) EmptyString.

(** The body the mock client of the tests answers with. *)
Definition mockBody : string :=
  "{ " +:+ dq +:+ "messageId" +:+ dq +:+ ":" +:+ dq +:+ "mock-id" +:+ dq +:+ " }".

Definition mockClient : Client := fun _ σ =>
  Ret ((Some (mkResponse 200 (mkReadCloser mockBody None)), None), σ).

Definition mockUUID : nat -> string * option error := fun _ => ("uuid", None).

Definition testPublisher : Publisher.t :=
  Publisher.mk "token" "url" "topic" mockClient mockUUID false.

(** [http.NewRequest] accepts the URL of the tests. *)
Definition test_NewRequest_error (method url : string) : option error := None.

Definition test_Duration_String (d : Z) : string :=
  if d =? Second then "1s" else Itoa d +:+ "ns".

Definition test_json_Decode (b : ReadCloser) : error + string :=
  if String.eqb (content b) mockBody then inr "mock-id"
  else inl "invalid character".

Definition testPublish := Publish test_NewRequest_error test_Duration_String test_json_Decode.

(** A caller's header map at address 0. *)
Definition world_with (h : gmap string (list string)) : World :=
  mkWorld [h] [] [] [] 0%nat [].

Definition badHeaders : gmap string (list string) := {[ "key" := ["value"] ]}.
Definition forwardHeaders : gmap string (list string) :=
  {[ "Upstash-Forward-Key" := ["value"] ]}.

(** Stand-ins for the JWT library: a symbolic signature, and three tokens
    for the body [hello], valid from 1000 to 2000. *)
Definition test_sign (key signingString : string) : string :=
  "hmac(" +:+ key +:+ "," +:+ signingString +:+ ")".

Definition test_Verify (method : jwt.SigningMethod) (signingString signature key : string)
    : option error :=
  match method with
  | jwt.SigningMethodHMAC _ =>
      if String.eqb signature (test_sign key signingString) then None
      else Some "signature is invalid"
  | jwt.SigningMethodOther _ => Some "key is of invalid type"
  end.

Definition test_claims (body : string) (nbf : option Z) : gmap string jwt.value :=
  let claims : gmap string jwt.value :=
    <["iss" := jwt.VString "Upstash"]>
      (<["exp" := jwt.VNumber 2000]>
         (<["body" := jwt.VString (digest body)]> ∅)) in
  match nbf with
  | Some n => <["nbf" := jwt.VNumber n]> claims
  | None => claims
  end.

Definition test_token (key body : string) (nbf : option Z) : jwt.Token :=
  jwt.mkToken (jwt.SigningMethodHMAC "HS256") (test_claims body nbf)
    "header.claims" (test_sign key "header.claims") false.

Definition test_decode (tokenString : string) : error + jwt.Token :=
  if String.eqb tokenString "signed-with-current"
  then inr (test_token "current-key" "hello" (Some 1000))
  else if String.eqb tokenString "signed-with-next"
  then inr (test_token "next-key" "hello" (Some 1000))
  else if String.eqb tokenString "signed-with-current-no-nbf"
  then inr (test_token "current-key" "hello" None)
  else inl "token contains an invalid number of segments".

Definition test_verify := verify test_decode test_Verify.
Definition test_Receive := Receive test_decode test_Verify.

Definition testReceiver : Receiver := mkReceiver "current-key" "next-key".

(** An inbound request with body [hello] and the given token, its header
    map at address 0. *)
Definition inbound_header (tokenString : string) : gmap string (list string) :=
  <["Upstash-Signature" := [tokenString]]> (<["Upstash-Message-Id" := ["msg-1"]]> ∅).
Definition inbound : ServerRequest := mkServerRequest 0%nat (mkReadCloser "hello" None).

(** A wrapped client on which every attempt fails. *)
Definition failingRoundTripper : RoundTripper :=
  fun _ _ => (None, Some "connection refused").

Definition someRequest : Request := mkRequest "POST" "url/topic" 0%nat "message".

(** A wrapped client that fails twice and then answers 200. *)
Definition flakyRoundTripper : RoundTripper := fun n _ =>
  if (n <? 2)%nat then (None, Some "connection refused")
  else (Some (mkResponse 200 (mkReadCloser mockBody None)), None).

(** The callback [m.Ack(); *m = qstash.Message{}]: it acknowledges the
    message and then overwrites the struct with the zero value. *)
Definition ackThenOverwrite : Callback := fun m σ =>
  match Ack m σ with
  | Ret (_, σ') => Ret (mkMessage EmptyString None EmptyString 0 None false, σ')
  | Panic => Panic
  | OutOfFuel => OutOfFuel
  end.

(** [http.NewRequest] on a URL with the bad escape [%zz]: [url.Parse]
    rejects it. *)
Definition badEscape : error :=
  "parse " +:+ dq +:+ "url/%zz" +:+ dq +:+ ": invalid URL escape " +:+ dq +:+ "%zz" +:+ dq.
Definition strict_NewRequest_error (method url : string) : option error :=
  if String.eqb url "url/%zz" then Some badEscape else None.

(** A token of an algorithm that is not an HMAC. *)
Definition test_decode_rsa (tokenString : string) : error + jwt.Token :=
  inr (jwt.mkToken (jwt.SigningMethodOther "RS256") (test_claims "hello" (Some 1000))
         "header.claims" "signature" false).

(** A message as a caller makes it: a body and nothing else. *)
Definition plainMessage : Message := mkMessage EmptyString None "message" 0 None false.

(** The generator on a reader that has run dry. *)
Definition failingUUID : nat -> string * option error :=
  fun _ => uuid.NewV4 (inl "unexpected EOF").

(** The publisher of the tests on the retrying transport with the default
    policy, around a given wrapped client. *)
Definition retryingPublisher (rt : RoundTripper) : Publisher.t :=
  Publisher.mk "token" "url" "topic" (httpClient_Do 8 (defaultClient rt)) mockUUID false.

(** An environment that holds a token and no signing keys, a network on
    which nothing answers, and a reader that delivers the bytes 0 to 15. *)
Definition test_Getenv (name : string) : string :=
  if String.eqb name "QSTASH_TOKEN" then "token" else EmptyString.
Definition test_http_Client (timeout : Z) : RoundTripper := failingRoundTripper.
Definition countingBytes : list Z := map Z.of_nat (seq 0 16).
Definition test_rand_Reader (n : nat) : error + list Z := inr countingBytes.

Definition test_NewPublisher := NewPublisher test_Getenv test_http_Client test_rand_Reader.

(** * Properties *)

(** ** Machine integers *)

Lemma int64_wrap_small (z : Z) : - 2 ^ 63 <= z < 2 ^ 63 -> int64_wrap z = z.
Proof.
  intros Hz. unfold int64_wrap.
  rewrite Z.mod_small by lia. lia.
Qed.

(** ** The backoff schedule *)

(** Without overflow the loop computes [min (exp * 2^n) max]. *)
Lemma backOffLoop_closed (n : nat) : forall exp max : Z,
  0 < exp <= max -> max < 2 ^ 62 ->
  backOffLoop n exp max = Z.min (exp * 2 ^ Z.of_nat n) max.
Proof.
  induction n as [|n IH]; intros exp max Hexp Hmax.
  - simpl. rewrite Z.mul_1_r. lia.
  - cbn [backOffLoop].
    rewrite int64_wrap_small by lia.
    assert (Hpow : 2 ^ Z.of_nat (S n) = 2 * 2 ^ Z.of_nat n)
      by (rewrite Nat2Z.inj_succ, Z.pow_succ_r; lia).
    assert (Hpos : 1 <= 2 ^ Z.of_nat n) by (apply (Z.pow_le_mono_r 2 0); lia).
    rewrite Hpow.
    destruct (exp * 2 >? max) eqn:Hgt.
    + apply Z.gtb_lt in Hgt. nia.
    + assert (exp * 2 <= max) by (rewrite Z.gtb_ltb in Hgt; apply Z.ltb_ge in Hgt; lia).
      rewrite IH by lia. f_equal. lia.
Qed.

Lemma backOff_closed (c : httpClient) (i : Z) :
  sane_policy c -> 0 <= i ->
  getExponentialBackOffDuration c i = Z.min (MinBackOff c * 2 ^ i) (MaxBackOff c).
Proof.
  intros [Hmin Hmax] Hi. unfold getExponentialBackOffDuration.
  rewrite backOffLoop_closed by assumption.
  rewrite Z2Nat.id by assumption. reflexivity.
Qed.

Lemma backOff_mono (c : httpClient) (i j : Z) :
  sane_policy c -> 0 <= i <= j ->
  getExponentialBackOffDuration c i <= getExponentialBackOffDuration c j.
Proof.
  intros Hc Hij. rewrite !backOff_closed by (assumption || lia).
  destruct Hc as [Hmin Hmax].
  assert (2 ^ i <= 2 ^ j) by (apply Z.pow_le_mono_r; lia).
  apply Z.min_le_compat_r. nia.
Qed.

(** The bound on [MaxBackOff] is needed: at [2^62] the doubling wraps
    around and the delay comes out negative. *)
Lemma backOff_overflows_at_2_62 :
  getExponentialBackOffDuration (mkHttpClient (fun _ _ => (None, None)) (2 ^ 62) (2 ^ 62) 5) 1
  = - 2 ^ 63.
Proof. reflexivity. Qed.

(** ** The retry loop *)

Lemma after_failures_0 c req i σ : after_failures c req i 0 σ = σ.
Proof. destruct σ. unfold after_failures. simpl. rewrite !app_nil_r. reflexivity. Qed.

Lemma after_failures_S c req i k σ :
  after_failures c req (i + 1) k
    (time_Sleep (getExponentialBackOffDuration c i) (log_send req σ))
  = after_failures c req i (S k) σ.
Proof.
  unfold after_failures, time_Sleep, log_send. simpl.
  rewrite <- !app_assoc. simpl. rewrite Z.add_0_r.
  do 2 f_equal. f_equal.
  rewrite <- seq_shift, List.map_map.
  apply List.map_ext. intros j. f_equal. lia.
Qed.

Lemma DoLoop_all_fail (c : httpClient) (req : Request) (k : nat) :
  forall (fuel : nat) (i : Z) (last : DoResult) (σ : World),
    (forall n, send_fails (client c n req)) ->
    int64_wrap (Retries c + 1) < maxInt64 ->
    1 <= i ->
    i + Z.of_nat k = int64_wrap (Retries c + 1) + 1 ->
    (k < fuel)%nat ->
    DoLoop fuel c req i last σ
    = Ret (match k with
           | O => last
           | S k' => client c (length (sends σ) + k')%nat req
           end,
           after_failures c req i k σ).
Proof.
  induction k as [|k IH]; intros fuel i last σ Hfail Hb H1 Hi Hfuel.
  - destruct fuel as [|fuel]; [lia|]. cbn [DoLoop].
    replace (i <=? int64_wrap (Retries c + 1)) with false
      by (symmetry; apply Z.leb_gt; lia).
    rewrite after_failures_0. reflexivity.
  - destruct fuel as [|fuel]; [lia|]. cbn [DoLoop].
    replace (i <=? int64_wrap (Retries c + 1)) with true
      by (symmetry; apply Z.leb_le; lia).
    assert (Hw : int64_wrap (i + 1) = i + 1).
    { apply int64_wrap_small. unfold maxInt64 in Hb. lia. }
    rewrite Hw.
    assert (Hnext : forall r,
      DoLoop fuel c req (i + 1) r
        (time_Sleep (getExponentialBackOffDuration c i) (log_send req σ))
      = Ret (match k with
             | O => r
             | S k' => client c (length (sends σ) + S k')%nat req
             end,
             after_failures c req i (S k) σ)).
    { intros r. rewrite IH by (assumption || lia).
      rewrite after_failures_S. do 2 f_equal.
      destruct k as [|k']; [reflexivity|].
      simpl. rewrite length_app. simpl. f_equal. lia. }
    specialize (Hfail (length (sends σ))).
    destruct (client c (length (sends σ)) req) as [[resp|] [err|]] eqn:Hr;
      simpl in Hfail.
    + rewrite Hnext. destruct k; [rewrite Nat.add_0_r, Hr|]; reflexivity.
    + rewrite Hfail. simpl. rewrite Hnext.
      destruct k; [rewrite Nat.add_0_r, Hr|]; reflexivity.
    + rewrite Hnext. destruct k; [rewrite Nat.add_0_r, Hr|]; reflexivity.
    + contradiction.
Qed.

Lemma DoLoop_keeps_heap (fuel : nat) (c : httpClient) (req : Request) :
  forall (i : Z) (last : DoResult) (σ : World) (res : DoResult) (σ' : World),
    DoLoop fuel c req i last σ = Ret (res, σ') ->
    heap σ' = heap σ /\ clientCalls σ' = clientCalls σ.
Proof.
  induction fuel as [|fuel IH]; intros i last σ res σ'; [discriminate|].
  cbn [DoLoop]. destruct (i <=? _); [|by intros [= _ <-]].
  destruct (client c _ req) as [[resp|] [err|]].
  - intros H. by apply IH in H.
  - destruct (negb _); [intros H; by apply IH in H | by intros [= _ <-]].
  - intros H. by apply IH in H.
  - discriminate.
Qed.

(** The retrying transport is a client that leaves header maps alone. *)
Lemma httpClient_Do_keeps_heap (fuel : nat) (c : httpClient) :
  client_keeps_heap (httpClient_Do fuel c).
Proof.
  intros r σ res σ' H. unfold httpClient_Do in H.
  by apply DoLoop_keeps_heap in H as [? _].
Qed.

(** C5 (as amended).  For a retry count from 0 to [maxInt64 - 2] (beyond which
    [Retries + 1] or the loop counter wraps around): when every attempt
    fails, with an error or with a status outside 200..299, [Do] calls the
    wrapped client exactly [Retries + 1] times, sleeps after each, and
    hands back the response and the error of the last call as they are. *)
Theorem C5_Do_exhausts_retries (c : httpClient) (req : Request) (σ : World) (fuel : nat) :
  0 <= Retries c <= maxInt64 - 2 ->
  (forall n, send_fails (client c n req)) ->
  (Z.to_nat (Retries c) + 1 < fuel)%nat ->
  exists σ' : World,
    httpClient_Do fuel c req σ
    = Ret (client c (length (sends σ) + Z.to_nat (Retries c))%nat req, σ')
    /\ sends σ' = sends σ ++ repeat req (Z.to_nat (Retries c + 1))
    /\ length (sends σ') = (length (sends σ) + Z.to_nat (Retries c + 1))%nat
    /\ slept σ' = slept σ ++
         map (fun j => getExponentialBackOffDuration c (1 + Z.of_nat j))
             (seq 0 (Z.to_nat (Retries c + 1))).
Proof.
  intros HR Hfail Hfuel. unfold maxInt64 in HR.
  assert (Hw : int64_wrap (Retries c + 1) = Retries c + 1)
    by (apply int64_wrap_small; lia).
  exists (after_failures c req 1 (Z.to_nat (Retries c + 1)) σ).
  unfold httpClient_Do.
  rewrite (DoLoop_all_fail c req (Z.to_nat (Retries c + 1)));
    try assumption; try (unfold maxInt64; lia).
  replace (Z.to_nat (Retries c + 1)) with (S (Z.to_nat (Retries c))) by lia.
  repeat split.
  unfold after_failures; cbn [sends].
  rewrite length_app, repeat_length. reflexivity.
Qed.

(** C2 (as amended).  For a policy with [0 < MinBackOff <= MaxBackOff] and
    [MaxBackOff < 2^62] (so that doubling cannot overflow) and an attempt
    number [i >= 1]: the delay before retry [i] is [MinBackOff] doubled [i]
    times, once for every attempt made so far, and clamped at
    [MaxBackOff]; the first delay is [min (2 * MinBackOff) MaxBackOff]; the
    delay lies between [MinBackOff] and [MaxBackOff]; the schedule does not
    decrease with [i]; and it is a function of the attempt number and the
    two bounds alone. *)
Theorem C2_backoff_schedule (c : httpClient) (i : Z) :
  0 < MinBackOff c <= MaxBackOff c -> MaxBackOff c < 2 ^ 62 -> 1 <= i ->
  getExponentialBackOffDuration c i = Z.min (MinBackOff c * 2 ^ i) (MaxBackOff c)
  /\ getExponentialBackOffDuration c 1 = Z.min (2 * MinBackOff c) (MaxBackOff c)
  /\ MinBackOff c <= getExponentialBackOffDuration c i <= MaxBackOff c
  /\ (forall j, i <= j ->
        getExponentialBackOffDuration c i <= getExponentialBackOffDuration c j)
  /\ (forall c' : httpClient,
        MinBackOff c' = MinBackOff c -> MaxBackOff c' = MaxBackOff c ->
        getExponentialBackOffDuration c' i = getExponentialBackOffDuration c i).
Proof.
  intros Hmin Hmax Hi.
  assert (Hc : sane_policy c) by (split; assumption).
  assert (Hpow : 1 <= 2 ^ i) by (apply (Z.pow_le_mono_r 2 0); lia).
  repeat split.
  - apply backOff_closed; [assumption | lia].
  - rewrite backOff_closed by (assumption || lia). f_equal. lia.
  - rewrite backOff_closed by (assumption || lia). apply Z.min_glb; nia.
  - rewrite backOff_closed by (assumption || lia). apply Z.le_min_r.
  - intros j Hj. apply backOff_mono; [assumption | lia].
  - intros c' E1 E2. unfold getExponentialBackOffDuration. rewrite E1, E2. reflexivity.
Qed.

(** ** Header maps *)

Lemma heap_Set_lookup l k v σ :
  heap (heap_Set l k v σ) !! l = Header_Set k v <$> heap σ !! l.
Proof. unfold heap_Set, set_heap. cbn [heap]. apply list_lookup_alter_eq. Qed.

Lemma heap_Set_lookup_ne l l' k v σ :
  l <> l' -> heap (heap_Set l k v σ) !! l' = heap σ !! l'.
Proof. intros. unfold heap_Set, set_heap. cbn [heap]. by apply list_lookup_alter_ne. Qed.

Lemma header_keys_spec (h : gmap string (list string)) (k : string) :
  k ∈ header_keys h <-> is_Some (h !! k).
Proof.
  unfold header_keys. rewrite list_elem_of_fmap. split.
  - intros [[k' v] [-> Hin]]. apply elem_of_map_to_list in Hin. by exists v.
  - intros [v Hv]. exists (k, v). split; [done|]. by apply elem_of_map_to_list.
Qed.

Lemma forallb_header_keys (h : gmap string (list string)) :
  forallb hasForwardPrefix (header_keys h) = true
  <-> (forall k, is_Some (h !! k) -> hasForwardPrefix k = true).
Proof.
  rewrite forallb_forall. split.
  - intros H k Hk. apply H, list_elem_of_In, header_keys_spec, Hk.
  - intros H k Hk. apply H, header_keys_spec, list_elem_of_In, Hk.
Qed.

Lemma forallb_header_keys_false (h : gmap string (list string)) :
  forallb hasForwardPrefix (header_keys h) = false
  <-> (exists k, is_Some (h !! k) /\ hasForwardPrefix k = false).
Proof.
  split.
  - intros H.
    assert (Hex : existsb (fun k => negb (hasForwardPrefix k)) (header_keys h) = true).
    { induction (header_keys h) as [|k ks IH]; [discriminate|].
      simpl in *. destruct (hasForwardPrefix k); simpl in *; auto. }
    apply existsb_exists in Hex as [k [Hin Hk]].
    exists k. split; [by apply header_keys_spec, list_elem_of_In|].
    by destruct (hasForwardPrefix k).
  - intros [k [Hk Hf]].
    destruct (forallb hasForwardPrefix (header_keys h)) eqn:E; [|done].
    rewrite forallb_header_keys in E. rewrite (E k Hk) in Hf. discriminate.
Qed.

Lemma Header_Set_lookup key v (h : gmap string (list string)) k :
  Header_Set key v h !! k
  = if decide (CanonicalMIMEHeaderKey key = k) then Some [v] else h !! k.
Proof. unfold Header_Set. apply lookup_insert. Qed.

Lemma Header_Set_lookup_other key v (h : gmap string (list string)) k :
  CanonicalMIMEHeaderKey key <> k -> Header_Set key v h !! k = h !! k.
Proof. intros. rewrite Header_Set_lookup. by case_decide. Qed.

(** ** The publisher *)

Lemma forwarded_not_written (k : string) :
  hasForwardPrefix k = true -> k ∉ written_keys.
Proof.
  intros Hk Hin. unfold written_keys, standard_keys, dedup_keys in Hin.
  cbn [app] in Hin.
  repeat (apply elem_of_cons in Hin as [-> | Hin]; [vm_compute in Hk; discriminate|]).
  by apply elem_of_nil in Hin.
Qed.

Lemma same_header_not_forwarded (k name : string) :
  same_header k name -> hasForwardPrefix name = false -> hasForwardPrefix k = false.
Proof. unfold same_header, hasForwardPrefix. by intros ->. Qed.

Lemma not_forwarded_absent (h : gmap string (list string)) (k : string) :
  all_forwarded h -> hasForwardPrefix k = false -> h !! k = None.
Proof.
  intros Hall Hk. destruct (h !! k) eqn:E; [|done].
  rewrite (Hall k) in Hk by (by rewrite E). discriminate.
Qed.

(** A key that names a deduplication header is none of the standard keys. *)
Lemma dedup_name_not_standard (k name : string) :
  same_header k name ->
  name = "Upstash-Deduplication-ID" \/ name = "Upstash-Content-Based-Deduplication" ->
  k ∉ standard_keys.
Proof.
  unfold same_header. intros Hk Hname Hin. unfold standard_keys in Hin.
  repeat (apply elem_of_cons in Hin as [-> | Hin];
          [destruct Hname as [-> | ->]; vm_compute in Hk; discriminate|]).
  by apply elem_of_nil in Hin.
Qed.

Section PublishFacts.
Variable NewRequest_error : string -> string -> option error.
Variable Duration_String : Z -> string.
Variable json_Decode_messageId : ReadCloser -> error + string.

Local Abbreviation Publish_build := (Publish_build NewRequest_error Duration_String).
Local Abbreviation Publish := (Publish NewRequest_error Duration_String json_Decode_messageId).
Local Abbreviation Publish_headers := (Publish_headers Duration_String).
Local Abbreviation Publish_send := (Publish_send json_Decode_messageId).
Local Abbreviation headers_written := (headers_written Duration_String).
Local Abbreviation early_error := (early_error NewRequest_error).
Local Abbreviation standard_headers := (standard_headers Duration_String).

Lemma headers_written_other q os (h : gmap string (list string)) k :
  k ∉ standard_keys ->
  headers_written q os h !! k = h !! k.
Proof.
  intros Hk. unfold headers_written.
  assert (forall key, key ∈ standard_keys -> key <> k) as Hne
    by (intros key Hin ->; contradiction).
  repeat match goal with
  | |- context [if ?b then _ else _] => destruct b
  end;
  rewrite ?Header_Set_lookup_other; try done;
    apply Hne; unfold standard_keys; vm_compute CanonicalMIMEHeaderKey;
    set_solver.
Qed.

Lemma dedup_written_other q m os σ (h : gmap string (list string)) k :
  k ∉ dedup_keys ->
  dedup_written q m os σ h !! k = h !! k.
Proof.
  intros Hk. unfold dedup_written.
  destruct (PublishOptions.ContentBasedDeduplication os);
    rewrite Header_Set_lookup_other; try done;
    intros <-; apply Hk; vm_compute CanonicalMIMEHeaderKey;
    unfold dedup_keys; set_solver.
Qed.

Lemma built_header_forwarded q m os σ (h : gmap string (list string)) k v :
  all_forwarded h -> h !! k = Some v ->
  headers_written q os (dedup_written q m os σ h) !! k = Some v.
Proof.
  intros Hall Hk.
  assert (Hnot : k ∉ written_keys)
    by (apply forwarded_not_written, Hall; by rewrite Hk).
  unfold written_keys in Hnot. apply not_elem_of_app in Hnot as [Hs Hd].
  rewrite headers_written_other by exact Hs.
  rewrite dedup_written_other by exact Hd. exact Hk.
Qed.

Lemma built_header_dedup q m os σ (h : gmap string (list string)) :
  all_forwarded h ->
  one_dedup_header (PublishOptions.ContentBasedDeduplication os) (dedup_id q m σ)
    (headers_written q os (dedup_written q m os σ h)).
Proof.
  intros Hall. unfold one_dedup_header, dedup_written.
  destruct (PublishOptions.ContentBasedDeduplication os); split; intros k Hk.
  all: rewrite headers_written_other by (eapply dedup_name_not_standard; eauto).
  all: rewrite Header_Set_lookup.
  all: assert (Hnone : h !! k = None)
         by (apply not_forwarded_absent; [done|];
             eapply same_header_not_forwarded; [exact Hk | reflexivity]).
  all: rewrite Hnone.
  all: vm_compute CanonicalMIMEHeaderKey.
  - case_decide as E; [subst k; reflexivity|].
    destruct (String.eqb_spec k "Upstash-Content-Based-Deduplication"); congruence.
  - case_decide as E; [|done]. subst k. vm_compute in Hk. discriminate.
  - case_decide as E; [subst k; reflexivity|].
    destruct (String.eqb_spec k "Upstash-Deduplication-Id"); congruence.
  - case_decide as E; [|done]. subst k. vm_compute in Hk. discriminate.
Qed.
Lemma Publish_headers_lookup q os r σ :
  heap (Publish_headers q os r σ) !! Header r
  = headers_written q os <$> heap σ !! Header r.
Proof.
  unfold Publish_headers, headers_written.
  repeat match goal with
  | |- context [if ?b then _ else _] => destruct b
  end;
  rewrite ?heap_Set_lookup, <- ?option_fmap_compose; reflexivity.
Qed.

Lemma Publish_headers_frame q os r σ :
  clientCalls (Publish_headers q os r σ) = clientCalls σ
  /\ sends (Publish_headers q os r σ) = sends σ
  /\ uuids (Publish_headers q os r σ) = uuids σ.
Proof.
  unfold Publish_headers.
  repeat match goal with
  | |- context [if ?b then _ else _] => destruct b
  end; repeat split.
Qed.

Lemma Publish_dedup_None q m os r σ σ' :
  Publish_dedup q m os r σ = (None, σ') ->
  dedup_conflict m os = false
  /\ heap σ' !! Header r = dedup_written q m os σ <$> heap σ !! Header r
  /\ clientCalls σ' = clientCalls σ /\ sends σ' = sends σ
  /\ (forall l, l <> Header r -> heap σ' !! l = heap σ !! l).
Proof.
  unfold Publish_dedup, dedup_conflict, dedup_written, dedup_id, hasID.
  destruct (0 <? String.length (ID m))%nat eqn:Hid;
    destruct (PublishOptions.ContentBasedDeduplication os) eqn:Hcbd; cbn [andb].
  - discriminate.
  - intros [= <-]. rewrite heap_Set_lookup.
    repeat split; intros; by rewrite ?heap_Set_lookup_ne.
  - intros [= <-]. rewrite heap_Set_lookup.
    repeat split; intros; by rewrite ?heap_Set_lookup_ne.
  - destruct (Publisher.uuid q (uuids σ)) as [id [e|]]; [discriminate|].
    intros [= <-]. rewrite heap_Set_lookup.
    repeat split; intros; by rewrite ?heap_Set_lookup_ne.
Qed.

Lemma Publish_dedup_Some q m os r σ e σ' :
  Publish_dedup q m os r σ = (Some e, σ') ->
  heap σ' = heap σ /\ clientCalls σ' = clientCalls σ /\ sends σ' = sends σ
  /\ ((dedup_conflict m os = true /\ e = ErrDedupConflict)
      \/ (dedup_conflict m os = false
          /\ exists e', snd (Publisher.uuid q (uuids σ)) = Some e'
                        /\ e = "could not generate uuid " +:+ e')).
Proof.
  unfold Publish_dedup, dedup_conflict, hasID.
  destruct (0 <? String.length (ID m))%nat eqn:Hid;
    destruct (PublishOptions.ContentBasedDeduplication os) eqn:Hcbd; cbn [andb];
    try discriminate.
  - intros [= <- <-]. repeat split. by left.
  - destruct (Publisher.uuid q (uuids σ)) as [id [e'|]]; [|discriminate].
    intros [= <- <-]. repeat split. right. split; [done|]. by exists e'.
Qed.

Lemma Publish_dedup_ok q m os r σ :
  dedup_conflict m os = false ->
  (PublishOptions.ContentBasedDeduplication os = false -> hasID m = false ->
     snd (Publisher.uuid q (uuids σ)) = None) ->
  exists σ', Publish_dedup q m os r σ = (None, σ').
Proof.
  unfold Publish_dedup, dedup_conflict, hasID.
  destruct (0 <? String.length (ID m))%nat eqn:Hid;
    destruct (PublishOptions.ContentBasedDeduplication os) eqn:Hcbd; cbn [andb];
    try discriminate; intros _ Hu; eauto.
  specialize (Hu eq_refl eq_refl).
  destruct (Publisher.uuid q (uuids σ)) as [id [e'|]]; [discriminate|]. eauto.
Qed.

Lemma after_NewRequest_lookup σ m :
  wf_message σ m ->
  heap (after_NewRequest σ) !! request_loc σ m = Some (caller_headers σ m).
Proof.
  intros Hwf. unfold after_NewRequest, request_loc, caller_headers. cbn [heap set_heap].
  destruct (Headers m) as [l|] eqn:Hm.
  - destruct (Hwf l Hm) as [h Hh].
    rewrite lookup_app_l by (by eapply lookup_lt_Some). by rewrite Hh.
  - by rewrite list_lookup_middle.
Qed.

Lemma Publish_build_eq q m opts σ :
  wf_message σ m ->
  Publish_build q m opts σ =
  match NewRequest_error "POST" (Publisher.url q +:+ "/" +:+ Publisher.topic q) with
  | Some e => Ret (inl ("could not create request " +:+ e, σ))
  | None =>
      if headers_valid σ m then
        match Publish_dedup q m (options_of opts) (built_request q m σ) (after_NewRequest σ) with
        | (Some err, σ1) => Ret (inl (err, σ1))
        | (None, σ1) =>
            Ret (inr (built_request q m σ,
                      Publish_headers q (options_of opts) (built_request q m σ) σ1))
        end
      else Ret (inl (ErrHeaderPrefix, after_NewRequest σ))
  end.
Proof.
  intros Hwf. unfold Publish_build, http_NewRequest, options_of, PublishOptions_apply.
  cbn [fst].
  destruct (NewRequest_error _ _); [reflexivity|].
  unfold Publish_validate, headers_valid, caller_headers, built_request, request_loc,
    after_NewRequest.
  destruct (Headers m) as [l|] eqn:Hm.
  - destruct (Hwf l Hm) as [h Hh].
    assert (Hl : (heap σ ++ [∅]) !! l = Some h)
      by (rewrite lookup_app_l; [done | by eapply lookup_lt_Some]).
    cbn [heap set_heap]. rewrite Hl, Hh. cbn [default from_option id].
    destruct (forallb hasForwardPrefix (header_keys h)); reflexivity.
  - unfold header_keys. rewrite map_to_list_empty. reflexivity.
Qed.

Lemma Publish_build_inr q m opts σ r σ1 :
  wf_message σ m ->
  Publish_build q m opts σ = Ret (inr (r, σ1)) ->
  NewRequest_error "POST" (Publisher.url q +:+ "/" +:+ Publisher.topic q) = None
  /\ headers_valid σ m = true
  /\ dedup_conflict m (options_of opts) = false
  /\ r = built_request q m σ
  /\ heap σ1 !! Header r
     = Some (headers_written q (options_of opts)
               (dedup_written q m (options_of opts) σ (caller_headers σ m)))
  /\ clientCalls σ1 = clientCalls σ /\ sends σ1 = sends σ.
Proof.
  intros Hwf. rewrite Publish_build_eq by assumption.
  destruct (NewRequest_error _ _); [discriminate|].
  destruct (headers_valid σ m); [|discriminate].
  destruct (Publish_dedup _ _ _ _ _) as [[e|] σ0] eqn:Hd; [discriminate|].
  intros [= <- <-].
  apply Publish_dedup_None in Hd as (Hc & Hh & Hcc & Hs & _).
  destruct (Publish_headers_frame q (options_of opts) (built_request q m σ) σ0)
    as (Fc & Fs & _).
  repeat split; try done.
  - rewrite Publish_headers_lookup, Hh.
    cbn [built_request Header]. by rewrite after_NewRequest_lookup.
  - by rewrite Fc, Hcc.
  - by rewrite Fs, Hs.
Qed.

Lemma Publish_build_inl q m opts σ e σ' :
  wf_message σ m ->
  Publish_build q m opts σ = Ret (inl (e, σ')) ->
  early_error q m opts σ e
  /\ clientCalls σ' = clientCalls σ /\ sends σ' = sends σ
  /\ (forall l, (l < length (heap σ))%nat -> heap σ' !! l = heap σ !! l).
Proof.
  intros Hwf. rewrite Publish_build_eq by assumption. unfold early_error.
  destruct (NewRequest_error _ _).
  { intros [= <- <-]. done. }
  destruct (headers_valid σ m).
  - destruct (Publish_dedup _ _ _ _ _) as [[e0|] σ0] eqn:Hd; [|discriminate].
    intros [= <- <-].
    apply Publish_dedup_Some in Hd as (Hh & Hc & Hs & Hcase).
    repeat split; try done.
    + destruct Hcase as [[-> ->]|[-> He]]; done.
    + intros l Hl. rewrite Hh. unfold after_NewRequest. cbn [heap set_heap].
      by rewrite lookup_app_l.
  - intros [= <- <-]. repeat split; try done.
    intros l Hl. unfold after_NewRequest. cbn [heap set_heap]. by rewrite lookup_app_l.
Qed.

Lemma Publish_build_returns q m opts σ :
  wf_message σ m -> exists x, Publish_build q m opts σ = Ret x.
Proof.
  intros Hwf. rewrite Publish_build_eq by assumption.
  destruct (NewRequest_error _ _); [eauto|].
  destruct (headers_valid σ m); [|eauto].
  destruct (Publish_dedup _ _ _ _ _) as [[e0|] σ0]; eauto.
Qed.

Lemma headers_valid_forwarded σ m :
  headers_valid σ m = true <-> all_forwarded (caller_headers σ m).
Proof. unfold headers_valid, all_forwarded. apply forallb_header_keys. Qed.

Lemma caller_headers_Some σ m l h :
  Headers m = Some l -> heap σ !! l = Some h -> caller_headers σ m = h.
Proof. unfold caller_headers. by intros -> ->. Qed.

Lemma wf_message_Some σ m l h :
  Headers m = Some l -> heap σ !! l = Some h -> wf_message σ m.
Proof. intros Hm Hl l' Hl'. rewrite Hm in Hl'. injection Hl' as <-. by rewrite Hl. Qed.

Lemma built_header_standard q m os σ (h : gmap string (list string)) :
  all_forwarded h ->
  standard_headers q os (headers_written q os (dedup_written q m os σ h)).
Proof.
  intros Hall.
  assert (Habs : forall k, k ∈ standard_keys -> dedup_written q m os σ h !! k = None).
  { intros k Hk. rewrite dedup_written_other.
    - apply not_forwarded_absent; [done|].
      unfold standard_keys in Hk.
      repeat (apply elem_of_cons in Hk as [-> | Hk]; [reflexivity|]).
      by apply elem_of_nil in Hk.
    - intros Hd. unfold standard_keys in Hk. unfold dedup_keys in Hd.
      apply elem_of_cons in Hd as [-> | Hd];
        [|apply elem_of_cons in Hd as [-> | Hd]; [|by apply elem_of_nil in Hd]];
        repeat (apply elem_of_cons in Hk as [Hk | Hk]; [discriminate|]);
        by apply elem_of_nil in Hk. }
  unfold standard_headers, headers_written.
  destruct (PublishOptions.Delay os >? 0);
    destruct (0 <? String.length (PublishOptions.Schedule os))%nat;
    destruct (PublishOptions.Retries os >? 0);
    repeat split;
    repeat (rewrite Header_Set_lookup; vm_compute CanonicalMIMEHeaderKey;
            case_decide; [done || discriminate|]);
    try done; apply Habs; unfold standard_keys; set_solver.
Qed.

Lemma Publish_of_build_inr q m opts σ r σ1 :
  Publish_build q m opts σ = Ret (inr (r, σ1)) ->
  Publish q m opts σ = Publish_send q m r σ1.
Proof. unfold Publish. by intros ->. Qed.

Lemma Publish_of_build_inl q m opts σ e σ' :
  Publish_build q m opts σ = Ret (inl (e, σ')) ->
  Publish q m opts σ = Ret (Some e, m, σ').
Proof. unfold Publish. by intros ->. Qed.

Lemma Publish_send_error q m r σ e m' σ' :
  Publish_send q m r σ = Ret (Some e, m', σ') ->
  e <> ErrHeaderPrefix /\ e <> ErrDedupConflict.
Proof.
  unfold Publish_send.
  destruct (Publisher.client q r _) as [[[[rsp|] [err|]] σ2]| |]; try discriminate.
  - intros [= <- _ _]. split; discriminate.
  - destruct (_ || _).
    + intros [= <- _ _]. split; discriminate.
    + destruct (json_Decode_messageId _); [|discriminate].
      intros [= <- _ _]. split; discriminate.
  - intros [= <- _ _]. split; discriminate.
Qed.

(** [Publish] constructs the request before it validates anything: when
    [http.NewRequest] fails, that error is returned at once. *)
Lemma Publish_request_not_constructed q m opts σ e0 :
  NewRequest_error "POST" (Publisher.url q +:+ "/" +:+ Publisher.topic q) = Some e0 ->
  Publish q m opts σ = Ret (Some ("could not create request " +:+ e0), m, σ).
Proof.
  intros Hreq. unfold Publish, Publish_build, http_NewRequest, PublishOptions_apply.
  by rewrite Hreq.
Qed.

(** What [Publish] does up to the transport, case by case. *)
Lemma Publish_build_cases q m opts σ :
  NewRequest_error "POST" (Publisher.url q +:+ "/" +:+ Publisher.topic q) = None ->
  wf_message σ m ->
  if negb (headers_valid σ m) then
    Publish_build q m opts σ = Ret (inl (ErrHeaderPrefix, after_NewRequest σ))
  else if dedup_conflict m (options_of opts) then
    Publish_build q m opts σ = Ret (inl (ErrDedupConflict, after_NewRequest σ))
  else
    match generator_error q m (options_of opts) σ with
    | Some err =>
        Publish_build q m opts σ
        = Ret (inl ("could not generate uuid " +:+ err, tick_uuid (after_NewRequest σ)))
    | None =>
        exists σ1 hdr,
          Publish_build q m opts σ = Ret (inr (built_request q m σ, σ1))
          /\ heap σ1 !! Header (built_request q m σ) = Some hdr
          /\ one_dedup_header (PublishOptions.ContentBasedDeduplication (options_of opts))
               (dedup_id q m σ) hdr
          /\ clientCalls σ1 = clientCalls σ /\ sends σ1 = sends σ
    end.
Proof.
  intros Hreq Hwf.
  destruct (headers_valid σ m) eqn:Hv; cbn [negb].
  2:{ rewrite Publish_build_eq by exact Hwf. by rewrite Hreq, Hv. }
  destruct (dedup_conflict m (options_of opts)) eqn:Hc.
  { rewrite Publish_build_eq by exact Hwf. rewrite Hreq, Hv.
    unfold Publish_dedup. fold (hasID m). unfold dedup_conflict in Hc. by rewrite Hc. }
  destruct (generator_error q m (options_of opts) σ) as [err|] eqn:Hg.
  - unfold generator_error in Hg.
    destruct (hasID m || PublishOptions.ContentBasedDeduplication (options_of opts))
      eqn:Hneed; [discriminate|].
    apply orb_false_elim in Hneed as [Hid Hcbd].
    rewrite Publish_build_eq by exact Hwf. rewrite Hreq, Hv.
    unfold Publish_dedup. fold (hasID m). rewrite Hid, Hcbd. cbn [andb].
    change (uuids (after_NewRequest σ)) with (uuids σ).
    destruct (Publisher.uuid q (uuids σ)) as [id [e|]]; cbn [snd] in Hg;
      [by injection Hg as ->|discriminate].
  - destruct (Publish_dedup_ok q m (options_of opts) (built_request q m σ)
                (after_NewRequest σ) Hc) as [σ0 Hd].
    { intros Hcbd Hid. unfold generator_error in Hg. rewrite Hid, Hcbd in Hg. exact Hg. }
    assert (Hb : Publish_build q m opts σ
                 = Ret (inr (built_request q m σ,
                             Publish_headers q (options_of opts) (built_request q m σ) σ0)))
      by (rewrite Publish_build_eq by exact Hwf; by rewrite Hreq, Hv, Hd).
    pose proof Hb as Hb'.
    apply Publish_build_inr in Hb' as (_ & _ & _ & _ & Hh & Hcc & Hs); [|exact Hwf].
    eexists _, _. split; [exact Hb|]. split; [exact Hh|].
    split; [|by split].
    apply built_header_dedup. by apply headers_valid_forwarded.
Qed.

(** C3 (as amended).  For a publisher whose request can be constructed:
    a message with its own identifier published with content based
    deduplication makes [Publish] return a validation error without
    touching the transport.  Without that conflict there are three cases.
    When a key of the caller's headers lacks the forwarding prefix,
    [Publish] returns the header-prefix error; when an identifier has to
    be generated and the generator fails, it returns the generator's
    error; both without touching the transport.  In every other case
    [Publish] hands the transport a request that carries exactly one
    deduplication header: the flag
    [Upstash-Content-Based-Deduplication: true], or
    [Upstash-Deduplication-ID] with the caller's identifier when there is
    one and the identifier drawn from the generator otherwise. *)
Theorem C3_one_deduplication_strategy q m opts σ :
  NewRequest_error "POST" (Publisher.url q +:+ "/" +:+ Publisher.topic q) = None ->
  wf_message σ m ->
  if dedup_conflict m (options_of opts) then
    exists e σ',
      Publish q m opts σ = Ret (Some e, m, σ')
      /\ is_validation_error e
      /\ clientCalls σ' = clientCalls σ /\ sends σ' = sends σ
  else if negb (headers_valid σ m) then
    exists σ',
      Publish q m opts σ = Ret (Some ErrHeaderPrefix, m, σ')
      /\ clientCalls σ' = clientCalls σ /\ sends σ' = sends σ
  else
    match generator_error q m (options_of opts) σ with
    | Some err =>
        exists σ',
          Publish q m opts σ = Ret (Some ("could not generate uuid " +:+ err), m, σ')
          /\ clientCalls σ' = clientCalls σ /\ sends σ' = sends σ
    | None =>
        exists r σ1 hdr,
          Publish_build q m opts σ = Ret (inr (r, σ1))
          /\ Publish q m opts σ = Publish_send q m r σ1
          /\ clientCalls σ1 = clientCalls σ /\ sends σ1 = sends σ
          /\ heap σ1 !! Header r = Some hdr
          /\ one_dedup_header
               (PublishOptions.ContentBasedDeduplication (options_of opts))
               (dedup_id q m σ) hdr
    end.
Proof.
  intros Hreq Hwf.
  pose proof (Publish_build_cases q m opts σ Hreq Hwf) as Hcases.
  destruct (dedup_conflict m (options_of opts)) eqn:Hc.
  - destruct (headers_valid σ m); cbn [negb] in Hcases.
    + exists ErrDedupConflict, (after_NewRequest σ).
      split; [by apply Publish_of_build_inl|]. split; [by right|]. by split.
    + exists ErrHeaderPrefix, (after_NewRequest σ).
      split; [by apply Publish_of_build_inl|]. split; [by left|]. by split.
  - destruct (headers_valid σ m); cbn [negb] in *.
    + destruct (generator_error q m (options_of opts) σ) as [err|].
      * eexists. split; [by apply Publish_of_build_inl|]. by split.
      * destruct Hcases as (σ1 & hdr & Hb & Hh & Hone & Hcc & Hs).
        exists (built_request q m σ), σ1, hdr.
        split; [exact Hb|]. split; [by apply Publish_of_build_inr|].
        split; [exact Hcc|]. split; [exact Hs|]. by split.
    + eexists. split; [by apply Publish_of_build_inl|]. by split.
Qed.

(** C8.  When [Publish] reaches the transport and the transport answers
    with a response and no error: a status outside 200..299 makes
    [Publish] return an error made of the status code and the text of the
    response body, the message unchanged; a status inside makes it decode
    the [messageId] of the body and store it in the message's [ID], or
    return the decoding error, the message unchanged. *)
Theorem C8_response_handling q m opts σ r σ1 rsp σ2 :
  Publish_build q m opts σ = Ret (inr (r, σ1)) ->
  Publisher.client q r (log_clientCall (r, default ∅ (heap σ1 !! Header r)) σ1)
  = Ret ((Some rsp, None), σ2) ->
  (StatusCode rsp < 200 \/ 299 < StatusCode rsp ->
     Publish q m opts σ
     = Ret (Some ("bad request status " +:+ Itoa (StatusCode rsp) +:+ ": "
                  +:+ content (RespBody rsp)), m, σ2))
  /\ (200 <= StatusCode rsp <= 299 ->
        match json_Decode_messageId (RespBody rsp) with
        | inr messageID =>
            exists m', Publish q m opts σ = Ret (None, m', σ2)
                       /\ ID m' = messageID
                       /\ Headers m' = Headers m /\ Body m' = Body m
        | inl err =>
            Publish q m opts σ = Ret (Some ("could not decode response " +:+ err), m, σ2)
        end).
Proof.
  intros Hb Hc. rewrite (Publish_of_build_inr _ _ _ _ _ _ Hb).
  unfold Publish_send. rewrite Hc. split.
  - intros Hout.
    replace ((StatusCode rsp <? 200) || (StatusCode rsp >? 299)) with true; [done|].
    symmetry. apply orb_true_iff. rewrite Z.ltb_lt, Z.gtb_ltb, Z.ltb_lt. lia.
  - intros Hin.
    replace ((StatusCode rsp <? 200) || (StatusCode rsp >? 299)) with false.
    + destruct (json_Decode_messageId (RespBody rsp)) as [err|messageID]; [done|].
      by exists (set_ID messageID m).
    + symmetry. apply orb_false_iff. rewrite Z.ltb_ge, Z.gtb_ltb, Z.ltb_ge. lia.
Qed.

(** When the four steps before the transport succeed, a request is built. *)
Lemma Publish_build_succeeds q m opts σ :
  wf_message σ m ->
  NewRequest_error "POST" (Publisher.url q +:+ "/" +:+ Publisher.topic q) = None ->
  all_forwarded (caller_headers σ m) ->
  dedup_conflict m (options_of opts) = false ->
  (PublishOptions.ContentBasedDeduplication (options_of opts) = false ->
   hasID m = false -> snd (Publisher.uuid q (uuids σ)) = None) ->
  exists σ1, Publish_build q m opts σ = Ret (inr (built_request q m σ, σ1)).
Proof.
  intros Hwf Hreq Hall Hconf Huuid.
  apply headers_valid_forwarded in Hall.
  destruct (Publish_dedup_ok q m (options_of opts) (built_request q m σ)
              (after_NewRequest σ) Hconf Huuid) as [σ0 Hd].
  eexists. rewrite Publish_build_eq by assumption. by rewrite Hreq, Hall, Hd.
Qed.

(** C9 (as amended).  For a message with a header map: [Publish] returns
    the header-prefix validation error, without touching the transport,
    exactly when the request could be constructed and some key of the map
    does not start with [upstash-forward-] up to case.  When every key
    does, [Publish] either returns early with another error, still without
    touching the transport, or sends a request whose header map is the
    caller's and holds every entry of the caller unchanged. *)
Theorem C9_header_prefix_validation q m opts σ l (h : gmap string (list string)) :
  Headers m = Some l ->
  heap σ !! l = Some h ->
  ((exists σ', Publish q m opts σ = Ret (Some ErrHeaderPrefix, m, σ')
               /\ clientCalls σ' = clientCalls σ /\ sends σ' = sends σ)
   <-> (NewRequest_error "POST" (Publisher.url q +:+ "/" +:+ Publisher.topic q) = None
        /\ exists k, is_Some (h !! k) /\ hasForwardPrefix k = false))
  /\ (all_forwarded h ->
        match Publish_build q m opts σ with
        | Ret (inr (r, σ1)) =>
            Publish q m opts σ = Publish_send q m r σ1
            /\ Header r = l
            /\ exists hdr, heap σ1 !! l = Some hdr
                           /\ forall k v, h !! k = Some v -> hdr !! k = Some v
        | Ret (inl (e, σ')) =>
            Publish q m opts σ = Ret (Some e, m, σ')
            /\ e <> ErrHeaderPrefix
            /\ clientCalls σ' = clientCalls σ /\ sends σ' = sends σ
        | _ => False
        end).
Proof.
  intros Hm Hl.
  pose proof (wf_message_Some _ _ _ _ Hm Hl) as Hwf.
  pose proof (caller_headers_Some _ _ _ _ Hm Hl) as Hcaller.
  assert (Hvalid : headers_valid σ m = true <-> all_forwarded h)
    by (rewrite headers_valid_forwarded, Hcaller; done).
  assert (Hinl : forall e σ', Publish_build q m opts σ = Ret (inl (e, σ')) ->
    e = ErrHeaderPrefix ->
    NewRequest_error "POST" (Publisher.url q +:+ "/" +:+ Publisher.topic q) = None
    /\ headers_valid σ m = false).
  { intros e σ' Hb ->.
    destruct (Publish_build_inl _ _ _ _ _ _ Hwf Hb) as (He & _).
    unfold early_error in He.
    destruct (NewRequest_error _ _); [discriminate|].
    destruct (headers_valid σ m); [|done].
    destruct (dedup_conflict m (options_of opts)); [discriminate|].
    destruct He as (e' & _ & [=]). }
  split; [split|].
  - intros (σ' & HP & _).
    destruct (Publish_build_returns q m opts σ Hwf) as [[[e σ0]|[r σ1]] Hb].
    + rewrite (Publish_of_build_inl _ _ _ _ _ _ Hb) in HP. injection HP as -> _.
      destruct (Hinl _ _ Hb eq_refl) as [Hreq Hv]. split; [done|].
      apply forallb_header_keys_false. unfold headers_valid in Hv.
      by rewrite Hcaller in Hv.
    + rewrite (Publish_of_build_inr _ _ _ _ _ _ Hb) in HP.
      apply Publish_send_error in HP as [Hne _]. done.
  - intros [Hreq Hbad]. apply forallb_header_keys_false in Hbad.
    assert (Hv : headers_valid σ m = false)
      by (unfold headers_valid; by rewrite Hcaller).
    exists (after_NewRequest σ).
    split; [|done].
    apply Publish_of_build_inl. rewrite Publish_build_eq by assumption.
    by rewrite Hreq, Hv.
  - intros Hall. apply Hvalid in Hall as Hv.
    destruct (Publish_build_returns q m opts σ Hwf) as [[[e σ']|[r σ1]] Hb]; rewrite Hb.
    + destruct (Publish_build_inl _ _ _ _ _ _ Hwf Hb) as (He & Hc & Hs & _).
      split; [by apply Publish_of_build_inl|]. repeat split; try done.
      intros ->. destruct (Hinl _ _ Hb eq_refl) as [_ Hv']. congruence.
    + destruct (Publish_build_inr _ _ _ _ _ _ Hwf Hb) as (_ & _ & _ & Hr & Hh & _).
      split; [by apply Publish_of_build_inr|].
      assert (Header r = l) as Hloc
        by (subst r; unfold built_request, request_loc; cbn; by rewrite Hm).
      split; [done|]. rewrite Hloc in Hh. rewrite Hcaller in Hh.
      eexists. split; [exact Hh|].
      intros k v Hk. by apply built_header_forwarded.
Qed.


End PublishFacts.

(** ** The receiver *)

Section ReceiveFacts.
Variable jwt_decode : string -> error + jwt.Token.
Variable jwt_Verify : jwt.SigningMethod -> string -> string -> string -> option error.

Local Abbreviation verify := (verify jwt_decode jwt_Verify).
Local Abbreviation Receive := (Receive jwt_decode jwt_Verify).
Local Abbreviation other_checks_pass := (other_checks_pass jwt_decode jwt_Verify).
Local Abbreviation claims_of := (claims_of jwt_decode).

Lemma Parse_claims tokenString key now token :
  jwt.Parse jwt_decode jwt_Verify tokenString key now = inr token ->
  jwt.Claims token = claims_of tokenString /\ jwt.Valid token = true.
Proof.
  unfold jwt.Parse, claims_of.
  destruct (jwt_decode tokenString) as [e|t]; [discriminate|].
  destruct (key t) as [e|k]; [discriminate|].
  destruct (jwt_Verify _ _ _ _); [discriminate|].
  destruct (jwt.MapClaims_Valid _ _); [discriminate|].
  by intros [= <-].
Qed.

Lemma verify_after_checks body tokenString signingKey now :
  other_checks_pass tokenString signingKey now = true ->
  verify body tokenString signingKey now
  = if body_claim_is (claims_of tokenString) (digest body) then None
    else Some "body hash does not match".
Proof.
  unfold other_checks_pass, verify.
  destruct (jwt.Parse _ _ _ _ _) as [e|token] eqn:HP; [discriminate|].
  destruct (Parse_claims _ _ _ _ HP) as [-> ->]. cbn [negb andb].
  intros H. apply andb_true_iff in H as [H Hnbf]. apply andb_true_iff in H as [Hiss Hexp].
  rewrite Hiss, Hexp, Hnbf. cbn [negb]. unfold digest.
  by destruct (body_claim_is _ _).
Qed.

Lemma body_claim_is_spec (claims : gmap string jwt.value) (s : string) :
  body_claim_is claims s = true <-> claims !! "body" = Some (jwt.VString s).
Proof.
  unfold body_claim_is.
  destruct (claims !! "body") as [[b| |]|]; try (split; [discriminate|by intros [=]]).
  rewrite String.eqb_eq. split; [by intros ->|by intros [= ->]].
Qed.

(** C4.  When the other checks of [verify] pass, [verify] succeeds exactly
    when the [body] claim of the token is the URL-safe base64 encoding of
    the SHA-256 digest of the bytes received, and fails with the body-hash
    error otherwise; so a token made for one body fails with that error on
    any body with another digest. *)
Theorem C4_body_hash_binding body tokenString signingKey now :
  other_checks_pass tokenString signingKey now = true ->
  (verify body tokenString signingKey now = None
   <-> claims_of tokenString !! "body" = Some (jwt.VString (digest body)))
  /\ (claims_of tokenString !! "body" <> Some (jwt.VString (digest body)) ->
      verify body tokenString signingKey now = Some "body hash does not match")
  /\ (forall body',
        claims_of tokenString !! "body" = Some (jwt.VString (digest body)) ->
        digest body' <> digest body ->
        verify body' tokenString signingKey now = Some "body hash does not match").
Proof.
  intros Hpass.
  assert (Hv : forall b,
    (verify b tokenString signingKey now = None
     <-> claims_of tokenString !! "body" = Some (jwt.VString (digest b)))
    /\ (claims_of tokenString !! "body" <> Some (jwt.VString (digest b)) ->
        verify b tokenString signingKey now = Some "body hash does not match")).
  { intros b. rewrite (verify_after_checks b _ _ _ Hpass).
    rewrite <- body_claim_is_spec.
    destruct (body_claim_is _ _); split; try done. }
  split; [apply Hv|]. split; [apply Hv|].
  intros body' Hclaim Hne. apply Hv. rewrite Hclaim. congruence.
Qed.

Lemma VerifyExpiresAt_required (claims : gmap string jwt.value) (now : Z) :
  jwt.VerifyExpiresAt claims now true = true ->
  jwt.VerifyExpiresAt claims now false = true.
Proof.
  unfold jwt.VerifyExpiresAt, jwt.verifyExp.
  destruct (claims !! "exp") as [[s|exp|]|]; try done.
  by destruct (exp =? 0).
Qed.

(** C7 (as amended).  For a token whose signature, algorithm, issuer,
    expiry, issued-at and body-hash checks pass, [verify] succeeds exactly
    when the not-before claim is present, is not 0 and is not after the
    time of the verification; a token without the claim is rejected as not
    valid yet. *)
Theorem C7_not_before_is_required body tokenString signingKey now token alg :
  jwt_decode tokenString = inr token ->
  jwt.Method token = jwt.SigningMethodHMAC alg ->
  jwt_Verify (jwt.Method token) (jwt.SigningString token) (jwt.Signature token) signingKey
  = None ->
  jwt.VerifyIssuer (jwt.Claims token) "Upstash" true = true ->
  jwt.VerifyExpiresAt (jwt.Claims token) now true = true ->
  jwt.VerifyIssuedAt (jwt.Claims token) now false = true ->
  jwt.Claims token !! "body" = Some (jwt.VString (digest body)) ->
  (verify body tokenString signingKey now = None
   <-> nbf_in_the_past (jwt.Claims token) now)
  /\ (jwt.Claims token !! "nbf" = None ->
      verify body tokenString signingKey now = Some "token is not valid yet").
Proof.
  intros Hdec Halg Hsig Hiss Hexp Hiat Hbody.
  apply body_claim_is_spec in Hbody.
  pose proof (VerifyExpiresAt_required _ _ Hexp) as Hexp'.
  assert (Hv : verify body tokenString signingKey now
    = match jwt.Claims token !! "nbf" with
      | Some (jwt.VNumber nbf) =>
          if nbf =? 0 then Some "token is not valid yet"
          else if now >=? nbf then None
          else Some "could not parse jwt: Token is not valid yet"
      | Some _ => Some "could not parse jwt: Token is not valid yet"
      | None => Some "token is not valid yet"
      end).
  { unfold verify, jwt.Parse, keyFunc.
    rewrite Halg in Hsig. rewrite Hdec, Halg, Hsig. unfold jwt.MapClaims_Valid.
    rewrite Hexp', Hiat. unfold digest in Hbody.
    unfold jwt.VerifyNotBefore, jwt.verifyNbf.
    cbn [jwt.Claims jwt.Valid jwt.set_Valid negb].
    destruct (jwt.Claims token !! "nbf") as [[s|nbf|]|] eqn:Hnbf; try reflexivity.
    - destruct (nbf =? 0) eqn:Hz; cbn [negb].
      + cbn [jwt.Claims jwt.Valid jwt.set_Valid negb].
        by rewrite Hiss, Hexp, Hnbf, Hz.
      + destruct (now >=? nbf) eqn:Hge; [|reflexivity].
        cbn [jwt.Claims jwt.Valid jwt.set_Valid negb].
        by rewrite Hiss, Hexp, Hnbf, Hz, Hge, Hbody.
    - cbn [jwt.Claims jwt.Valid jwt.set_Valid negb].
      by rewrite Hiss, Hexp, Hnbf. }
  rewrite Hv. unfold nbf_in_the_past.
  destruct (jwt.Claims token !! "nbf") as [[s|nbf|]|].
  - split; [|discriminate]. split; [discriminate|]. by intros (? & [=] & _).
  - split; [|discriminate].
    destruct (Z.eqb_spec nbf 0) as [Hz|Hnz].
    + split; [discriminate|]. intros (? & [= <-] & Hz' & _). exfalso. by apply Hz'.
    + destruct (now >=? nbf) eqn:Hge; rewrite Z.geb_leb in Hge.
      * apply Z.leb_le in Hge. split; [|done]. intros _. by exists nbf.
      * apply Z.leb_gt in Hge. split; [discriminate|].
        intros (? & [= <-] & _ & Hle). lia.
  - split; [|discriminate]. split; [discriminate|]. by intros (? & [=] & _).
  - split; [|done]. split; [discriminate|]. by intros (? & [=] & _).
Qed.

(** What [Receive] does once the body is read and the header map found:
    the three ways the two verifications can go. *)
Lemma Receive_verified q onReceive r now1 now2 σ header :
  readErr (InBody r) = None ->
  heap σ !! InHeader r = Some header ->
  verify (content (InBody r)) (Header_Get "Upstash-Signature" header) (signingKey q) now1
  = None ->
  Receive q onReceive r now1 now2 σ
  = match callback_outcome onReceive (received_message r header) σ with
    | Ret (m, σ') =>
        if negb (isAcknowledged m)
        then Ret (Some m, log_written unacknowledged σ')
        else Ret (Some m, σ')
    | Panic => Panic
    | OutOfFuel => OutOfFuel
    end.
Proof.
  intros Hread Hh Hv. unfold Receive. rewrite Hread, Hh, Hv.
  unfold callback_outcome, received_message. by destruct onReceive.
Qed.

Lemma Receive_both_fail q onReceive r now1 now2 σ header err err' :
  readErr (InBody r) = None ->
  heap σ !! InHeader r = Some header ->
  verify (content (InBody r)) (Header_Get "Upstash-Signature" header) (signingKey q) now1
  = Some err ->
  verify (content (InBody r)) (Header_Get "Upstash-Signature" header) (nextSigningKey q) now2
  = Some err' ->
  Receive q onReceive r now1 now2 σ
  = Ret (None, log_written (http_Error err' StatusUnauthorized) σ).
Proof.
  intros Hread Hh Hv Hv'. unfold Receive. by rewrite Hread, Hh, Hv, Hv'.
Qed.

(** C1 (what the code does).  A request whose token fails under the current
    key and verifies under the next key is answered with 401 and the
    message of the first failure; the callback is not run. *)
Theorem C1_next_key_success_still_401 q onReceive r now1 now2 σ header err :
  readErr (InBody r) = None ->
  heap σ !! InHeader r = Some header ->
  verify (content (InBody r)) (Header_Get "Upstash-Signature" header) (signingKey q) now1
  = Some err ->
  verify (content (InBody r)) (Header_Get "Upstash-Signature" header) (nextSigningKey q) now2
  = None ->
  Receive q onReceive r now1 now2 σ
  = Ret (None, log_written (http_Error err StatusUnauthorized) σ)
  /\ status_of (http_Error err StatusUnauthorized) = Some 401.
Proof.
  intros Hread Hh Hv Hv'. unfold Receive. by rewrite Hread, Hh, Hv, Hv'.
Qed.

(** C6 (as amended).  For a request that passed the verification (under
    the current key) and any callback.  [Ack] on a message that holds the
    handler's writer sets the flag of that message and writes status 200
    to the response at once.  When the callback has returned, the handler
    looks at the flag of its message as the callback left it: if the flag
    is not set it writes the 422 answer, which is the status of the
    response when nothing was written before; if the flag is set it writes
    nothing further.  A callback that panics or does not return takes the
    handler with it.  For a callback that ends with a call of [Ack] on the
    message it was handed, the handler writes nothing after the 200 of
    that [Ack], and for the callback that does nothing else the response
    is that 200; for a nil callback it is the 422 answer. *)
Theorem C6_ack_or_unprocessable q onReceive r now1 now2 σ header :
  readErr (InBody r) = None ->
  heap σ !! InHeader r = Some header ->
  verify (content (InBody r)) (Header_Get "Upstash-Signature" header) (signingKey q) now1
  = None ->
  (forall m0 σ0, w m0 = Some theResponseWriter ->
     exists m1, Ack m0 σ0 = Ret (m1, log_written [WriteHeader StatusOK] σ0)
                /\ isAcknowledged m1 = true)
  /\ match callback_outcome onReceive (received_message r header) σ with
     | Ret (m1, σ1) =>
         if isAcknowledged m1
         then Receive q onReceive r now1 now2 σ = Ret (Some m1, σ1)
         else Receive q onReceive r now1 now2 σ
              = Ret (Some m1, log_written unacknowledged σ1)
              /\ written (log_written unacknowledged σ1) = written σ1 ++ unacknowledged
              /\ (written σ1 = [] ->
                  status_of (written (log_written unacknowledged σ1)) = Some 422)
     | Panic => Receive q onReceive r now1 now2 σ = Panic
     | OutOfFuel => Receive q onReceive r now1 now2 σ = OutOfFuel
     end
  /\ (forall f m1 σ1,
        onReceive = Some (then_Ack f) ->
        f (received_message r header) σ = Ret (m1, σ1) ->
        w m1 = Some theResponseWriter ->
        exists m',
          Receive q onReceive r now1 now2 σ
          = Ret (Some m', log_written [WriteHeader StatusOK] σ1)
          /\ isAcknowledged m' = true
          /\ (written σ1 = [] ->
              status_of (written (log_written [WriteHeader StatusOK] σ1)) = Some 200))
  /\ (onReceive = None ->
      Receive q onReceive r now1 now2 σ
      = Ret (Some (received_message r header), log_written unacknowledged σ)).
Proof.
  intros Hread Hh Hv.
  pose proof (Receive_verified q onReceive r now1 now2 σ header Hread Hh Hv) as HR.
  split; [|split; [|split]].
  - intros m0 σ0 Hw. unfold Ack. rewrite Hw. eexists. split; [reflexivity|done].
  - rewrite HR.
    destruct (callback_outcome onReceive (received_message r header) σ)
      as [[m1 σ1]| |]; try reflexivity.
    destruct (isAcknowledged m1); cbn [negb]; [reflexivity|].
    split; [reflexivity|]. split; [reflexivity|].
    intros Hw. cbn [written log_written]. by rewrite Hw.
  - intros f m1 σ1 -> Hf Hw1. rewrite HR. cbn [callback_outcome]. unfold then_Ack.
    rewrite Hf. unfold Ack. rewrite Hw1. cbn [isAcknowledged negb].
    eexists. split; [reflexivity|]. split; [reflexivity|].
    intros Hw. cbn [written log_written]. by rewrite Hw.
  - intros ->. rewrite HR. reflexivity.
Qed.

End ReceiveFacts.

(** ** The retry loop, for any wrapped client *)

Lemma int64_wrap_range (z : Z) : minInt64 <= int64_wrap z <= maxInt64.
Proof.
  unfold int64_wrap, minInt64, maxInt64.
  pose proof (Z.mod_pos_bound (z + 2 ^ 63) (2 ^ 64) ltac:(lia)). lia.
Qed.

(** [k] failed attempts in a row, with attempts left over. *)
Lemma DoLoop_failures (c : httpClient) (req : Request) (k : nat) :
  forall (fuel : nat) (i : Z) (last : DoResult) (σ : World),
    (forall n, (n < k)%nat -> send_fails (client c (length (sends σ) + n)%nat req)) ->
    int64_wrap (Retries c + 1) < maxInt64 ->
    1 <= i ->
    i + Z.of_nat k <= int64_wrap (Retries c + 1) + 1 ->
    DoLoop (k + fuel) c req i last σ
    = DoLoop fuel c req (i + Z.of_nat k)
        (match k with
         | O => last
         | S k' => client c (length (sends σ) + k')%nat req
         end)
        (after_failures c req i k σ).
Proof.
  induction k as [|k IH]; intros fuel i last σ Hfail Hb H1 Hi.
  - rewrite after_failures_0, Z.add_0_r. reflexivity.
  - cbn [Nat.add DoLoop].
    replace (i <=? int64_wrap (Retries c + 1)) with true
      by (symmetry; apply Z.leb_le; lia).
    assert (Hw : int64_wrap (i + 1) = i + 1).
    { apply int64_wrap_small. unfold maxInt64 in Hb. lia. }
    rewrite Hw.
    assert (Hnext : forall r,
      DoLoop (k + fuel) c req (i + 1) r
        (time_Sleep (getExponentialBackOffDuration c i) (log_send req σ))
      = DoLoop fuel c req (i + Z.of_nat (S k))
          (match k with
           | O => r
           | S k' => client c (length (sends σ) + S k')%nat req
           end)
          (after_failures c req i (S k) σ)).
    { intros r. rewrite IH; [| |assumption|lia|lia].
      - rewrite after_failures_S. f_equal; [lia|].
        destruct k as [|k']; [reflexivity|].
        simpl. rewrite length_app. simpl. f_equal. lia.
      - intros n Hn. simpl. rewrite length_app. simpl.
        replace (length (sends σ) + 1 + n)%nat with (length (sends σ) + S n)%nat by lia.
        apply Hfail. lia. }
    pose proof (Hfail 0%nat ltac:(lia)) as Hf0. rewrite Nat.add_0_r in Hf0.
    destruct (client c (length (sends σ)) req) as [[resp|] [err|]] eqn:Hr;
      simpl in Hf0.
    + rewrite Hnext. destruct k; [rewrite Nat.add_0_r, Hr|]; reflexivity.
    + rewrite Hf0. simpl. rewrite Hnext.
      destruct k; [rewrite Nat.add_0_r, Hr|]; reflexivity.
    + rewrite Hnext. destruct k; [rewrite Nat.add_0_r, Hr|]; reflexivity.
    + contradiction.
Qed.

(** What the loop returns, whatever the wrapped client does. *)
Lemma DoLoop_result (fuel : nat) (c : httpClient) (req : Request) :
  forall (i : Z) (last : DoResult) (σ : World) (res : DoResult) (σ' : World),
    int64_wrap (Retries c + 1) < maxInt64 ->
    1 <= i <= int64_wrap (Retries c + 1) + 1 ->
    DoLoop fuel c req i last σ = Ret (res, σ') ->
    exists n : nat,
      i + Z.of_nat n <= int64_wrap (Retries c + 1) + 1
      /\ sends σ' = sends σ ++ repeat req n
      /\ (forall j, (S j < n)%nat -> send_fails (client c (length (sends σ) + j)%nat req))
      /\ match n with
         | O => res = last /\ i = int64_wrap (Retries c + 1) + 1 /\ slept σ' = slept σ
         | S n' =>
             res = client c (length (sends σ) + n')%nat req
             /\ (send_fails res ->
                 i + Z.of_nat n = int64_wrap (Retries c + 1) + 1
                 /\ length (slept σ') = (length (slept σ) + n)%nat)
             /\ (~ send_fails res -> length (slept σ') = (length (slept σ) + n')%nat)
         end.
Proof.
  induction fuel as [|fuel IH]; intros i last σ res σ' Hb Hi; [discriminate|].
  cbn [DoLoop]. destruct (Z.leb_spec i (int64_wrap (Retries c + 1))) as [Hle|Hgt].
  2:{ intros [= <- <-]. exists 0%nat. rewrite app_nil_r.
      repeat split; try lia. }
  assert (Hw : int64_wrap (i + 1) = i + 1).
  { apply int64_wrap_small. unfold maxInt64 in Hb. lia. }
  rewrite Hw.
  assert (Hrec : forall r,
    send_fails r -> r = client c (length (sends σ)) req ->
    DoLoop fuel c req (i + 1) r
      (time_Sleep (getExponentialBackOffDuration c i) (log_send req σ)) = Ret (res, σ') ->
    exists n : nat,
      i + Z.of_nat n <= int64_wrap (Retries c + 1) + 1
      /\ sends σ' = sends σ ++ repeat req n
      /\ (forall j, (S j < n)%nat -> send_fails (client c (length (sends σ) + j)%nat req))
      /\ match n with
         | O => res = last /\ i = int64_wrap (Retries c + 1) + 1 /\ slept σ' = slept σ
         | S n' =>
             res = client c (length (sends σ) + n')%nat req
             /\ (send_fails res ->
                 i + Z.of_nat n = int64_wrap (Retries c + 1) + 1
                 /\ length (slept σ') = (length (slept σ) + n)%nat)
             /\ (~ send_fails res -> length (slept σ') = (length (slept σ) + n')%nat)
         end).
  { intros r Hf Hr H. apply IH in H as (n & Hn & Hs & Hall & Hres); [|assumption|lia].
    cbn [sends time_Sleep log_send slept] in Hs, Hall, Hres.
    rewrite length_app in Hall, Hres. cbn [length] in Hall, Hres.
    exists (S n). split; [lia|]. split.
    { rewrite Hs, <- app_assoc. reflexivity. }
    split.
    { intros j Hj. destruct j as [|j].
      - rewrite Nat.add_0_r, <- Hr. exact Hf.
      - replace (length (sends σ) + S j)%nat with (length (sends σ) + 1 + j)%nat by lia.
        apply Hall. lia. }
    destruct n as [|n'].
    - destruct Hres as (-> & Hi' & Hsl). rewrite Nat.add_0_r. split; [exact Hr|].
      split; [|contradiction].
      intros _. rewrite Hsl, length_app. simpl. lia.
    - replace (length (sends σ) + 1 + n')%nat with (length (sends σ) + S n')%nat
        in Hres by lia.
      destruct Hres as (-> & Hfl & Hok).
      split; [reflexivity|].
      rewrite !length_app in *. cbn [length] in *.
      split.
      + intros Hf'. destruct (Hfl Hf') as [? ?]. lia.
      + intros Hf'. specialize (Hok Hf'). lia. }
  destruct (client c (length (sends σ)) req) as [[resp|] [err|]] eqn:Hr.
  - apply Hrec; [exact I | reflexivity].
  - destruct (isStatusOK (StatusCode resp)) eqn:Hok; cbn [negb].
    + intros [= <- <-]. exists 1%nat. cbn [sends log_send slept repeat].
      rewrite Nat.add_0_r, Hr. split; [lia|]. split; [reflexivity|].
      split; [intros j Hj; lia|]. split; [reflexivity|].
      cbn [send_fails]. rewrite Hok. split; [discriminate|]. intros _. lia.
    + apply Hrec; [exact Hok | reflexivity].
  - apply Hrec; [exact I | reflexivity].
  - discriminate.
Qed.

(** [k] failures and then a success. *)
Lemma Do_after_failures (c : httpClient) (req : Request) (σ : World)
    (fuel k : nat) (resp : Response) :
  0 <= Retries c <= maxInt64 - 2 ->
  Z.of_nat k <= Retries c ->
  (forall n, (n < k)%nat -> send_fails (client c (length (sends σ) + n)%nat req)) ->
  client c (length (sends σ) + k)%nat req = (Some resp, None) ->
  isStatusOK (StatusCode resp) = true ->
  (k < fuel)%nat ->
  httpClient_Do fuel c req σ
  = Ret ((Some resp, None), log_send req (after_failures c req 1 k σ)).
Proof.
  intros HR Hk Hfail Hsucc Hok Hfuel. unfold maxInt64 in HR.
  assert (Hw : int64_wrap (Retries c + 1) = Retries c + 1)
    by (apply int64_wrap_small; lia).
  unfold httpClient_Do.
  replace fuel with (k + S (fuel - S k))%nat by lia.
  rewrite DoLoop_failures; [|assumption|unfold maxInt64; lia|lia|lia].
  cbn [DoLoop].
  replace (1 + Z.of_nat k <=? int64_wrap (Retries c + 1)) with true
    by (symmetry; apply Z.leb_le; lia).
  assert (Hlen : length (sends (after_failures c req 1 k σ)) = (length (sends σ) + k)%nat).
  { unfold after_failures; cbn [sends]. rewrite length_app, repeat_length. reflexivity. }
  rewrite Hlen, Hsucc, Hok. reflexivity.
Qed.

(** X1.  When the first [k] attempts fail and attempt [k+1], one of the
    [Retries + 1] allowed, succeeds, [Do] stops there: it returns that
    response with a nil error after [k+1] sends of the same request and [k]
    sleeps, one after each failure. *)
Theorem Do_stops_at_first_success (c : httpClient) (req : Request) (σ : World)
    (fuel k : nat) (resp : Response) :
  0 <= Retries c <= maxInt64 - 2 ->
  Z.of_nat k <= Retries c ->
  (forall n, (n < k)%nat -> send_fails (client c (length (sends σ) + n)%nat req)) ->
  client c (length (sends σ) + k)%nat req = (Some resp, None) ->
  isStatusOK (StatusCode resp) = true ->
  (k < fuel)%nat ->
  exists σ' : World,
    httpClient_Do fuel c req σ = Ret ((Some resp, None), σ')
    /\ sends σ' = sends σ ++ repeat req (S k)
    /\ slept σ' = slept σ ++
         map (fun j => getExponentialBackOffDuration c (1 + Z.of_nat j)) (seq 0 k)
    /\ heap σ' = heap σ.
Proof.
  intros HR Hk Hfail Hsucc Hok Hfuel.
  exists (log_send req (after_failures c req 1 k σ)).
  split; [by apply Do_after_failures|].
  unfold after_failures, log_send; cbn [sends slept heap].
  repeat split.
  rewrite <- app_assoc. f_equal.
  change [req] with (repeat req 1). rewrite <- repeat_app.
  f_equal. lia.
Qed.

(** X2.  Whatever the wrapped client does, for a retry count from 0 to
    [maxInt64 - 2]: when [Do] returns, it has sent the request between 1
    and [Retries + 1] times; what it returns is the answer to the last
    send; every earlier send had failed; if the last one failed too then
    all [Retries + 1] sends were made; and it slept once after each failed
    send. *)
Theorem Do_returns_the_last_answer (c : httpClient) (req : Request) (σ : World)
    (fuel : nat) (res : DoResult) (σ' : World) :
  0 <= Retries c <= maxInt64 - 2 ->
  httpClient_Do fuel c req σ = Ret (res, σ') ->
  exists n : nat,
    (n <= Z.to_nat (Retries c))%nat
    /\ sends σ' = sends σ ++ repeat req (S n)
    /\ res = client c (length (sends σ) + n)%nat req
    /\ (forall j, (j < n)%nat -> send_fails (client c (length (sends σ) + j)%nat req))
    /\ (send_fails res ->
        n = Z.to_nat (Retries c) /\ length (slept σ') = (length (slept σ) + S n)%nat)
    /\ (~ send_fails res -> length (slept σ') = (length (slept σ) + n)%nat).
Proof.
  intros HR H. unfold maxInt64 in HR.
  assert (Hw : int64_wrap (Retries c + 1) = Retries c + 1)
    by (apply int64_wrap_small; lia).
  unfold httpClient_Do in H.
  apply DoLoop_result in H as (n & Hn & Hs & Hall & Hres);
    [|unfold maxInt64; lia|lia].
  destruct n as [|n]; [destruct Hres as (_ & Hi & _); lia|].
  destruct Hres as (Hr & Hf & Hok).
  exists n. split; [lia|]. split; [exact Hs|]. split; [exact Hr|].
  split; [intros j Hj; apply Hall; lia|].
  split; [|exact Hok].
  intros Hfail. destruct (Hf Hfail) as [? ?]. split; [lia|assumption].
Qed.

(** When [Retries + 1] is below 1, the loop body never runs. *)
Lemma Do_without_attempt (c : httpClient) (req : Request) (σ : World) (fuel : nat) :
  int64_wrap (Retries c + 1) < 1 ->
  httpClient_Do (S fuel) c req σ = Ret ((None, None), σ).
Proof.
  intros H. unfold httpClient_Do. cbn [DoLoop].
  replace (1 <=? int64_wrap (Retries c + 1)) with false
    by (symmetry; apply Z.leb_gt; lia).
  reflexivity.
Qed.

Lemma DoLoop_unbounded (fuel : nat) (c : httpClient) (req : Request) :
  forall (i : Z) (last : DoResult) (σ : World),
    int64_wrap (Retries c + 1) = maxInt64 ->
    (forall n, send_fails (client c n req)) ->
    i <= maxInt64 ->
    DoLoop fuel c req i last σ = OutOfFuel.
Proof.
  induction fuel as [|fuel IH]; intros i last σ Hb Hfail Hi; [reflexivity|].
  cbn [DoLoop]. rewrite Hb.
  replace (i <=? maxInt64) with true by (symmetry; apply Z.leb_le; lia).
  pose proof (int64_wrap_range (i + 1)) as [_ Hr].
  pose proof (Hfail (length (sends σ))) as Hf.
  destruct (client c (length (sends σ)) req) as [[resp|] [err|]]; simpl in Hf.
  - by apply IH.
  - rewrite Hf. cbn [negb]. by apply IH.
  - by apply IH.
  - contradiction.
Qed.

(** X3.  With [Retries = maxInt64 - 1] the bound [Retries + 1] of the loop
    is the largest [int]; the counter wraps around instead of passing it,
    so on a wrapped client whose every attempt fails [Do] never returns. *)
Theorem Do_never_returns (c : httpClient) (req : Request) (σ : World) (fuel : nat) :
  Retries c = maxInt64 - 1 ->
  (forall n, send_fails (client c n req)) ->
  httpClient_Do fuel c req σ = OutOfFuel.
Proof.
  intros HR Hfail. unfold httpClient_Do.
  apply DoLoop_unbounded; [|assumption|unfold maxInt64; lia].
  rewrite HR. reflexivity.
Qed.

(** ** The backoff, overflow or not *)

Lemma backOffLoop_le_max (n : nat) : forall exp max : Z,
  exp <= max -> backOffLoop n exp max <= max.
Proof.
  induction n as [|n IH]; intros exp max Hle; [exact Hle|].
  cbn [backOffLoop]. cbv zeta.
  destruct (Z.gtb_spec (int64_wrap (exp * 2)) max) as [Hgt|Hngt]; [lia|].
  by apply IH.
Qed.

(** X4.  Whenever [MinBackOff] does not exceed [MaxBackOff], the delay
    never exceeds [MaxBackOff], for every attempt number and even when the
    doubling overflows; for an attempt number of 0 or less the loop does
    not run and the delay is [MinBackOff]. *)
Theorem backOff_never_exceeds_max (c : httpClient) (attempt : Z) :
  MinBackOff c <= MaxBackOff c ->
  getExponentialBackOffDuration c attempt <= MaxBackOff c
  /\ (attempt <= 0 -> getExponentialBackOffDuration c attempt = MinBackOff c).
Proof.
  intros Hle. unfold getExponentialBackOffDuration. split.
  - by apply backOffLoop_le_max.
  - intros Ha. replace (Z.to_nat attempt) with 0%nat by lia. reflexivity.
Qed.

(** ** Identifiers *)

Lemma below_62 (P : Z -> bool) :
  forallb (fun n => P (Z.of_nat n)) (seq 0 62) = true ->
  forall d, 0 <= d < 62 -> P d = true.
Proof.
  intros H d Hd. rewrite forallb_forall in H.
  rewrite <- (Z2Nat.id d) by lia. apply H. apply in_seq. lia.
Qed.

Lemma below_256 (P : Z -> bool) :
  forallb (fun n => P (Z.of_nat n)) (seq 0 256) = true ->
  forall b, is_byte b -> P b = true.
Proof.
  intros H b Hb. unfold is_byte in Hb. rewrite forallb_forall in H.
  rewrite <- (Z2Nat.id b) by lia. apply H. apply in_seq. lia.
Qed.

Lemma digit_value_digit (d : Z) : 0 <= d < 62 -> digit_value (big.digit d) = d.
Proof.
  intros Hd. apply Z.eqb_eq.
  apply (below_62 (fun d => digit_value (big.digit d) =? d)); [|assumption].
  vm_compute. reflexivity.
Qed.

Lemma digit_alnum (d : Z) : 0 <= d < 62 -> is_alnum (big.digit d) = true.
Proof.
  intros Hd. apply (below_62 (fun d => is_alnum (big.digit d))); [|assumption].
  vm_compute. reflexivity.
Qed.

(** Reading back what [Text_loop] wrote gives the number. *)
Lemma from_digits_Text_loop (fuel : nat) : forall (x : Z) (acc : string),
  0 <= x < 2 ^ Z.of_nat fuel ->
  from_digits 62 (big.Text_loop fuel 62 x acc) 0 = from_digits 62 acc x.
Proof.
  induction fuel as [|fuel IH]; intros x acc Hx.
  - simpl in Hx. replace x with 0 by lia. reflexivity.
  - cbn [big.Text_loop]. destruct (Z.ltb_spec x 62) as [Hlt|Hge].
    + cbn [from_digits]. rewrite digit_value_digit by lia. f_equal.
    + assert (H62 : 0 <= x mod 62 < 62) by (apply Z.mod_pos_bound; lia).
      rewrite IH.
      * cbn [from_digits]. rewrite digit_value_digit by assumption.
        f_equal. pose proof (Z.div_mod x 62 ltac:(lia)). lia.
      * rewrite Nat2Z.inj_succ, Z.pow_succ_r in Hx by lia.
        split; [apply Z.div_pos; lia|].
        apply Z.div_lt_upper_bound; lia.
Qed.

Lemma Text_fuel (x : Z) : 0 <= x -> x < 2 ^ Z.of_nat (S (Z.to_nat (Z.log2 x))).
Proof.
  intros Hx. rewrite Nat2Z.inj_succ, Z2Nat.id by apply Z.log2_nonneg.
  destruct (Z.eq_dec x 0) as [->|Hnz]; [reflexivity|].
  apply Z.log2_spec. lia.
Qed.

Lemma from_digits_Text (x : Z) : 0 <= x -> from_digits 62 (big.Text x 62) 0 = x.
Proof.
  intros Hx. unfold big.Text.
  replace (x <? 0) with false by (symmetry; apply Z.ltb_ge; lia).
  rewrite from_digits_Text_loop by (split; [assumption | by apply Text_fuel]).
  reflexivity.
Qed.

Lemma Text_loop_alnum (fuel : nat) : forall (x : Z) (acc : string),
  0 <= x -> all_bytes is_alnum acc = true ->
  all_bytes is_alnum (big.Text_loop fuel 62 x acc) = true.
Proof.
  induction fuel as [|fuel IH]; intros x acc Hx Hacc; [assumption|].
  cbn [big.Text_loop]. destruct (Z.ltb_spec x 62) as [Hlt|Hge].
  - cbn [all_bytes]. rewrite digit_alnum by lia. assumption.
  - apply IH; [apply Z.div_pos; lia|].
    cbn [all_bytes]. rewrite digit_alnum by (apply Z.mod_pos_bound; lia). assumption.
Qed.

Lemma Text_loop_length_le (fuel : nat) : forall (x : Z) (acc : string) (k : nat),
  0 <= x < 62 ^ Z.of_nat (S k) ->
  (String.length (big.Text_loop fuel 62 x acc) <= String.length acc + S k)%nat.
Proof.
  induction fuel as [|fuel IH]; intros x acc k Hx; [simpl; lia|].
  cbn [big.Text_loop]. destruct (Z.ltb_spec x 62) as [Hlt|Hge].
  - simpl. lia.
  - destruct k as [|k]; [simpl in Hx; lia|].
    etransitivity; [apply (IH _ _ k)|simpl; lia].
    rewrite (Nat2Z.inj_succ (S k)), Z.pow_succ_r in Hx by lia.
    split; [apply Z.div_pos; lia|].
    apply Z.div_lt_upper_bound; lia.
Qed.

Lemma Text_loop_length_ge (fuel : nat) : forall (x : Z) (acc : string) (k : nat),
  62 ^ Z.of_nat k <= x < 2 ^ Z.of_nat fuel ->
  (String.length acc + S k <= String.length (big.Text_loop fuel 62 x acc))%nat.
Proof.
  induction fuel as [|fuel IH]; intros x acc k Hx.
  - simpl in Hx. pose proof (Z.pow_pos_nonneg 62 (Z.of_nat k)). lia.
  - cbn [big.Text_loop]. destruct (Z.ltb_spec x 62) as [Hlt|Hge].
    + destruct k as [|k]; [simpl; lia|].
      rewrite Nat2Z.inj_succ, Z.pow_succ_r in Hx by lia.
      pose proof (Z.pow_pos_nonneg 62 (Z.of_nat k)). lia.
    + destruct k as [|k].
      * etransitivity; [|apply (IH _ _ 0%nat)]; [simpl; lia|].
        rewrite Nat2Z.inj_succ, Z.pow_succ_r in Hx by lia.
        split; [apply Z.div_le_lower_bound; simpl; lia|].
        apply Z.div_lt_upper_bound; lia.
      * etransitivity; [|apply (IH _ _ k)]; [simpl; lia|].
        rewrite !Nat2Z.inj_succ, !Z.pow_succ_r in Hx by lia.
        split; [apply Z.div_le_lower_bound; lia|].
        apply Z.div_lt_upper_bound; lia.
Qed.

Lemma SetBytes_snoc (l : list Z) (b : Z) :
  big.SetBytes (l ++ [b]) = big.SetBytes l * 256 + b.
Proof. unfold big.SetBytes. rewrite fold_left_app. reflexivity. Qed.

Lemma SetBytes_bound (l : list Z) :
  Forall is_byte l -> 0 <= big.SetBytes l < 256 ^ Z.of_nat (length l).
Proof.
  induction l as [|b l IH] using rev_ind; intros Hl.
  - unfold big.SetBytes. simpl. lia.
  - apply Forall_app in Hl as [Hl Hb]. apply Forall_inv in Hb. unfold is_byte in Hb.
    specialize (IH Hl). rewrite SetBytes_snoc, length_app. cbn [length].
    replace (Z.of_nat (length l + 1)) with (Z.succ (Z.of_nat (length l))) by lia.
    rewrite Z.pow_succ_r by lia. lia.
Qed.

Lemma SetBytes_inj (a : list Z) : forall b : list Z,
  length a = length b -> Forall is_byte a -> Forall is_byte b ->
  big.SetBytes a = big.SetBytes b -> a = b.
Proof.
  induction a as [|x a IH] using rev_ind; intros b Hlen Ha Hb Heq.
  - destruct b; [reflexivity|discriminate].
  - destruct b as [|y b _] using rev_ind.
    { rewrite length_app in Hlen. simpl in Hlen. lia. }
    rewrite !length_app in Hlen. cbn [length] in Hlen.
    apply Forall_app in Ha as [Ha Hx]. apply Forall_inv in Hx.
    apply Forall_app in Hb as [Hb Hy]. apply Forall_inv in Hy.
    unfold is_byte in Hx, Hy.
    rewrite !SetBytes_snoc in Heq.
    assert (big.SetBytes a = big.SetBytes b) by lia.
    assert (x = y) by lia. subst y.
    f_equal. apply IH; [lia|assumption..].
Qed.

Lemma stamp_version (b : Z) :
  is_byte b -> 64 <= Z.lor (Z.land b 15) 64 < 80
               /\ Z.lor (Z.land b 15) 64 mod 16 = b mod 16.
Proof.
  intros Hb.
  pose proof (below_256
    (fun b => (64 <=? Z.lor (Z.land b 15) 64) && (Z.lor (Z.land b 15) 64 <? 80)
              && (Z.lor (Z.land b 15) 64 mod 16 =? b mod 16))
    ltac:(vm_compute; reflexivity) b Hb) as H.
  cbv beta in H. apply andb_prop in H as [H H3]. apply andb_prop in H as [H1 H2].
  apply Z.leb_le in H1. apply Z.ltb_lt in H2. apply Z.eqb_eq in H3. lia.
Qed.

Lemma stamp_variant (b : Z) :
  is_byte b -> 128 <= Z.lor (Z.land b 63) 128 < 192
               /\ Z.lor (Z.land b 63) 128 mod 64 = b mod 64.
Proof.
  intros Hb.
  pose proof (below_256
    (fun b => (128 <=? Z.lor (Z.land b 63) 128) && (Z.lor (Z.land b 63) 128 <? 192)
              && (Z.lor (Z.land b 63) 128 mod 64 =? b mod 64))
    ltac:(vm_compute; reflexivity) b Hb) as H.
  cbv beta in H. apply andb_prop in H as [H H3]. apply andb_prop in H as [H1 H2].
  apply Z.leb_le in H1. apply Z.ltb_lt in H2. apply Z.eqb_eq in H3. lia.
Qed.

Lemma stamped_length (bytes : list Z) : length (stamped bytes) = length bytes.
Proof. unfold stamped. by rewrite !length_alter. Qed.

Lemma Forall_alter_byte (f : Z -> Z) (i : nat) (l : list Z) :
  (forall b, is_byte b -> is_byte (f b)) -> Forall is_byte l ->
  Forall is_byte (alter f i l).
Proof.
  intros Hf Hl. apply Forall_lookup. intros j x Hj.
  destruct (decide (i = j)) as [->|Hne].
  - rewrite list_lookup_alter_eq in Hj.
    destruct (l !! j) as [y|] eqn:Hy; [|discriminate].
    injection Hj as <-. apply Hf. by eapply (proj1 (Forall_lookup _ _) Hl).
  - rewrite list_lookup_alter_ne in Hj by assumption.
    by eapply (proj1 (Forall_lookup _ _) Hl).
Qed.

Lemma stamped_bytes (bytes : list Z) : Forall is_byte bytes -> Forall is_byte (stamped bytes).
Proof.
  intros H. unfold stamped.
  apply Forall_alter_byte; [|apply Forall_alter_byte; [|assumption]].
  - intros b Hb. pose proof (stamp_variant b Hb). unfold is_byte. lia.
  - intros b Hb. pose proof (stamp_version b Hb). unfold is_byte. lia.
Qed.

Lemma NewV4_eq (bytes : list Z) :
  uuid.NewV4 (inr bytes) = (big.Text (big.SetBytes (stamped bytes)) 62, None).
Proof. reflexivity. Qed.

Lemma stamped_lookup_6 (bytes : list Z) :
  stamped bytes !! 6%nat = (fun b => Z.lor (Z.land b 15) 64) <$> bytes !! 6%nat.
Proof.
  unfold stamped. rewrite list_lookup_alter_ne by lia.
  apply list_lookup_alter_eq.
Qed.

Lemma stamped_lookup_8 (bytes : list Z) :
  stamped bytes !! 8%nat = (fun b => Z.lor (Z.land b 63) 128) <$> bytes !! 8%nat.
Proof.
  unfold stamped. rewrite list_lookup_alter_eq.
  by rewrite list_lookup_alter_ne by lia.
Qed.

Lemma stamped_lookup_other (bytes : list Z) (i : nat) :
  i <> 6%nat -> i <> 8%nat -> stamped bytes !! i = bytes !! i.
Proof.
  intros H6 H8. unfold stamped.
  rewrite list_lookup_alter_ne by lia. by rewrite list_lookup_alter_ne by lia.
Qed.

Lemma SetBytes_stamped_ge (bytes : list Z) :
  length bytes = 16%nat -> Forall is_byte bytes ->
  64 * 256 ^ 9 <= big.SetBytes (stamped bytes).
Proof.
  intros Hlen Hb.
  do 17 (destruct bytes as [|? bytes]; try discriminate Hlen).
  repeat match goal with
         | H : Forall is_byte (_ :: _) |- _ =>
             let Hx := fresh "Hx" in
             apply Forall_cons_1 in H as [Hx H]
         end.
  pose proof (stamp_version z5 ltac:(assumption)) as [Hv _].
  pose proof (stamp_variant z7 ltac:(assumption)) as [Hw _].
  unfold is_byte in *.
  unfold stamped. cbn [alter list_alter]. unfold big.SetBytes. cbn [fold_left].
  lia.
Qed.

(** X5.  From 16 random bytes [NewV4] makes an identifier of 14 to 22
    characters, each a decimal digit or a letter of the English alphabet;
    it does not fail. *)
Theorem NewV4_format (bytes : list Z) :
  length bytes = 16%nat -> Forall is_byte bytes ->
  exists id : string,
    uuid.NewV4 (inr bytes) = (id, None)
    /\ (14 <= String.length id <= 22)%nat
    /\ all_bytes is_alnum id = true.
Proof.
  intros Hlen Hb. eexists. split; [apply NewV4_eq|].
  pose proof (SetBytes_bound (stamped bytes) (stamped_bytes bytes Hb)) as [H0 Hlt].
  rewrite stamped_length, Hlen in Hlt.
  pose proof (SetBytes_stamped_ge bytes Hlen Hb) as Hge.
  unfold big.Text.
  replace (big.SetBytes (stamped bytes) <? 0) with false
    by (symmetry; apply Z.ltb_ge; lia).
  split; [split|].
  - apply (Text_loop_length_ge _ _ EmptyString 13%nat).
    split; [|by apply Text_fuel].
    etransitivity; [|exact Hge]. vm_compute. discriminate.
  - apply (Text_loop_length_le _ _ EmptyString 21%nat).
    split; [assumption|].
    eapply Z.lt_trans; [exact Hlt|]. reflexivity.
  - by apply Text_loop_alnum.
Qed.

(** X6.  The identifier of [NewV4] is the base 62 numeral of the 16 bytes
    read as one big-endian number, after byte 6 got the version (its high
    half is 4, its low half is kept) and byte 8 the variant (its two high
    bits are 10, the six others are kept); the other bytes are the random
    bytes. *)
Theorem NewV4_reads_back (bytes : list Z) :
  length bytes = 16%nat -> Forall is_byte bytes ->
  exists (id : string) (x6 b6 x8 b8 : Z),
    uuid.NewV4 (inr bytes) = (id, None)
    /\ from_digits 62 id 0 = big.SetBytes (stamped bytes)
    /\ length (stamped bytes) = 16%nat
    /\ (forall i, i <> 6%nat -> i <> 8%nat -> stamped bytes !! i = bytes !! i)
    /\ bytes !! 6%nat = Some x6 /\ stamped bytes !! 6%nat = Some b6
    /\ 64 <= b6 < 80 /\ b6 mod 16 = x6 mod 16
    /\ bytes !! 8%nat = Some x8 /\ stamped bytes !! 8%nat = Some b8
    /\ 128 <= b8 < 192 /\ b8 mod 64 = x8 mod 64.
Proof.
  intros Hlen Hb.
  destruct (lookup_lt_is_Some_2 bytes 6%nat ltac:(lia)) as [x6 H6].
  destruct (lookup_lt_is_Some_2 bytes 8%nat ltac:(lia)) as [x8 H8].
  exists (big.Text (big.SetBytes (stamped bytes)) 62), x6,
    (Z.lor (Z.land x6 15) 64), x8, (Z.lor (Z.land x8 63) 128).
  pose proof (SetBytes_bound (stamped bytes) (stamped_bytes bytes Hb)) as [H0 _].
  pose proof (stamp_version x6 (Forall_lookup_1 _ _ _ _ Hb H6)) as [? ?].
  pose proof (stamp_variant x8 (Forall_lookup_1 _ _ _ _ Hb H8)) as [? ?].
  split; [apply NewV4_eq|].
  split; [by apply from_digits_Text|].
  split; [by rewrite stamped_length|].
  split; [apply stamped_lookup_other|].
  split; [assumption|]. split; [by rewrite stamped_lookup_6, H6|].
  split; [assumption|]. split; [assumption|].
  split; [assumption|]. split; [by rewrite stamped_lookup_8, H8|].
  split; assumption.
Qed.

(** X7.  Two reads of 16 random bytes give the same identifier exactly
    when they agree after the version and the variant were written: the
    identifier keeps all of the 122 bits that are not overwritten. *)
Theorem NewV4_injective (a b : list Z) :
  length a = 16%nat -> length b = 16%nat ->
  Forall is_byte a -> Forall is_byte b ->
  fst (uuid.NewV4 (inr a)) = fst (uuid.NewV4 (inr b)) <-> stamped a = stamped b.
Proof.
  intros Hla Hlb Ha Hb. rewrite !NewV4_eq. cbn [fst].
  split; [|by intros ->].
  intros Heq. apply (f_equal (fun s => from_digits 62 s 0)) in Heq.
  pose proof (SetBytes_bound (stamped a) (stamped_bytes a Ha)) as [H0a _].
  pose proof (SetBytes_bound (stamped b) (stamped_bytes b Hb)) as [H0b _].
  rewrite !from_digits_Text in Heq by assumption.
  apply SetBytes_inj; [by rewrite !stamped_length, Hla, Hlb|by apply stamped_bytes..|exact Heq].
Qed.

(** ** Constructors *)

Section ConstructorFacts.
Variable Getenv : string -> string.
Variable http_Client : Z -> RoundTripper.
Variable rand_Reader : nat -> error + list Z.

Local Abbreviation NewReceiver := (NewReceiver Getenv).
Local Abbreviation NewPublisher := (NewPublisher Getenv http_Client rand_Reader).
Local Abbreviation publisher_options := (publisher_options Getenv).
Local Abbreviation publisher_of := (publisher_of http_Client rand_Reader).

(** X8.  [NewReceiver] without options takes both keys from the
    environment; keys given as the last options replace whatever the
    environment and earlier options say, an empty string included.  It
    fails exactly when a key ends up empty, naming the current key first. *)
Theorem NewReceiver_keys (opts : list ReceiverOption) (k k' : string) :
  NewReceiver [] = receiver_with (Getenv "QSTASH_SIGNING_KEY") (Getenv "QSTASH_NEXT_SIGNING_KEY")
  /\ NewReceiver (opts ++ [WithSigningKey k; WithNextSigningKey k']) = receiver_with k k'
  /\ NewReceiver (opts ++ [WithNextSigningKey k'; WithSigningKey k]) = receiver_with k k'.
Proof.
  unfold NewReceiver, ReceiverOptions_apply, receiver_with.
  rewrite !fold_left_app. cbn [fold_left app].
  unfold WithSigningKey, WithNextSigningKey. cbn.
  repeat split.
  - destruct (String.eqb (Getenv "QSTASH_SIGNING_KEY") EmptyString); [reflexivity|].
    destruct (String.eqb (Getenv "QSTASH_NEXT_SIGNING_KEY") EmptyString); reflexivity.
  - destruct (String.eqb k EmptyString); [reflexivity|].
    destruct (String.eqb k' EmptyString); reflexivity.
  - destruct (String.eqb k EmptyString); [reflexivity|].
    destruct (String.eqb k' EmptyString); reflexivity.
Qed.

Lemma publisher_options_topic (topic : string) (opts : list PublisherOption) :
  PublisherOptions.topic (publisher_options topic opts) = topic.
Proof.
  unfold publisher_options, PublisherOptions_apply.
  cbv zeta. rewrite app_assoc, fold_left_app. cbn [fold_left].
  repeat match goal with |- context [if ?b then _ else _] => destruct b end;
    reflexivity.
Qed.

Lemma NewPublisher_eq (fuel : nat) (topic : string) (opts : list PublisherOption) :
  NewPublisher fuel topic opts
  = match snd (PublisherOptions_apply Getenv PublisherOptions.zero
                 (opts ++ [withTopic topic])) with
    | Some err => inl err
    | None => inr (publisher_of fuel (publisher_options topic opts))
    end.
Proof.
  unfold NewPublisher, publisher_options,
    publisher_of.
  destruct (PublisherOptions_apply _ _ _) as [os [err|]]; reflexivity.
Qed.

Lemma PublisherOptions_apply_valid (o : PublisherOptions.t) (opts : list PublisherOption) :
  snd (PublisherOptions_apply Getenv o opts) = None
  <-> valid_publisher_options (fst (PublisherOptions_apply Getenv o opts)).
Proof.
  unfold PublisherOptions_apply, valid_publisher_options. cbv zeta.
  set (os := fold_left _ _ o).
  destruct (String.eqb_spec (PublisherOptions.QStashToken os) EmptyString) as [E1|E1];
    [cbn [fst snd]; split; [discriminate | tauto]|].
  destruct (String.eqb_spec (PublisherOptions.QStashURL os) EmptyString) as [E2|E2];
    [cbn [fst snd]; split; [discriminate | tauto]|].
  destruct (String.eqb_spec (PublisherOptions.topic os) EmptyString) as [E3|E3];
    [cbn [fst snd]; split; [discriminate | tauto]|].
  destruct (Z.ltb_spec (PublisherOptions.Timeout (PublisherOptions.Client os)) Millisecond);
    [cbn [fst snd]; split; [discriminate | lia]|].
  destruct (Z.ltb_spec (PublisherOptions.Retries (PublisherOptions.Client os)) 0);
    [cbn [fst snd]; split; [discriminate | lia]|].
  destruct (Z.ltb_spec (PublisherOptions.MinBackOff (PublisherOptions.Client os)) Millisecond);
    [cbn [fst snd]; split; [discriminate | lia]|].
  destruct (Z.ltb_spec (PublisherOptions.MaxBackOff (PublisherOptions.Client os)) Millisecond);
    [cbn [fst snd]; split; [discriminate | lia]|].
  destruct (Z.gtb_spec (PublisherOptions.MinBackOff (PublisherOptions.Client os))
              (PublisherOptions.MaxBackOff (PublisherOptions.Client os)));
    [cbn [fst snd]; split; [discriminate | lia]|].
  cbn [fst snd]. split; [|reflexivity]. intros _. repeat split; (assumption || lia).
Qed.

(** X9.  [NewPublisher] returns a publisher exactly when the options it
    ends up with are valid: token, URL and topic not empty, timeout and
    both backoff bounds at least a millisecond, the lower bound not above
    the upper one, retries not negative.  The publisher then has the
    token, URL and topic of the options and a retrying transport with
    their bounds and retry count.  Its topic is the argument, whatever the
    options do. *)
Theorem NewPublisher_validates (fuel : nat) (topic : string) (opts : list PublisherOption) :
  let os := publisher_options topic opts in
  PublisherOptions.topic os = topic
  /\ match NewPublisher fuel topic opts with
     | inr q =>
         valid_publisher_options os
         /\ q = publisher_of fuel os
         /\ Publisher.topic q = topic
     | inl _ => ~ valid_publisher_options os
     end.
Proof.
  intros os. split; [apply publisher_options_topic|].
  rewrite NewPublisher_eq. fold os.
  pose proof (PublisherOptions_apply_valid PublisherOptions.zero (opts ++ [withTopic topic]))
    as Hv.
  fold (publisher_options topic opts) in Hv. fold os in Hv.
  destruct (snd _) as [err|].
  - intros H. apply Hv in H. discriminate.
  - split; [by apply Hv|]. split; [reflexivity|]. apply publisher_options_topic.
Qed.

(** X10.  Without options [NewPublisher] needs a token in the environment
    and a topic, reporting the token first; it then returns a publisher
    for the public endpoint whose transport has a timeout of one second and
    the default policy: five retries, backoff from 200ms to one second. *)
Theorem NewPublisher_defaults (fuel : nat) (topic : string) :
  NewPublisher fuel topic []
  = if String.eqb (Getenv "QSTASH_TOKEN") EmptyString then inl "'QSTASH_TOKEN' is required"
    else if String.eqb topic EmptyString then inl "topic is required"
    else inr (Publisher.mk (Getenv "QSTASH_TOKEN") "https://qstash.upstash.io/v2/publish"
                topic (httpClient_Do fuel (defaultClient (http_Client Second)))
                (fun n => uuid.NewV4 (rand_Reader n)) false).
Proof.
  unfold NewPublisher, PublisherOptions_apply. cbn.
  destruct (String.eqb (Getenv "QSTASH_TOKEN") EmptyString); [reflexivity|].
  destruct (String.eqb topic EmptyString); reflexivity.
Qed.

End ConstructorFacts.

(** ** The publisher, from the request to the answer *)

Section PublishCoverage.
Variable NewRequest_error : string -> string -> option error.
Variable Duration_String : Z -> string.
Variable json_Decode_messageId : ReadCloser -> error + string.

Local Abbreviation Publish_build := (Publish_build NewRequest_error Duration_String).
Local Abbreviation Publish := (Publish NewRequest_error Duration_String json_Decode_messageId).
Local Abbreviation PublishWithDelay :=
  (PublishWithDelay NewRequest_error Duration_String json_Decode_messageId).
Local Abbreviation Publish_headers := (Publish_headers Duration_String).
Local Abbreviation Publish_send := (Publish_send json_Decode_messageId).
Local Abbreviation headers_written := (headers_written Duration_String).
Local Abbreviation standard_headers := (standard_headers Duration_String).
Local Abbreviation early_error := (early_error NewRequest_error).

Lemma Publish_headers_other q os r σ l :
  l <> Header r -> heap (Publish_headers q os r σ) !! l = heap σ !! l.
Proof.
  intros Hl. unfold Publish_headers.
  repeat match goal with
  | |- context [if ?b then _ else _] => destruct b
  end;
  rewrite ?heap_Set_lookup_ne by done; reflexivity.
Qed.

Lemma Publish_dedup_uuids q m os r σ e σ' :
  Publish_dedup q m os r σ = (e, σ') ->
  uuids σ' = if hasID m || PublishOptions.ContentBasedDeduplication os
             then uuids σ else S (uuids σ).
Proof.
  unfold Publish_dedup, hasID.
  destruct (0 <? String.length (ID m))%nat;
    destruct (PublishOptions.ContentBasedDeduplication os); cbn [andb orb];
    try (by intros [= <- <-]).
  destruct (Publisher.uuid q (uuids σ)) as [id [e'|]]; by intros [= <- <-].
Qed.

(** X11.  Every request [Publish] hands to the transport is a POST to
    [url/topic] with the body of the message.  Its header map holds the
    authorization and content type headers and the delay, schedule and
    retries headers the options ask for; apart from the keys [Publish]
    writes it holds what the caller's map held, nothing more and nothing
    less.  No other header map is touched, and for a message without a
    header map the request's map is a new one. *)
Theorem Publish_request_contract q m opts σ r σ1 :
  wf_message σ m ->
  Publish_build q m opts σ = Ret (inr (r, σ1)) ->
  Method r = "POST"
  /\ URL r = Publisher.url q +:+ "/" +:+ Publisher.topic q
  /\ ReqBody r = Body m
  /\ (Headers m = None -> Header r = length (heap σ))
  /\ (forall l, l <> Header r -> (l < length (heap σ))%nat -> heap σ1 !! l = heap σ !! l)
  /\ exists hdr,
       heap σ1 !! Header r = Some hdr
       /\ standard_headers q (options_of opts) hdr
       /\ (forall k, k ∉ written_keys -> hdr !! k = caller_headers σ m !! k).
Proof.
  intros Hwf Hb.
  pose proof Hb as Hb'.
  apply Publish_build_inr in Hb' as (Hreq & Hv & Hc & Hr & Hh & _ & _); [|exact Hwf].
  rewrite Publish_build_eq, Hreq, Hv in Hb by exact Hwf.
  destruct (Publish_dedup _ _ _ _ _) as [[e|] σ0] eqn:Hd; [discriminate|].
  injection Hb as _ Hσ1.
  apply Publish_dedup_None in Hd as (_ & _ & _ & _ & Hother).
  subst r. cbn [built_request Method URL ReqBody Header] in *.
  split; [reflexivity|]. split; [reflexivity|]. split; [reflexivity|].
  split. { unfold request_loc. by intros ->. }
  split.
  { intros l Hl Hlt. rewrite <- Hσ1, Publish_headers_other by done.
    rewrite Hother by done. unfold after_NewRequest. cbn [heap set_heap].
    by rewrite lookup_app_l. }
  eexists. split; [exact Hh|]. split.
  - apply built_header_standard. by apply headers_valid_forwarded.
  - intros k Hk. unfold written_keys in Hk. apply not_elem_of_app in Hk as [Hs Hdk].
    rewrite headers_written_other by done. by rewrite dedup_written_other.
Qed.

(** X12.  For a request that can be constructed, valid caller headers and
    no deduplication conflict: [Publish] draws an identifier from the
    generator only for a message without an identifier published without
    content based deduplication, and then exactly one.  When the generator
    fails, [Publish] returns that error, the message unchanged, and the
    transport is not touched. *)
Theorem Publish_identifier_use q m opts σ :
  wf_message σ m ->
  NewRequest_error "POST" (Publisher.url q +:+ "/" +:+ Publisher.topic q) = None ->
  headers_valid σ m = true ->
  dedup_conflict m (options_of opts) = false ->
  if hasID m || PublishOptions.ContentBasedDeduplication (options_of opts) then
    exists r σ1, Publish_build q m opts σ = Ret (inr (r, σ1)) /\ uuids σ1 = uuids σ
  else
    match Publisher.uuid q (uuids σ) with
    | (_, Some err) =>
        exists σ',
          Publish q m opts σ = Ret (Some ("could not generate uuid " +:+ err), m, σ')
          /\ uuids σ' = S (uuids σ)
          /\ clientCalls σ' = clientCalls σ /\ sends σ' = sends σ
    | (_, None) =>
        exists r σ1, Publish_build q m opts σ = Ret (inr (r, σ1))
                     /\ uuids σ1 = S (uuids σ)
    end.
Proof.
  intros Hwf Hreq Hv Hc.
  assert (Hb : Publish_build q m opts σ = Publish_build q m opts σ) by reflexivity.
  rewrite Publish_build_eq in Hb at 2 by exact Hwf.
  rewrite Hreq, Hv in Hb.
  destruct (Publish_dedup q m (options_of opts) (built_request q m σ) (after_NewRequest σ))
    as [e σ0] eqn:Hd.
  pose proof (Publish_dedup_uuids _ _ _ _ _ _ _ Hd) as Hu.
  change (uuids (after_NewRequest σ)) with (uuids σ) in Hu.
  assert (Fu : uuids (Publish_headers q (options_of opts) (built_request q m σ) σ0)
               = uuids σ0) by apply Publish_headers_frame.
  destruct (hasID m || PublishOptions.ContentBasedDeduplication (options_of opts)) eqn:Hneed.
  - destruct e as [e|].
    + exfalso. unfold Publish_dedup in Hd. fold (hasID m) in Hd.
      unfold dedup_conflict in Hc. rewrite Hc in Hd.
      destruct (PublishOptions.ContentBasedDeduplication (options_of opts));
        [discriminate|].
      rewrite orb_false_r in Hneed. rewrite Hneed in Hd. discriminate.
    + eexists _, _. split; [exact Hb|]. by rewrite Fu.
  - unfold Publish_dedup in Hd. fold (hasID m) in Hd.
    apply orb_false_elim in Hneed as [Hid Hcbd]. rewrite Hid, Hcbd in Hd. cbn [andb] in Hd.
    change (uuids (after_NewRequest σ)) with (uuids σ) in Hd.
    destruct (Publisher.uuid q (uuids σ)) as [id [err|]].
    + injection Hd as <- <-.
      eexists. split; [by apply Publish_of_build_inl|]. repeat split.
    + injection Hd as <- <-.
      eexists _, _. split; [exact Hb|]. rewrite Fu. reflexivity.
Qed.

Lemma options_of_app (opts : list PublishOption) (o : PublishOption) :
  options_of (opts ++ [o]) = o (options_of opts).
Proof. unfold options_of, PublishOptions_apply. cbn [fst]. by rewrite fold_left_app. Qed.

(** X13.  [PublishWithDelay] publishes with the options given, except
    that its delay argument replaces any delay among them: the request
    carries [Upstash-Delay] with that delay when it is positive and no such
    header otherwise, and the retries header and the deduplication header
    the options ask for. *)
Theorem PublishWithDelay_overrides q m (delay : Z) opts σ r σ1 :
  wf_message σ m ->
  Publish_build q m (opts ++ [WithDelay delay]) σ = Ret (inr (r, σ1)) ->
  PublishWithDelay q m delay opts σ = Publish_send q m r σ1
  /\ exists hdr,
       heap σ1 !! Header r = Some hdr
       /\ hdr !! "Upstash-Delay"
          = (if delay >? 0 then Some [Duration_String delay] else None)
       /\ hdr !! "Upstash-Retries"
          = (if PublishOptions.Retries (options_of opts) >? 0
             then Some [Itoa (PublishOptions.Retries (options_of opts))] else None)
       /\ one_dedup_header (PublishOptions.ContentBasedDeduplication (options_of opts))
            (dedup_id q m σ) hdr.
Proof.
  intros Hwf Hb.
  split; [unfold PublishWithDelay; by apply Publish_of_build_inr|].
  apply Publish_build_inr in Hb as (_ & Hv & _ & _ & Hh & _ & _); [|exact Hwf].
  apply headers_valid_forwarded in Hv.
  assert (Hst : standard_headers q (options_of (opts ++ [WithDelay delay]))
                  (headers_written q (options_of (opts ++ [WithDelay delay]))
                     (dedup_written q m (options_of (opts ++ [WithDelay delay])) σ
                        (caller_headers σ m))))
    by (by apply built_header_standard).
  destruct Hst as (_ & _ & Hd & _ & Hr).
  assert (Hdd : one_dedup_header
                  (PublishOptions.ContentBasedDeduplication
                     (options_of (opts ++ [WithDelay delay])))
                  (dedup_id q m σ)
                  (headers_written q (options_of (opts ++ [WithDelay delay]))
                     (dedup_written q m (options_of (opts ++ [WithDelay delay])) σ
                        (caller_headers σ m))))
    by (by apply built_header_dedup).
  rewrite options_of_app in Hh, Hd, Hr, Hdd.
  eexists. split; [exact Hh|].
  split; [exact Hd|]. split; [exact Hr|]. exact Hdd.
Qed.

Lemma status_not_OK (code : Z) :
  isStatusOK code = false -> (code <? 200) || (code >? 299) = true.
Proof.
  unfold isStatusOK. intros H. apply andb_false_iff in H as [H|H].
  - apply orb_true_iff. left. lia.
  - apply orb_true_iff. right. lia.
Qed.

Lemma status_OK (code : Z) :
  isStatusOK code = true -> (code <? 200) || (code >? 299) = false.
Proof.
  unfold isStatusOK. intros H. apply andb_true_iff in H as [H1 H2].
  apply orb_false_iff. lia.
Qed.

(** X14.  A publisher on the retrying transport, with a retry count from 0
    to [maxInt64 - 2]: when every send of the request fails, [Publish]
    returns after exactly [Retries + 1] sends and as many sleeps, with the
    error of the last failure: the transport's error if there was one, the
    status and the body of the last response otherwise.  The message is
    unchanged. *)
Theorem Publish_fails_after_exhausted_retries q m opts σ r σ1 (c : httpClient)
    (fuel : nat) :
  Publisher.client q = httpClient_Do fuel c ->
  0 <= Retries c <= maxInt64 - 2 ->
  (Z.to_nat (Retries c) + 1 < fuel)%nat ->
  Publish_build q m opts σ = Ret (inr (r, σ1)) ->
  (forall n, send_fails (client c n r)) ->
  exists σ2 : World,
    Publish q m opts σ
    = Ret (Some (match client c (length (sends σ1) + Z.to_nat (Retries c))%nat r with
                 | (_, Some err) => "could not complete request " +:+ err
                 | (Some rsp, None) =>
                     "bad request status " +:+ Itoa (StatusCode rsp) +:+ ": "
                     +:+ content (RespBody rsp)
                 | (None, None) => EmptyString
                 end), m, σ2)
    /\ sends σ2 = sends σ1 ++ repeat r (Z.to_nat (Retries c + 1))
    /\ length (slept σ2) = (length (slept σ1) + Z.to_nat (Retries c + 1))%nat.
Proof.
  intros Hq HR Hfuel Hb Hfail. unfold maxInt64 in HR.
  assert (Hw : int64_wrap (Retries c + 1) = Retries c + 1)
    by (apply int64_wrap_small; lia).
  erewrite Publish_of_build_inr by exact Hb.
  unfold Publish_send. rewrite Hq. unfold httpClient_Do.
  rewrite (DoLoop_all_fail c r (Z.to_nat (Retries c + 1)));
    try assumption; try (unfold maxInt64; lia).
  replace (Z.to_nat (Retries c + 1)) with (S (Z.to_nat (Retries c))) by lia.
  cbn [sends log_clientCall].
  eexists.
  pose proof (Hfail (length (sends σ1) + Z.to_nat (Retries c))%nat) as Hlast.
  destruct (client c (length (sends σ1) + Z.to_nat (Retries c))%nat r)
    as [[rsp|] [err|]]; cbn [send_fails] in Hlast.
  - split; [reflexivity|].
    unfold after_failures; cbn [sends slept].
    rewrite length_app, length_map, length_seq. split; reflexivity.
  - rewrite (status_not_OK _ Hlast). split; [reflexivity|].
    unfold after_failures; cbn [sends slept].
    rewrite length_app, length_map, length_seq. split; reflexivity.
  - split; [reflexivity|].
    unfold after_failures; cbn [sends slept].
    rewrite length_app, length_map, length_seq. split; reflexivity.
  - contradiction.
Qed.

(** X15.  A publisher on the retrying transport: when the first [k] sends
    fail and send [k+1], one of the [Retries + 1] allowed, is answered with
    a status from 200 to 299 and a body that decodes, [Publish] returns no
    error after [k+1] sends and [k] sleeps, and the message has the
    identifier of the answer. *)
Theorem Publish_rides_out_failures q m opts σ r σ1 (c : httpClient) (fuel k : nat)
    (rsp : Response) (messageID : string) :
  Publisher.client q = httpClient_Do fuel c ->
  0 <= Retries c <= maxInt64 - 2 ->
  Z.of_nat k <= Retries c ->
  (k < fuel)%nat ->
  Publish_build q m opts σ = Ret (inr (r, σ1)) ->
  (forall n, (n < k)%nat -> send_fails (client c (length (sends σ1) + n)%nat r)) ->
  client c (length (sends σ1) + k)%nat r = (Some rsp, None) ->
  isStatusOK (StatusCode rsp) = true ->
  json_Decode_messageId (RespBody rsp) = inr messageID ->
  exists σ2 : World,
    Publish q m opts σ = Ret (None, set_ID messageID m, σ2)
    /\ sends σ2 = sends σ1 ++ repeat r (S k)
    /\ length (slept σ2) = (length (slept σ1) + k)%nat.
Proof.
  intros Hq HR Hk Hfuel Hb Hfail Hsucc Hok Hdec.
  erewrite Publish_of_build_inr by exact Hb.
  unfold Publish_send. rewrite Hq.
  rewrite (Do_after_failures c r _ fuel k rsp); try assumption.
  rewrite (status_OK _ Hok), Hdec.
  eexists. split; [reflexivity|].
  unfold after_failures, log_send, log_clientCall; cbn [sends slept].
  split.
  - rewrite <- app_assoc. f_equal.
    change [r] with (repeat r 1). rewrite <- repeat_app. f_equal. lia.
  - rewrite length_app, length_map, length_seq. reflexivity.
Qed.

(** X16.  A publisher on the retrying transport whose retry count is
    negative or [maxInt64], so that [Retries + 1] is below 1: [Do] returns
    a nil response and a nil error without sending anything, and [Publish]
    panics on the nil response. *)
Theorem Publish_panics_without_attempt q m opts σ r σ1 (c : httpClient) (fuel : nat) :
  Publisher.client q = httpClient_Do (S fuel) c ->
  int64_wrap (Retries c + 1) < 1 ->
  Publish_build q m opts σ = Ret (inr (r, σ1)) ->
  httpClient_Do (S fuel) c r σ1 = Ret ((None, None), σ1)
  /\ Publish q m opts σ = Panic.
Proof.
  intros Hq HR Hb. split; [by apply Do_without_attempt|].
  erewrite Publish_of_build_inr by exact Hb.
  unfold Publish_send. rewrite Hq.
  by rewrite Do_without_attempt.
Qed.


(** X18.  The errors of [Publish] are of seven kinds: the request could
    not be created, a header key lacks the forwarding prefix, the two
    deduplication strategies were combined, the generator failed, the
    transport failed, the answer had a status outside 200..299, the answer
    could not be decoded.  No call returns the error for bad options. *)
Theorem Publish_errors q m opts σ (e : error) m' σ' :
  wf_message σ m ->
  Publish q m opts σ = Ret (Some e, m', σ') ->
  ((exists e0, e = "could not create request " +:+ e0)
   \/ e = ErrHeaderPrefix
   \/ e = ErrDedupConflict
   \/ (exists e0, e = "could not generate uuid " +:+ e0)
   \/ (exists e0, e = "could not complete request " +:+ e0)
   \/ (exists code body, (code < 200 \/ 299 < code)
                         /\ e = "bad request status " +:+ Itoa code +:+ ": " +:+ body)
   \/ (exists e0, e = "could not decode response " +:+ e0))
  /\ forall e0, e <> "bad options: " +:+ e0.
Proof.
  intros Hwf HP.
  assert (Hcases :
    (exists e0, e = "could not create request " +:+ e0)
    \/ e = ErrHeaderPrefix
    \/ e = ErrDedupConflict
    \/ (exists e0, e = "could not generate uuid " +:+ e0)
    \/ (exists e0, e = "could not complete request " +:+ e0)
    \/ (exists code body, (code < 200 \/ 299 < code)
                          /\ e = "bad request status " +:+ Itoa code +:+ ": " +:+ body)
    \/ (exists e0, e = "could not decode response " +:+ e0)).
  { unfold Publish in HP.
    destruct (Publish_build q m opts σ) as [[[e1 σ0]|[r σ1]]| |] eqn:Hb; try discriminate.
    - injection HP as <- _ _.
      apply Publish_build_inl in Hb as [He _]; [|exact Hwf].
      unfold early_error in He.
      destruct (NewRequest_error _ _) as [e0|]; [left; by exists e0|].
      destruct (headers_valid σ m); [|by right; left].
      destruct (dedup_conflict m (options_of opts)); [by right; right; left|].
      destruct He as (e0 & _ & ->). right; right; right; left. by exists e0.
    - unfold Publish_send in HP.
      destruct (Publisher.client q r _) as [[[[rsp|] [err|]] σ2]| |];
        try discriminate.
      + injection HP as <- _ _. do 4 right. left. by exists err.
      + destruct ((StatusCode rsp <? 200) || (StatusCode rsp >? 299)) eqn:Hs.
        * injection HP as <- _ _. do 5 right. left.
          exists (StatusCode rsp), (content (RespBody rsp)).
          split; [|reflexivity]. apply orb_true_iff in Hs. lia.
        * destruct (json_Decode_messageId (RespBody rsp)) as [err|id];
            [|discriminate].
          injection HP as <- _ _. do 6 right. by exists err.
      + injection HP as <- _ _. do 4 right. left. by exists err. }
  split; [exact Hcases|].
  intros e0 He. unfold ErrHeaderPrefix, ErrDedupConflict in Hcases.
  destruct Hcases as [(x & ->)|[->|[->|[(x & ->)|[(x & ->)|[(c & b & _ & ->)|(x & ->)]]]]]];
    discriminate He.
Qed.

End PublishCoverage.

(** ** The verbose flag *)

Section VerboseFacts.
Variable Getenv : string -> string.
Variable http_Client : Z -> RoundTripper.
Variable rand_Reader : nat -> error + list Z.
Variable NewRequest_error : string -> string -> option error.
Variable Duration_String : Z -> string.
Variable json_Decode_messageId : ReadCloser -> error + string.

Local Abbreviation NewPublisher := (NewPublisher Getenv http_Client rand_Reader).
Local Abbreviation Publish := (Publish NewRequest_error Duration_String json_Decode_messageId).

(** X19.  [WithVerbose] sets the verbose flag of the publisher and changes
    nothing else: [NewPublisher] fails with it exactly as without it, and
    [Publish] on the two publishers does the same, the flag is not read. *)
Theorem Publish_ignores_verbose (fuel : nat) (topic : string) (opts : list PublisherOption) :
  match NewPublisher fuel topic opts, NewPublisher fuel topic (opts ++ [WithVerbose]) with
  | inr q, inr q' =>
      Publisher.verbose q' = true
      /\ forall m popts σ, Publish q' m popts σ = Publish q m popts σ
  | inl e, inl e' => e = e'
  | _, _ => False
  end.
Proof.
  set (os := fold_left (fun acc (opt : PublisherOptions.t -> PublisherOptions.t) => opt acc)
               (defaultPublisherOptions Getenv ++ opts) PublisherOptions.zero).
  assert (E1 : fold_left (fun acc (opt : PublisherOptions.t -> PublisherOptions.t) => opt acc)
                 (defaultPublisherOptions Getenv ++ opts ++ [withTopic topic])
                 PublisherOptions.zero
               = withTopic topic os)
    by (by rewrite app_assoc, fold_left_app).
  assert (E2 : fold_left (fun acc (opt : PublisherOptions.t -> PublisherOptions.t) => opt acc)
                 (defaultPublisherOptions Getenv ++ (opts ++ [WithVerbose]) ++ [withTopic topic])
                 PublisherOptions.zero
               = withTopic topic (WithVerbose os))
    by (by rewrite !app_assoc, !fold_left_app).
  unfold NewPublisher, PublisherOptions_apply. cbv zeta. rewrite E1, E2.
  destruct os as [u t c v tp].
  unfold withTopic, WithVerbose;
    cbn [PublisherOptions.QStashURL PublisherOptions.QStashToken PublisherOptions.Client
         PublisherOptions.Verbose PublisherOptions.topic].
  repeat match goal with
  | |- context [if ?b then _ else _] => destruct b
  end; try reflexivity.
  split; reflexivity.
Qed.

End VerboseFacts.

(** ** The receiver, as a whole *)

Lemma VerifyIssuer_iff (claims : gmap string jwt.value) :
  jwt.VerifyIssuer claims "Upstash" true = true
  <-> claims !! "iss" = Some (jwt.VString "Upstash").
Proof.
  unfold jwt.VerifyIssuer, jwt.verifyIss.
  destruct (claims !! "iss") as [[s|n|]|]; cbn;
    try (split; [discriminate|congruence]).
  destruct (String.eqb_spec s EmptyString) as [->|Hne].
  - cbn. split; [discriminate|]. intros [= ?].
  - rewrite String.eqb_eq. split; [by intros ->|by intros [= ->]].
Qed.

Lemma VerifyExpiresAt_iff (claims : gmap string jwt.value) (now : Z) :
  jwt.VerifyExpiresAt claims now true = true
  <-> exists exp, claims !! "exp" = Some (jwt.VNumber exp) /\ exp <> 0 /\ now <= exp.
Proof.
  unfold jwt.VerifyExpiresAt, jwt.verifyExp.
  destruct (claims !! "exp") as [[s|exp|]|]; cbn;
    try (split; [discriminate|by intros (? & [= ?] & _)]).
  destruct (Z.eqb_spec exp 0) as [->|Hne]; cbn.
  - split; [discriminate|]. intros (? & [= <-] & ? & _). lia.
  - rewrite Z.leb_le. split; [by eauto|]. by intros (? & [= <-] & _ & ?).
Qed.

Lemma VerifyNotBefore_iff (claims : gmap string jwt.value) (now : Z) :
  jwt.VerifyNotBefore claims now true = true <-> nbf_in_the_past claims now.
Proof.
  unfold jwt.VerifyNotBefore, jwt.verifyNbf, nbf_in_the_past.
  destruct (claims !! "nbf") as [[s|nbf|]|]; cbn;
    try (split; [discriminate|by intros (? & [= ?] & _)]).
  destruct (Z.eqb_spec nbf 0) as [->|Hne]; cbn.
  - split; [discriminate|]. intros (? & [= <-] & ? & _). lia.
  - rewrite Z.geb_le. split; [by eauto|]. by intros (? & [= <-] & _ & ?).
Qed.

Lemma VerifyNotBefore_required (claims : gmap string jwt.value) (now : Z) :
  jwt.VerifyNotBefore claims now true = true ->
  jwt.VerifyNotBefore claims now false = true.
Proof.
  unfold jwt.VerifyNotBefore, jwt.verifyNbf.
  destruct (claims !! "nbf") as [[s|nbf|]|]; cbn; try done.
  by destruct (nbf =? 0).
Qed.

Lemma VerifyIssuedAt_iff (claims : gmap string jwt.value) (now : Z) :
  jwt.VerifyIssuedAt claims now false = true
  <-> (claims !! "iat" = None
       \/ exists iat, claims !! "iat" = Some (jwt.VNumber iat) /\ (iat = 0 \/ iat <= now)).
Proof.
  unfold jwt.VerifyIssuedAt, jwt.verifyIat.
  destruct (claims !! "iat") as [[s|iat|]|]; cbn.
  - split; [discriminate|]. intros [?|(? & ? & _)]; discriminate.
  - destruct (Z.eqb_spec iat 0) as [->|Hne]; cbn.
    + split; [|done]. intros _. right. exists 0. split; [done|by left].
    + rewrite Z.geb_le. split.
      * intros H. right. exists iat. split; [done|by right].
      * intros [?|(? & [= <-] & [?|?])]; [discriminate|lia|assumption].
  - split; [discriminate|]. intros [?|(? & ? & _)]; discriminate.
  - split; [by left|done].
Qed.

Lemma MapClaims_Valid_iff (claims : gmap string jwt.value) (now : Z) :
  jwt.MapClaims_Valid claims now = None
  <-> jwt.VerifyExpiresAt claims now false = true
      /\ jwt.VerifyIssuedAt claims now false = true
      /\ jwt.VerifyNotBefore claims now false = true.
Proof.
  unfold jwt.MapClaims_Valid.
  destruct (jwt.VerifyExpiresAt claims now false),
    (jwt.VerifyIssuedAt claims now false), (jwt.VerifyNotBefore claims now false);
    split; try done; intros (? & ? & ?); discriminate.
Qed.

Section ReceiveCoverage.
Variable jwt_decode : string -> error + jwt.Token.
Variable jwt_Verify : jwt.SigningMethod -> string -> string -> string -> option error.

Local Abbreviation verify := (verify jwt_decode jwt_Verify).
Local Abbreviation Receive := (Receive jwt_decode jwt_Verify).

(** [verify] on a token that decodes and names an HMAC: the checks, in the
    order in which a failure is reported. *)
Lemma verify_HMAC body tokenString signingKey now token alg :
  jwt_decode tokenString = inr token ->
  jwt.Method token = jwt.SigningMethodHMAC alg ->
  verify body tokenString signingKey now = None
  <-> jwt_Verify (jwt.Method token) (jwt.SigningString token) (jwt.Signature token)
        signingKey = None
      /\ jwt.MapClaims_Valid (jwt.Claims token) now = None
      /\ jwt.VerifyIssuer (jwt.Claims token) "Upstash" true = true
      /\ jwt.VerifyExpiresAt (jwt.Claims token) now true = true
      /\ jwt.VerifyNotBefore (jwt.Claims token) now true = true
      /\ body_claim_is (jwt.Claims token) (digest body) = true.
Proof.
  intros Hdec Hm. unfold verify, jwt.Parse, keyFunc, digest. rewrite Hdec, Hm.
  rewrite <- Hm.
  destruct (jwt_Verify _ _ _ _) as [e|]; [split; [discriminate|by intros [? _]]|].
  destruct (jwt.MapClaims_Valid _ _) as [e|]; [split; [discriminate|by intros (_ & ? & _)]|].
  cbn [jwt.set_Valid jwt.Valid jwt.Claims negb].
  destruct (jwt.VerifyIssuer _ _ _); cbn [negb];
    [|split; [discriminate|by intros (_ & _ & ? & _)]].
  destruct (jwt.VerifyExpiresAt _ _ _); cbn [negb];
    [|split; [discriminate|by intros (_ & _ & _ & ? & _)]].
  destruct (jwt.VerifyNotBefore _ _ _); cbn [negb];
    [|split; [discriminate|by intros (_ & _ & _ & _ & ? & _)]].
  destruct (body_claim_is _ _); cbn [negb];
    [|split; [discriminate|by intros (_ & _ & _ & _ & _ & ?)]].
  done.
Qed.

Lemma verify_other_algorithm body tokenString signingKey now token alg :
  jwt_decode tokenString = inr token ->
  jwt.Method token = jwt.SigningMethodOther alg ->
  verify body tokenString signingKey now
  = Some ("could not parse jwt: unexpected signing method: " +:+ alg).
Proof.
  intros Hdec Hm. unfold verify, jwt.Parse, keyFunc. by rewrite Hdec, Hm.
Qed.

(** X20.  [verify] accepts a token for a body under a key exactly when the
    token decodes, its algorithm is an HMAC, its signature verifies under
    the key, and its claims are acceptable: issuer Upstash, an expiry that
    is not 0 and not before now, a not-before that is not 0 and not after
    now, an issued-at that is absent, 0 or not after now, and a body claim
    equal to the URL-safe base64 encoding of the SHA-256 digest of the
    body. *)
Theorem verify_accepts_iff body tokenString signingKey now :
  verify body tokenString signingKey now = None
  <-> exists token alg,
        jwt_decode tokenString = inr token
        /\ jwt.Method token = jwt.SigningMethodHMAC alg
        /\ jwt_Verify (jwt.Method token) (jwt.SigningString token) (jwt.Signature token)
             signingKey = None
        /\ acceptable_claims (jwt.Claims token) body now.
Proof.
  unfold acceptable_claims. split.
  - intros Hv.
    destruct (jwt_decode tokenString) as [e|token] eqn:Hdec.
    { unfold verify, jwt.Parse in Hv. rewrite Hdec in Hv. discriminate. }
    destruct (jwt.Method token) as [alg|alg] eqn:Hm.
    2:{ erewrite verify_other_algorithm in Hv by eassumption. discriminate. }
    pose proof (proj1 (verify_HMAC body tokenString signingKey now token alg Hdec Hm) Hv)
      as (Hs & Hval & Hi & He & Hn & Hb).
    apply MapClaims_Valid_iff in Hval as (_ & Hiat & _).
    exists token, alg. rewrite <- Hm. repeat split; try done.
    + by apply VerifyIssuer_iff.
    + by apply VerifyExpiresAt_iff.
    + by apply VerifyNotBefore_iff.
    + by apply VerifyIssuedAt_iff.
    + by apply body_claim_is_spec.
  - intros (token & alg & Hdec & Hm & Hs & Hi & He & Hn & Hiat & Hb).
    apply (proj2 (verify_HMAC body tokenString signingKey now token alg Hdec Hm)).
    apply VerifyIssuer_iff in Hi. apply VerifyExpiresAt_iff in He.
    apply VerifyNotBefore_iff in Hn. apply VerifyIssuedAt_iff in Hiat.
    apply body_claim_is_spec in Hb.
    repeat split; try done.
    apply MapClaims_Valid_iff. repeat split; try done.
    + by apply VerifyExpiresAt_required.
    + by apply VerifyNotBefore_required.
Qed.

(** X21.  A request whose token names an algorithm that is not an HMAC is
    answered with 401 and the message that names the algorithm, whatever
    the keys, the claims and the signature; the callback is not run. *)
Theorem Receive_rejects_other_algorithms q onReceive r now1 now2 σ header token alg :
  readErr (InBody r) = None ->
  heap σ !! InHeader r = Some header ->
  jwt_decode (Header_Get "Upstash-Signature" header) = inr token ->
  jwt.Method token = jwt.SigningMethodOther alg ->
  Receive q onReceive r now1 now2 σ
  = Ret (None,
         log_written
           (http_Error ("could not parse jwt: unexpected signing method: " +:+ alg)
              StatusUnauthorized) σ).
Proof.
  intros Hr Hh Hdec Hm.
  eapply Receive_both_fail; try eassumption;
    by eapply verify_other_algorithm.
Qed.

Lemma status_of_app (a b : list WriterCall) :
  status_of (a ++ b) = match status_of a with Some code => Some code | None => status_of b end.
Proof. destruct a as [|[code|data] a]; reflexivity. Qed.

(** X22.  On a fresh response, for a request whose header map exists and
    any callback.  When the body cannot be read the handler answers 500.
    When it can and the token fails under the current key, the handler
    answers 401, whatever the token does under the next key and whatever
    the callback is.  In both cases no header map is touched.  When the
    token verifies under the current key the callback is run: if it panics
    or does not return, neither does the handler; if it returns, the
    handler touches no header map, and the status of the response is that
    of the first write the callback caused (the 200 of an [Ack]), and 422
    when it caused none and left the flag unset. *)
Theorem Receive_answers q onReceive r now1 now2 σ header :
  heap σ !! InHeader r = Some header ->
  written σ = [] ->
  (forall e, readErr (InBody r) = Some e ->
     exists σ', Receive q onReceive r now1 now2 σ = Ret (None, σ')
                /\ status_of (written σ') = Some 500 /\ heap σ' = heap σ)
  /\ (forall e,
        readErr (InBody r) = None ->
        verify (content (InBody r)) (Header_Get "Upstash-Signature" header)
          (signingKey q) now1 = Some e ->
        exists σ', Receive q onReceive r now1 now2 σ = Ret (None, σ')
                   /\ status_of (written σ') = Some 401 /\ heap σ' = heap σ)
  /\ (readErr (InBody r) = None ->
      verify (content (InBody r)) (Header_Get "Upstash-Signature" header)
        (signingKey q) now1 = None ->
      match callback_outcome onReceive (received_message r header) σ with
      | Ret (m1, σ1) =>
          exists σ', Receive q onReceive r now1 now2 σ = Ret (Some m1, σ')
                     /\ heap σ' = heap σ1
                     /\ status_of (written σ')
                        = match status_of (written σ1) with
                          | Some code => Some code
                          | None => if isAcknowledged m1 then None else Some 422
                          end
      | Panic => Receive q onReceive r now1 now2 σ = Panic
      | OutOfFuel => Receive q onReceive r now1 now2 σ = OutOfFuel
      end).
Proof.
  intros Hh Hw. split; [|split].
  - intros e Hr. unfold Receive. rewrite Hr. eexists. split; [reflexivity|].
    cbn [written log_written heap]. rewrite Hw. split; reflexivity.
  - intros e1 Hr Hv1.
    destruct (verify (content (InBody r)) (Header_Get "Upstash-Signature" header)
                (nextSigningKey q) now2) as [e2|] eqn:Hv2.
    + erewrite Receive_both_fail by eassumption.
      eexists. split; [reflexivity|].
      cbn [written log_written heap]. rewrite Hw. split; reflexivity.
    + unfold Receive. rewrite Hr, Hh, Hv1, Hv2.
      eexists. split; [reflexivity|].
      cbn [written log_written heap]. rewrite Hw. split; reflexivity.
  - intros Hr Hv1. erewrite Receive_verified by eassumption.
    destruct (callback_outcome onReceive (received_message r header) σ)
      as [[m1 σ1]| |]; try reflexivity.
    destruct (isAcknowledged m1); cbn [negb].
    + eexists. split; [reflexivity|]. split; [reflexivity|].
      by destruct (status_of (written σ1)).
    + eexists. split; [reflexivity|]. split; [reflexivity|].
      cbn [written log_written]. rewrite status_of_app. reflexivity.
Qed.

End ReceiveCoverage.

(** ** Worked instances *)

Lemma C3_one_deduplication_strategy_witness :
  let custom := mkMessage "custom-deduplication-id" None "message" 0 None false in
  let plain := mkMessage EmptyString None "message" 0 None false in
  (exists e σ',
     testPublish testPublisher custom [WithContentBasedDeduplication] emptyWorld
     = Ret (Some e, custom, σ')
     /\ is_validation_error e
     /\ clientCalls σ' = [] /\ sends σ' = [])
  /\ (exists r σ1 hdr,
        Publish_build test_NewRequest_error test_Duration_String testPublisher custom []
          emptyWorld = Ret (inr (r, σ1))
        /\ heap σ1 !! Header r = Some hdr
        /\ hdr !! "Upstash-Deduplication-Id" = Some ["custom-deduplication-id"]
        /\ hdr !! "Upstash-Content-Based-Deduplication" = None)
  /\ (exists r σ1 hdr,
        Publish_build test_NewRequest_error test_Duration_String testPublisher plain []
          emptyWorld = Ret (inr (r, σ1))
        /\ heap σ1 !! Header r = Some hdr
        /\ hdr !! "Upstash-Deduplication-Id" = Some ["uuid"]
        /\ hdr !! "Upstash-Content-Based-Deduplication" = None)
  /\ (exists r σ1 hdr,
        Publish_build test_NewRequest_error test_Duration_String testPublisher plain
          [WithContentBasedDeduplication] emptyWorld = Ret (inr (r, σ1))
        /\ heap σ1 !! Header r = Some hdr
        /\ hdr !! "Upstash-Content-Based-Deduplication" = Some ["true"]
        /\ hdr !! "Upstash-Deduplication-Id" = None).
Proof.
  intros custom plain.
  assert (Hwf : forall m, Headers m = None -> wf_message emptyWorld m)
    by (intros m Hm l Hl; rewrite Hm in Hl; discriminate Hl).
  split; [|split; [|split]].
  - exact (C3_one_deduplication_strategy test_NewRequest_error test_Duration_String
             test_json_Decode testPublisher custom [WithContentBasedDeduplication]
             emptyWorld eq_refl (Hwf custom eq_refl)).
  - destruct (C3_one_deduplication_strategy test_NewRequest_error test_Duration_String
                test_json_Decode testPublisher custom [] emptyWorld eq_refl
                (Hwf custom eq_refl))
      as (r & σ1 & hdr & Hb & _ & _ & _ & Hh & Hid & Hcbd).
    exists r, σ1, hdr. split; [exact Hb|]. split; [exact Hh|]. split.
    + exact (Hid "Upstash-Deduplication-Id" eq_refl).
    + exact (Hcbd "Upstash-Content-Based-Deduplication" eq_refl).
  - destruct (C3_one_deduplication_strategy test_NewRequest_error test_Duration_String
                test_json_Decode testPublisher plain [] emptyWorld eq_refl
                (Hwf plain eq_refl))
      as (r & σ1 & hdr & Hb & _ & _ & _ & Hh & Hid & Hcbd).
    exists r, σ1, hdr. split; [exact Hb|]. split; [exact Hh|]. split.
    + exact (Hid "Upstash-Deduplication-Id" eq_refl).
    + exact (Hcbd "Upstash-Content-Based-Deduplication" eq_refl).
  - destruct (C3_one_deduplication_strategy test_NewRequest_error test_Duration_String
                test_json_Decode testPublisher plain [WithContentBasedDeduplication]
                emptyWorld eq_refl (Hwf plain eq_refl))
      as (r & σ1 & hdr & Hb & _ & _ & _ & Hh & Hcbd & Hid).
    exists r, σ1, hdr. split; [exact Hb|]. split; [exact Hh|]. split.
    + exact (Hcbd "Upstash-Content-Based-Deduplication" eq_refl).
    + exact (Hid "Upstash-Deduplication-Id" eq_refl).
Defined.

(** C3, the claim as written fails: when [http.NewRequest] rejects the
    URL, a message with its own identifier published with content based
    deduplication gets the error of the request construction, which is
    not a validation error. *)
Lemma C3_conflict_on_a_bad_url_is_no_validation_error :
  let q := Publisher.mk "token" "url" "%zz" mockClient mockUUID false in
  let m := mkMessage "custom-deduplication-id" None "message" 0 None false in
  dedup_conflict m (options_of [WithContentBasedDeduplication]) = true
  /\ Publish strict_NewRequest_error test_Duration_String test_json_Decode q m
       [WithContentBasedDeduplication] emptyWorld
     = Ret (Some ("could not create request " +:+ badEscape), m, emptyWorld)
  /\ ~ is_validation_error ("could not create request " +:+ badEscape).
Proof.
  intros q m. split; [reflexivity|]. split; [reflexivity|].
  intros [H|H]; vm_compute in H; discriminate H.
Qed.

Lemma C8_response_handling_witness :
  exists m' σ',
    testPublish testPublisher (mkMessage "" None "message" 0 None false) [] emptyWorld
    = Ret (None, m', σ')
    /\ ID m' = "mock-id".
Proof.
  edestruct (C8_response_handling test_NewRequest_error test_Duration_String
               test_json_Decode testPublisher
               (mkMessage "" None "message" 0 None false) [] emptyWorld)
    as [_ Hin].
  - vm_compute. reflexivity.
  - vm_compute. reflexivity.
  - cbn [StatusCode RespBody] in Hin.
    assert (Hrange : 200 <= 200 <= 299) by lia.
    specialize (Hin Hrange). vm_compute test_json_Decode in Hin.
    destruct Hin as (m' & HP & Hid & _).
    exists m'. eexists. split; [exact HP | exact Hid].
Defined.

Lemma C9_header_prefix_validation_witness :
  let m := mkMessage "" (Some 0%nat) "message" 0 None false in
  Headers m = Some 0%nat
  /\ heap (world_with badHeaders) !! 0%nat = Some badHeaders
  /\ exists σ',
       testPublish testPublisher m [] (world_with badHeaders)
       = Ret (Some ErrHeaderPrefix, m, σ')
       /\ clientCalls σ' = [] /\ sends σ' = [].
Proof.
  intros m. split; [reflexivity|]. split; [reflexivity|].
  apply (proj1 (C9_header_prefix_validation test_NewRequest_error test_Duration_String
                  test_json_Decode testPublisher m [] (world_with badHeaders)
                  0%nat badHeaders eq_refl eq_refl)).
  split; [reflexivity|].
  exists "key". split; [exists ["value"]|]; reflexivity.
Defined.



Lemma C4_body_hash_binding_witness :
  other_checks_pass test_decode test_Verify "signed-with-current" "current-key" 1500 = true
  /\ test_verify "hello" "signed-with-current" "current-key" 1500 = None
  /\ test_verify "hullo" "signed-with-current" "current-key" 1500
     = Some "body hash does not match".
Proof.
  assert (Hpass : other_checks_pass test_decode test_Verify "signed-with-current"
                    "current-key" 1500 = true) by (vm_compute; reflexivity).
  destruct (C4_body_hash_binding test_decode test_Verify "hello" "signed-with-current"
              "current-key" 1500 Hpass) as (Hiff & _ & Hother).
  split; [exact Hpass|]. split.
  - apply Hiff. vm_compute. reflexivity.
  - apply Hother; [vm_compute; reflexivity | vm_compute; discriminate].
Defined.

Lemma C7_not_before_is_required_witness :
  test_verify "hello" "signed-with-current" "current-key" 1500 = None.
Proof.
  apply (proj1 (C7_not_before_is_required test_decode test_Verify "hello"
                  "signed-with-current" "current-key" 1500
                  (test_token "current-key" "hello" (Some 1000)) "HS256"
                  eq_refl eq_refl eq_refl eq_refl eq_refl eq_refl eq_refl)).
  exists 1000. split; [reflexivity|]. split; [discriminate | lia].
Defined.

(** C7, the claim as written fails: a token that has no not-before claim
    and passes every other check is rejected. *)
Lemma C7_absent_not_before_is_rejected :
  let token := test_token "current-key" "hello" None in
  test_decode "signed-with-current-no-nbf" = inr token
  /\ jwt.Method token = jwt.SigningMethodHMAC "HS256"
  /\ jwt.Claims token !! "nbf" = None
  /\ test_Verify (jwt.Method token) (jwt.SigningString token) (jwt.Signature token)
       "current-key" = None
  /\ jwt.VerifyIssuer (jwt.Claims token) "Upstash" true = true
  /\ jwt.VerifyExpiresAt (jwt.Claims token) 1500 true = true
  /\ jwt.Claims token !! "body" = Some (jwt.VString (digest "hello"))
  /\ test_verify "hello" "signed-with-current-no-nbf" "current-key" 1500
     = Some "token is not valid yet".
Proof. vm_compute. repeat split. Qed.

Lemma C1_next_key_success_still_401_witness :
  let σ := world_with (inbound_header "signed-with-next") in
  test_verify "hello" "signed-with-next" "current-key" 1500
  = Some "could not parse jwt: signature is invalid"
  /\ test_verify "hello" "signed-with-next" "next-key" 1500 = None
  /\ test_Receive testReceiver (Some Ack) inbound 1500 1500 σ
     = Ret (None,
            log_written
              (http_Error "could not parse jwt: signature is invalid" StatusUnauthorized) σ).
Proof.
  intros σ.
  assert (H1 : test_verify "hello" "signed-with-next" "current-key" 1500
               = Some "could not parse jwt: signature is invalid")
    by (vm_compute; reflexivity).
  assert (H2 : test_verify "hello" "signed-with-next" "next-key" 1500 = None)
    by (vm_compute; reflexivity).
  split; [exact H1|]. split; [exact H2|].
  exact (proj1 (C1_next_key_success_still_401 test_decode test_Verify testReceiver
                  (Some Ack) inbound 1500 1500 σ
                  (inbound_header "signed-with-next")
                  "could not parse jwt: signature is invalid"
                  eq_refl eq_refl H1 H2)).
Defined.

Lemma C6_ack_or_unprocessable_witness :
  let σ := world_with (inbound_header "signed-with-current") in
  (exists m',
     test_Receive testReceiver (Some Ack) inbound 1500 1500 σ
     = Ret (Some m', log_written [WriteHeader StatusOK] σ)
     /\ isAcknowledged m' = true
     /\ status_of (written (log_written [WriteHeader StatusOK] σ)) = Some 200)
  /\ (exists m',
        test_Receive testReceiver None inbound 1500 1500 σ
        = Ret (Some m', log_written unacknowledged σ)
        /\ isAcknowledged m' = false
        /\ status_of (written (log_written unacknowledged σ)) = Some 422).
Proof.
  intros σ.
  assert (Hv : test_verify "hello" "signed-with-current" "current-key" 1500 = None)
    by (vm_compute; reflexivity).
  split.
  - destruct (C6_ack_or_unprocessable test_decode test_Verify testReceiver
                (Some (then_Ack (fun m σ0 => Ret (m, σ0)))) inbound 1500 1500 σ
                (inbound_header "signed-with-current") eq_refl eq_refl Hv)
      as (_ & _ & Hack & _).
    destruct (Hack (fun m σ0 => Ret (m, σ0)) _ σ eq_refl eq_refl eq_refl)
      as (m' & HR & Hflag & Hst).
    exists m'. split; [exact HR|]. split; [exact Hflag|]. exact (Hst eq_refl).
  - destruct (C6_ack_or_unprocessable test_decode test_Verify testReceiver
                None inbound 1500 1500 σ
                (inbound_header "signed-with-current") eq_refl eq_refl Hv)
      as (_ & _ & _ & Hnil).
    eexists. split; [exact (Hnil eq_refl)|]. split; reflexivity.
Defined.

(** C6, the claim as written fails: the callback
    [m.Ack(); *m = qstash.Message{}] calls [Ack], which writes 200, and
    yet the handler writes the 422 answer after it, because the flag it
    looks at is no longer set; the status of the response is the 200. *)
Lemma C6_acknowledged_and_still_422_written :
  let σ := world_with (inbound_header "signed-with-current") in
  test_verify "hello" "signed-with-current" "current-key" 1500 = None
  /\ exists m' σ',
       test_Receive testReceiver (Some ackThenOverwrite) inbound 1500 1500 σ
       = Ret (Some m', σ')
       /\ isAcknowledged m' = false
       /\ written σ' = WriteHeader 200 :: unacknowledged
       /\ status_of (written σ') = Some 200.
Proof.
  intros σ. split; [vm_compute; reflexivity|].
  vm_compute. eexists _, _. repeat split.
Qed.

Lemma C5_Do_exhausts_retries_witness :
  let c := defaultClient failingRoundTripper in
  0 <= Retries c <= maxInt64 - 2
  /\ exists σ',
       httpClient_Do 8 c someRequest emptyWorld
       = Ret ((None, Some "connection refused"), σ')
       /\ length (sends σ') = 6%nat
       /\ slept σ' = [400 * Millisecond; 800 * Millisecond; Second; Second; Second; Second].
Proof.
  intros c.
  assert (HR : 0 <= Retries c <= maxInt64 - 2) by (vm_compute; split; discriminate).
  split; [exact HR|].
  destruct (C5_Do_exhausts_retries c someRequest emptyWorld 8 HR) as (σ' & HD & _ & Hn & Hs).
  - intros n. exact I.
  - vm_compute. lia.
  - exists σ'. split; [exact HD|]. split; [exact Hn | exact Hs].
Defined.

(** C5, the claim as written fails: [NewPublisher] accepts a retry count
    of [maxInt64]; [Retries + 1] then wraps around to the smallest [int],
    and on a wrapped client whose every attempt fails [Do] sends nothing
    and returns a nil response and a nil error. *)
Lemma C5_no_send_when_Retries_is_maxInt64 :
  let c := mkHttpClient failingRoundTripper Second (200 * Millisecond) maxInt64 in
  (exists q, test_NewPublisher 1 "topic" [WithClientRetries maxInt64] = inr q
             /\ Publisher.client q = httpClient_Do 1 c)
  /\ (forall n, send_fails (client c n someRequest))
  /\ httpClient_Do 1 c someRequest emptyWorld = Ret ((None, None), emptyWorld)
  /\ sends emptyWorld = [].
Proof.
  intros c. split; [eexists; split; reflexivity|].
  split; [intros n; exact I|]. split; reflexivity.
Qed.

Lemma C2_backoff_schedule_witness :
  let c := defaultClient failingRoundTripper in
  0 < MinBackOff c <= MaxBackOff c
  /\ MaxBackOff c < 2 ^ 62
  /\ getExponentialBackOffDuration c 2 = 800 * Millisecond
  /\ getExponentialBackOffDuration c 3 = Second.
Proof.
  intros c.
  assert (H1 : 0 < MinBackOff c <= MaxBackOff c) by (vm_compute; split; [reflexivity|discriminate]).
  assert (H2 : MaxBackOff c < 2 ^ 62) by reflexivity.
  split; [exact H1|]. split; [exact H2|]. split.
  - destruct (C2_backoff_schedule c 2 H1 H2) as [H _]; [lia|]. rewrite H. reflexivity.
  - destruct (C2_backoff_schedule c 3 H1 H2) as [H _]; [lia|]. rewrite H. reflexivity.
Defined.

(** C2, the claim as written fails: with the default policy the delay
    before the first retry is 400ms, twice [MinBackOff]. *)
Lemma C2_first_delay_is_not_MinBackOff :
  let c := defaultClient failingRoundTripper in
  0 < MinBackOff c <= MaxBackOff c
  /\ getExponentialBackOffDuration c 1 = 400 * Millisecond
  /\ getExponentialBackOffDuration c 1 <> MinBackOff c
  /\ getExponentialBackOffDuration c 1
     <> Z.min (MinBackOff c * 2 ^ (1 - 1)) (MaxBackOff c).
Proof. vm_compute. repeat split; discriminate. Qed.

(** C9, the claim as written fails: a message whose header keys all carry
    the prefix, sent with its own identifier and content based
    deduplication, is rejected with a validation error before the
    transport is touched. *)
Lemma C9_validation_error_without_bad_key :
  let m := mkMessage "custom-deduplication-id" (Some 0%nat) "message" 0 None false in
  (exists e σ',
     testPublish testPublisher m [WithContentBasedDeduplication]
       (world_with forwardHeaders)
     = Ret (Some e, m, σ')
     /\ is_validation_error e
     /\ clientCalls σ' = [] /\ sends σ' = [])
  /\ ~ (exists k, is_Some (forwardHeaders !! k) /\ hasForwardPrefix k = false).
Proof.
  intros m. split.
  - exists ErrDedupConflict. eexists. split; [vm_compute; reflexivity|].
    split; [by right|]. split; reflexivity.
  - intros (k & Hk & Hbad).
    assert (Hall : forallb hasForwardPrefix (header_keys forwardHeaders) = true)
      by (vm_compute; reflexivity).
    rewrite forallb_header_keys in Hall. rewrite (Hall k Hk) in Hbad. discriminate.
Qed.

(** ** Worked instances of the further properties *)

Lemma Do_stops_at_first_success_witness :
  let c := defaultClient flakyRoundTripper in
  0 <= Retries c <= maxInt64 - 2
  /\ exists σ',
       httpClient_Do 8 c someRequest emptyWorld
       = Ret ((Some (mkResponse 200 (mkReadCloser mockBody None)), None), σ')
       /\ sends σ' = [someRequest; someRequest; someRequest]
       /\ slept σ' = [400 * Millisecond; 800 * Millisecond].
Proof.
  intros c.
  assert (HR : 0 <= Retries c <= maxInt64 - 2) by (vm_compute; split; discriminate).
  split; [exact HR|].
  destruct (Do_stops_at_first_success c someRequest emptyWorld 8 2
              (mkResponse 200 (mkReadCloser mockBody None)) HR)
    as (σ' & HD & Hs & Hsl & _).
  - vm_compute. discriminate.
  - intros [|[|n]] Hn; [exact I | exact I | lia].
  - reflexivity.
  - reflexivity.
  - lia.
  - exists σ'. split; [exact HD|]. split; [exact Hs | exact Hsl].
Defined.

Lemma Do_returns_the_last_answer_witness :
  let c := defaultClient flakyRoundTripper in
  exists res σ' n,
    httpClient_Do 8 c someRequest emptyWorld = Ret (res, σ')
    /\ (n <= 5)%nat
    /\ sends σ' = repeat someRequest (S n)
    /\ res = flakyRoundTripper n someRequest.
Proof.
  intros c.
  assert (HR : 0 <= Retries c <= maxInt64 - 2) by (vm_compute; split; discriminate).
  assert (HD : exists res σ', httpClient_Do 8 c someRequest emptyWorld = Ret (res, σ'))
    by (vm_compute; eexists _, _; reflexivity).
  destruct HD as (res & σ' & HD).
  destruct (Do_returns_the_last_answer c someRequest emptyWorld 8 res σ' HR HD)
    as (n & Hn & Hs & Hres & _).
  exists res, σ', n. split; [exact HD|]. split; [exact Hn|]. split; [exact Hs | exact Hres].
Defined.

Lemma Do_never_returns_witness :
  let c := mkHttpClient failingRoundTripper Second (200 * Millisecond) (maxInt64 - 1) in
  Retries c = maxInt64 - 1
  /\ httpClient_Do 1000 c someRequest emptyWorld = OutOfFuel.
Proof.
  intros c. split; [reflexivity|].
  apply (Do_never_returns c someRequest emptyWorld 1000); [reflexivity|].
  intros n. exact I.
Defined.

Lemma countingBytes_bytes : Forall is_byte countingBytes.
Proof.
  unfold countingBytes. cbn [map seq].
  repeat (constructor; [unfold is_byte; lia|]). constructor.
Qed.

Lemma NewV4_format_witness :
  length countingBytes = 16%nat
  /\ exists id,
       uuid.NewV4 (inr countingBytes) = (id, None)
       /\ (14 <= String.length id <= 22)%nat
       /\ all_bytes is_alnum id = true.
Proof.
  split; [reflexivity|].
  exact (NewV4_format countingBytes eq_refl countingBytes_bytes).
Defined.

Lemma NewV4_reads_back_witness :
  exists id : string,
    uuid.NewV4 (inr countingBytes) = (id, None)
    /\ from_digits 62 id 0 = big.SetBytes (stamped countingBytes)
    /\ stamped countingBytes !! 6%nat = Some 70
    /\ stamped countingBytes !! 8%nat = Some 136.
Proof.
  destruct (NewV4_reads_back countingBytes eq_refl countingBytes_bytes)
    as (id & x6 & b6 & x8 & b8 & Hid & Hback & _).
  exists id. split; [exact Hid|]. split; [exact Hback|]. split; reflexivity.
Defined.

Lemma NewV4_injective_witness :
  let a := repeat 0 16 in
  let b := <[6%nat := 240]> (<[8%nat := 192]> (repeat 0 16)) in
  a <> b
  /\ stamped a = stamped b
  /\ fst (uuid.NewV4 (inr a)) = fst (uuid.NewV4 (inr b)).
Proof.
  intros a b.
  assert (Ha : Forall is_byte a)
    by (repeat (constructor; [unfold is_byte; lia|]); constructor).
  assert (Hb : Forall is_byte b)
    by (repeat (constructor; [unfold is_byte; lia|]); constructor).
  split; [discriminate|]. split; [reflexivity|].
  exact (proj2 (NewV4_injective a b eq_refl eq_refl Ha Hb) eq_refl).
Defined.

Lemma plainMessage_wf (σ : World) : wf_message σ plainMessage.
Proof. intros l Hl. discriminate Hl. Qed.

Lemma Publish_request_contract_witness :
  exists r σ1 hdr,
    Publish_build test_NewRequest_error test_Duration_String testPublisher plainMessage
      [WithRetries 3] emptyWorld = Ret (inr (r, σ1))
    /\ Method r = "POST" /\ URL r = "url/topic" /\ ReqBody r = "message"
    /\ heap σ1 !! Header r = Some hdr
    /\ hdr !! "Authorization" = Some ["Bearer token"]
    /\ hdr !! "Upstash-Retries" = Some ["3"]
    /\ hdr !! "Upstash-Delay" = None.
Proof.
  assert (Hb : exists r σ1,
            Publish_build test_NewRequest_error test_Duration_String testPublisher
              plainMessage [WithRetries 3] emptyWorld = Ret (inr (r, σ1)))
    by (vm_compute; eexists _, _; reflexivity).
  destruct Hb as (r & σ1 & Hb).
  destruct (Publish_request_contract test_NewRequest_error test_Duration_String
              testPublisher plainMessage [WithRetries 3] emptyWorld r σ1
              (plainMessage_wf emptyWorld) Hb)
    as (HM & HU & HB & _ & _ & hdr & Hh & (HA & _ & HD & _ & HR) & _).
  exists r, σ1, hdr.
  split; [exact Hb|]. split; [exact HM|]. split; [exact HU|]. split; [exact HB|].
  split; [exact Hh|]. split; [exact HA|]. split; [exact HR | exact HD].
Defined.

Lemma Publish_identifier_use_witness :
  let q := Publisher.mk "token" "url" "topic" mockClient failingUUID false in
  exists σ',
    testPublish q plainMessage [] emptyWorld
    = Ret (Some "could not generate uuid unexpected EOF", plainMessage, σ')
    /\ uuids σ' = 1%nat
    /\ clientCalls σ' = [] /\ sends σ' = [].
Proof.
  intros q.
  exact (Publish_identifier_use test_NewRequest_error test_Duration_String test_json_Decode
           q plainMessage [] emptyWorld (plainMessage_wf emptyWorld)
           eq_refl eq_refl eq_refl).
Defined.

Lemma PublishWithDelay_overrides_witness :
  exists r σ1 hdr,
    PublishWithDelay test_NewRequest_error test_Duration_String test_json_Decode
      testPublisher plainMessage 0 [WithDelay Second; WithRetries 3] emptyWorld
    = Publish_send test_json_Decode testPublisher plainMessage r σ1
    /\ heap σ1 !! Header r = Some hdr
    /\ hdr !! "Upstash-Delay" = None
    /\ hdr !! "Upstash-Retries" = Some ["3"].
Proof.
  assert (Hb : exists r σ1,
            Publish_build test_NewRequest_error test_Duration_String testPublisher
              plainMessage ([WithDelay Second; WithRetries 3] ++ [WithDelay 0]) emptyWorld
            = Ret (inr (r, σ1)))
    by (vm_compute; eexists _, _; reflexivity).
  destruct Hb as (r & σ1 & Hb).
  destruct (PublishWithDelay_overrides test_NewRequest_error test_Duration_String
              test_json_Decode testPublisher plainMessage 0 [WithDelay Second; WithRetries 3]
              emptyWorld r σ1 (plainMessage_wf emptyWorld) Hb)
    as (HP & hdr & Hh & HD & HR & _).
  exists r, σ1, hdr.
  split; [exact HP|]. split; [exact Hh|]. split; [exact HD | exact HR].
Defined.

Lemma Publish_fails_after_exhausted_retries_witness :
  exists σ2,
    testPublish (retryingPublisher failingRoundTripper) plainMessage [] emptyWorld
    = Ret (Some "could not complete request connection refused", plainMessage, σ2)
    /\ length (sends σ2) = 6%nat
    /\ length (slept σ2) = 6%nat.
Proof.
  assert (Hb : exists r σ1,
            Publish_build test_NewRequest_error test_Duration_String
              (retryingPublisher failingRoundTripper) plainMessage [] emptyWorld
            = Ret (inr (r, σ1)) /\ sends σ1 = [] /\ slept σ1 = [])
    by (vm_compute; eexists _, _; repeat split; reflexivity).
  destruct Hb as (r & σ1 & Hb & Hs1 & Hsl1).
  assert (HR : 0 <= Retries (defaultClient failingRoundTripper) <= maxInt64 - 2)
    by (vm_compute; split; discriminate).
  destruct (Publish_fails_after_exhausted_retries test_NewRequest_error test_Duration_String
              test_json_Decode (retryingPublisher failingRoundTripper) plainMessage []
              emptyWorld r σ1 (defaultClient failingRoundTripper) 8 eq_refl HR)
    as (σ2 & HP & Hs & Hsl).
  - vm_compute. lia.
  - exact Hb.
  - intros n. exact I.
  - exists σ2. split; [exact HP|].
    rewrite Hs, Hsl, Hs1, Hsl1. split; reflexivity.
Defined.

Lemma Publish_rides_out_failures_witness :
  exists σ2,
    testPublish (retryingPublisher flakyRoundTripper) plainMessage [] emptyWorld
    = Ret (None, set_ID "mock-id" plainMessage, σ2)
    /\ length (sends σ2) = 3%nat
    /\ length (slept σ2) = 2%nat.
Proof.
  assert (Hb : exists r σ1,
            Publish_build test_NewRequest_error test_Duration_String
              (retryingPublisher flakyRoundTripper) plainMessage [] emptyWorld
            = Ret (inr (r, σ1)) /\ sends σ1 = [] /\ slept σ1 = [])
    by (vm_compute; eexists _, _; repeat split; reflexivity).
  destruct Hb as (r & σ1 & Hb & Hs1 & Hsl1).
  assert (HR : 0 <= Retries (defaultClient flakyRoundTripper) <= maxInt64 - 2)
    by (vm_compute; split; discriminate).
  destruct (Publish_rides_out_failures test_NewRequest_error test_Duration_String
              test_json_Decode (retryingPublisher flakyRoundTripper) plainMessage []
              emptyWorld r σ1 (defaultClient flakyRoundTripper) 8 2
              (mkResponse 200 (mkReadCloser mockBody None)) "mock-id" eq_refl HR)
    as (σ2 & HP & Hs & Hsl).
  - vm_compute. discriminate.
  - lia.
  - exact Hb.
  - rewrite Hs1. intros [|[|n]] Hn; [exact I | exact I | lia].
  - rewrite Hs1. reflexivity.
  - reflexivity.
  - reflexivity.
  - exists σ2. split; [exact HP|].
    rewrite Hs, Hsl, Hs1, Hsl1. split; reflexivity.
Defined.

Lemma Publish_panics_without_attempt_witness :
  let q := publisher_of test_http_Client test_rand_Reader 1
             (publisher_options test_Getenv "topic" [WithClientRetries maxInt64]) in
  test_NewPublisher 1 "topic" [WithClientRetries maxInt64] = inr q
  /\ testPublish q plainMessage [] emptyWorld = Panic.
Proof.
  intros q. split; [reflexivity|].
  assert (Hb : exists r σ1,
            Publish_build test_NewRequest_error test_Duration_String q plainMessage []
              emptyWorld = Ret (inr (r, σ1)))
    by (vm_compute; eexists _, _; reflexivity).
  destruct Hb as (r & σ1 & Hb).
  destruct (Publish_panics_without_attempt test_NewRequest_error test_Duration_String
              test_json_Decode q plainMessage [] emptyWorld r σ1
              (mkHttpClient failingRoundTripper Second (200 * Millisecond) maxInt64) 0
              eq_refl)
    as [_ HP].
  - vm_compute. reflexivity.
  - exact Hb.
  - exact HP.
Defined.


Lemma Receive_rejects_other_algorithms_witness :
  let σ := world_with (inbound_header "signed-with-rsa") in
  Receive test_decode_rsa test_Verify testReceiver (Some Ack) inbound
    1500 1500 σ
  = Ret (None,
         log_written
           (http_Error "could not parse jwt: unexpected signing method: RS256"
              StatusUnauthorized) σ).
Proof.
  intros σ.
  exact (Receive_rejects_other_algorithms test_decode_rsa test_Verify testReceiver
           (Some Ack) inbound 1500 1500 σ
           (inbound_header "signed-with-rsa") _ "RS256" eq_refl eq_refl eq_refl eq_refl).
Defined.

Lemma Receive_answers_witness :
  (exists res σ',
     test_Receive testReceiver (Some Ack) inbound 1500 1500
       (world_with (inbound_header "signed-with-current")) = Ret (res, σ')
     /\ status_of (written σ') = Some 200)
  /\ (exists res σ',
        test_Receive testReceiver (Some Ack) inbound 1500 1500
          (world_with (inbound_header "signed-with-next")) = Ret (res, σ')
        /\ status_of (written σ') = Some 401).
Proof.
  assert (Hv : test_verify "hello" "signed-with-current" "current-key" 1500 = None)
    by (vm_compute; reflexivity).
  assert (Hv' : test_verify "hello" "signed-with-next" "current-key" 1500
                = Some "could not parse jwt: signature is invalid")
    by (vm_compute; reflexivity).
  split.
  - destruct (Receive_answers test_decode test_Verify testReceiver
                (Some Ack) inbound 1500 1500
                (world_with (inbound_header "signed-with-current"))
                (inbound_header "signed-with-current") eq_refl eq_refl)
      as (_ & _ & H).
    destruct (H eq_refl Hv) as (σ' & HR & _ & Hst).
    eexists _, σ'. split; [exact HR | exact Hst].
  - destruct (Receive_answers test_decode test_Verify testReceiver
                (Some Ack) inbound 1500 1500
                (world_with (inbound_header "signed-with-next"))
                (inbound_header "signed-with-next") eq_refl eq_refl)
      as (_ & H & _).
    destruct (H _ eq_refl Hv') as (σ' & HR & Hst & _).
    eexists _, σ'. split; [exact HR | exact Hst].
Defined.

Lemma backOff_never_exceeds_max_witness :
  let c := mkHttpClient failingRoundTripper (2 ^ 62) (2 ^ 62) 5 in
  MinBackOff c <= MaxBackOff c
  /\ getExponentialBackOffDuration c 1 <= MaxBackOff c
  /\ getExponentialBackOffDuration c 0 = MinBackOff c.
Proof.
  intros c.
  assert (Hle : MinBackOff c <= MaxBackOff c) by (vm_compute; discriminate).
  split; [exact Hle|]. split.
  - exact (proj1 (backOff_never_exceeds_max c 1 Hle)).
  - apply (proj2 (backOff_never_exceeds_max c 0 Hle)). lia.
Defined.

Lemma Publish_errors_witness :
  let m := mkMessage EmptyString (Some 0%nat) "message" 0 None false in
  exists σ',
    testPublish testPublisher m [] (world_with badHeaders)
    = Ret (Some ErrHeaderPrefix, m, σ')
    /\ forall e0, ErrHeaderPrefix <> "bad options: " +:+ e0.
Proof.
  intros m.
  assert (Hwf : wf_message (world_with badHeaders) m)
    by (apply (wf_message_Some _ m 0%nat badHeaders); reflexivity).
  assert (HP : exists σ', testPublish testPublisher m [] (world_with badHeaders)
                          = Ret (Some ErrHeaderPrefix, m, σ'))
    by (vm_compute; eexists; reflexivity).
  destruct HP as (σ' & HP).
  exists σ'. split; [exact HP|].
  exact (proj2 (Publish_errors test_NewRequest_error test_Duration_String test_json_Decode
                  testPublisher m [] (world_with badHeaders) ErrHeaderPrefix m σ' Hwf HP)).
Defined.
